(** * Unified-diff parsing and analysis engine (src/utils/diffParser.js)

    A shallow embedding of [parseDiff], [analyzeChanges],
    [extractChangedCodeWithContext] and [findBestLineForComment], and the
    properties of the specification that concern them.

    Conventions of the embedding.
    - A JavaScript string is a [string]: a sequence of code units, taken in
      the 8-bit range.  In that range the line terminators that the regular
      expression atom [.] refuses are LF and CR, and the white space removed
      by [trim] is TAB, LF, VT, FF, CR, SPACE and NBSP.
    - A JavaScript number holding a line number or a count is a [Z]: the
      integer the double stands for, with [2 ^ 1024] standing for
      [Infinity].  What [parseInt] returns and what [parseDiff] adds to it
      are rounded as doubles are ([JsNumber]); the counters of a loop over
      an array, which holds fewer than [2 ^ 32] elements, are exact.
    - [null] and [undefined] are [None].
    - The file and hunk objects that [parseDiff] keeps mutating through its
      [currentFile] and [currentHunk] cursors live in the [changes] array;
      a cursor is the position of the object in that array.
    - Writes to the console are not modelled. *)

From Stdlib Require Import ZArith Ascii String Lia Bool Sorted.
From stdpp Require Import base option list strings.

Open Scope Z_scope.

(** ** JavaScript numbers

    The integers that a double represents are those below [2 ^ 53] and the
    multiples [m * 2 ^ e] of a power of two by a 53-bit [m].  An integer
    that is not one of them becomes the nearest one, the one with the even
    [m] when two are as near; from [2 ^ 1024 - 2 ^ 970] on it becomes
    [Infinity]. *)

Module JsNumber.

Definition infinity : Z := 2 ^ 1024.

(** The quotient [q] of a division that left the remainder [r], moved to
    [q + 1] when [r] is above [half], or equal to it with [q] odd. *)
Definition nearest_even (q r half : Z) : Z :=
  if r <? half then q
  else if half <? r then q + 1
  else if Z.even q then q else q + 1.

(** [z] rounded to a multiple of [2 ^ e]. *)
Definition round_at (e z : Z) : Z :=
  nearest_even (z / 2 ^ e) (z mod 2 ^ e) (2 ^ (e - 1)) * 2 ^ e.

Definition overflow (v : Z) : Z := if infinity <=? v then infinity else v.

(** The Number value for the integer [z], for [0 <= z]: [z] itself below
    [2 ^ 53], else [z] rounded to 53 significant bits. *)
Definition to_double (z : Z) : Z :=
  if z <? 2 ^ 53 then z else overflow (round_at (Z.log2 z - 52) z).

(** [a + b] on numbers that are not negative. *)
Definition js_add (a b : Z) : Z := to_double (a + b).

End JsNumber.
Import JsNumber.

(** ** JavaScript strings *)

Module JsString.

Definition LF : ascii := "010"%char.
Definition CR : ascii := "013"%char.

(** [s.replace(/\r/g, '')] *)
Fixpoint remove_cr (s : string) : string :=
  match s with
  | EmptyString => EmptyString
  | String c r => if Ascii.eqb c CR then remove_cr r else String c (remove_cr r)
  end.

(** [s.split('\n')]: never empty, the empty string splits into one empty
    piece. *)
Fixpoint split_lf (s : string) : list string :=
  match s with
  | EmptyString => [EmptyString]
  | String c r =>
      if Ascii.eqb c LF then EmptyString :: split_lf r
      else match split_lf r with
           | [] => [String c EmptyString]
           | l :: ls => String c l :: ls
           end
  end.

(** [s.startsWith(p)] *)
Definition startsWith (p s : string) : bool := String.prefix p s.

(** [s.substring(n)] *)
Fixpoint substring_from (n : nat) (s : string) : string :=
  match n, s with
  | O, _ => s
  | S _, EmptyString => EmptyString
  | S n', String _ r => substring_from n' r
  end.

(** White space of [String.prototype.trim] among 8-bit code units. *)
Definition is_white_space (c : ascii) : bool :=
  match nat_of_ascii c with
  | 9%nat | 10%nat | 11%nat | 12%nat | 13%nat | 32%nat | 160%nat => true
  | _ => false
  end.

Fixpoint trim_start (s : string) : string :=
  match s with
  | EmptyString => EmptyString
  | String c r => if is_white_space c then trim_start r else s
  end.

Fixpoint trim_end (s : string) : string :=
  match s with
  | EmptyString => EmptyString
  | String c r =>
      match trim_end r with
      | EmptyString => if is_white_space c then EmptyString else String c EmptyString
      | r' => String c r'
      end
  end.

(** [s.trim()] *)
Definition trim (s : string) : string := trim_end (trim_start s).

(** The atom [.] of a regular expression without the [s] flag. *)
Definition is_line_terminator (c : ascii) : bool :=
  Ascii.eqb c LF || Ascii.eqb c CR.

(** [true] when [.*] can match the whole of [s]. *)
Fixpoint all_dots (s : string) : bool :=
  match s with
  | EmptyString => true
  | String c r => negb (is_line_terminator c) && all_dots r
  end.

(** The atom [\d]. *)
Definition is_digit (c : ascii) : bool :=
  let n := nat_of_ascii c in (48 <=? n)%nat && (n <=? 57)%nat.

(** The longest run of digits at the head of [s], and what follows it:
    how a greedy [\d*] splits [s]. *)
Fixpoint span_digits (s : string) : string * string :=
  match s with
  | EmptyString => (EmptyString, EmptyString)
  | String c r =>
      if is_digit c then let '(d, rest) := span_digits r in (String c d, rest)
      else (EmptyString, s)
  end.

(** The integer that the decimal digits of [s] write after those that
    gave [acc]. *)
Fixpoint parseInt_from (acc : Z) (s : string) : Z :=
  match s with
  | EmptyString => acc
  | String c r => parseInt_from (10 * acc + (Z.of_nat (nat_of_ascii c) - 48)) r
  end.

(** [parseInt(s)] on a string of decimal digits: the Number value for the
    integer they write.  (The language lets an implementation replace the
    digits after the 20th by zeros first; the model does not.) *)
Definition parseInt (s : string) : Z := to_double (parseInt_from 0 s).

(** The first occurrence of [pat] in [s]: what precedes it and what
    follows it. *)
Fixpoint split_first (pat s : string) : option (string * string) :=
  if startsWith pat s then Some (EmptyString, substring_from (String.length pat) s)
  else match s with
       | EmptyString => None
       | String c r =>
           match split_first pat r with
           | Some (before, after) => Some (String c before, after)
           | None => None
           end
       end.

(** [s.endsWith(p)] *)
Fixpoint endsWith (p s : string) : bool :=
  String.eqb p s ||
  match s with
  | EmptyString => false
  | String _ r => endsWith p r
  end.

End JsString.
Import JsString.

(** ** The regular expressions of [parseDiff]

    Each matcher returns the capture groups of a successful match, [None]
    when the expression does not match. *)

Module Regex.

(** [/^diff --git a\/(.*?) b\/(.*?)$/]: the lazy first group stops at the
    first [" b/"], the second group runs to the end of the line. *)
Definition match_diff_header (line : string) : option (string * string) :=
  if startsWith "diff --git a/" line then
    let rest := substring_from 13 line in
    if all_dots rest then split_first " b/" rest else None
  else None.

(** [/^Binary files? .* differ$/]: what follows the head must end with
    [" differ"], and [.*] takes what is in between. *)
Definition match_binary (line : string) : bool :=
  let after (head : string) :=
    startsWith head line &&
    (let rest := substring_from (String.length head) line in
     endsWith " differ" rest && all_dots rest) in
  after "Binary files " || after "Binary file ".

(** The expressions of lines 61 and 67: [marker], which is ["--- "] or
    ["+++ "], then optionally [side], which is ["a/"] or ["b/"], then one
    group [.*] that runs to the end of the line. *)
Definition match_path (marker side line : string) : option string :=
  if startsWith marker line then
    let rest := substring_from (String.length marker) line in
    if all_dots rest then
      Some (if startsWith side rest then substring_from (String.length side) rest
            else rest)
    else None
  else None.

(** [(?:,(\d+))?] *)
Definition match_length (s : string) : option string * string :=
  match s with
  | String "," r =>
      match span_digits r with
      | (EmptyString, _) => (None, s)
      | (d, rest) => (Some d, rest)
      end
  | _ => (None, s)
  end.

(** The expression of line 75: ["@@ -"], digits, an optional length,
    [" +"], digits, an optional length, [" @@"], and one group [.*] that
    runs to the end of the line. *)
Definition match_hunk_header (line : string)
  : option (string * option string * string * option string * string) :=
  if startsWith "@@ -" line then
    match span_digits (substring_from 4 line) with
    | (EmptyString, _) => None
    | (m1, s2) =>
        let '(m2, s3) := match_length s2 in
        if startsWith " +" s3 then
          match span_digits (substring_from 2 s3) with
          | (EmptyString, _) => None
          | (m3, s5) =>
              let '(m4, s6) := match_length s5 in
              if startsWith " @@" s6 then
                let m5 := substring_from 3 s6 in
                if all_dots m5 then Some (m1, m2, m3, m4, m5) else None
              else None
          end
        else None
    end
  else None.

End Regex.
Import Regex.

(** ** Data model *)

Inductive LineType := context | added | removed.

#[global] Instance LineType_eq_dec : EqDecision LineType.
Proof. solve_decision. Defined.

Record Line := mkLine {
  content : string;
  lineType : LineType;
  oldLineNumber : option Z;
  newLineNumber : option Z
}.

(** The field [context] of a hunk object is [hunkContext] here, the name
    [context] being the line type. *)
Record Hunk := mkHunk {
  oldStart : Z;
  oldLength : Z;
  newStart : Z;
  newLength : Z;
  hunkContext : string;
  lines : list Line
}.

Record FileChange := mkFileChange {
  filePath : string;
  oldFilePath : string;
  isDeleted : bool;
  isNew : bool;
  isRenamed : bool;
  isBinary : bool;
  hunks : list Hunk
}.

Definition set_filePath (p : string) (f : FileChange) : FileChange :=
  mkFileChange p (oldFilePath f) (isDeleted f) (isNew f) (isRenamed f) (isBinary f) (hunks f).
Definition set_oldFilePath (p : string) (f : FileChange) : FileChange :=
  mkFileChange (filePath f) p (isDeleted f) (isNew f) (isRenamed f) (isBinary f) (hunks f).
Definition set_isDeleted (f : FileChange) : FileChange :=
  mkFileChange (filePath f) (oldFilePath f) true (isNew f) (isRenamed f) (isBinary f) (hunks f).
Definition set_isNew (f : FileChange) : FileChange :=
  mkFileChange (filePath f) (oldFilePath f) (isDeleted f) true (isRenamed f) (isBinary f) (hunks f).
Definition set_isRenamed (f : FileChange) : FileChange :=
  mkFileChange (filePath f) (oldFilePath f) (isDeleted f) (isNew f) true (isBinary f) (hunks f).
Definition set_isBinary (f : FileChange) : FileChange :=
  mkFileChange (filePath f) (oldFilePath f) (isDeleted f) (isNew f) (isRenamed f) true (hunks f).
Definition set_hunks (hs : list Hunk) (f : FileChange) : FileChange :=
  mkFileChange (filePath f) (oldFilePath f) (isDeleted f) (isNew f) (isRenamed f) (isBinary f) hs.
Definition set_lines (ls : list Line) (h : Hunk) : Hunk :=
  mkHunk (oldStart h) (oldLength h) (newStart h) (newLength h) (hunkContext h) ls.

(** ** Exceptions *)

Inductive exn := TypeError.

Inductive completion (A : Type) :=
| Normal (a : A)
| Throw (e : exn).
Arguments Normal {A} a.
Arguments Throw {A} e.

Definition bind {A B} (c : completion A) (k : A -> completion B) : completion B :=
  match c with
  | Normal a => k a
  | Throw e => Throw e
  end.

#[global] Instance completion_bind : MBind completion := fun A B k c => bind c k.

(** ** [parseDiff] *)

Module Parser.

(** [getLineType] *)
Definition getLineType (line : string) : LineType :=
  if startsWith "+" line then added
  else if startsWith "-" line then removed
  else context.

Record ParseState := mkState {
  changes : list FileChange;
  currentFile : option nat;
  currentHunk : option (nat * nat)
}.

(** Reading through a cursor; a cursor that designates no object throws. *)
Definition file_at (cs : list FileChange) (i : nat) : completion FileChange :=
  match cs !! i with
  | Some f => Normal f
  | None => Throw TypeError
  end.

Definition hunk_at (cs : list FileChange) (p : nat * nat) : completion Hunk :=
  f ← file_at cs p.1;
  match hunks f !! p.2 with
  | Some h => Normal h
  | None => Throw TypeError
  end.

(** Writing a property of the file object a cursor designates. *)
Definition assign_file (g : FileChange -> FileChange) (i : nat) (st : ParseState)
  : completion ParseState :=
  _ ← file_at (changes st) i;
  Normal (mkState (alter g i (changes st)) (currentFile st) (currentHunk st)).

(** [if (currentFile) currentFile.p = v] *)
Definition on_currentFile (g : FileChange -> FileChange) (st : ParseState)
  : completion ParseState :=
  match currentFile st with
  | Some i => assign_file g i st
  | None => Normal st
  end.

(** The loop of lines 106 to 113: the numbers of old-side and of new-side
    lines already in the hunk.  The counters stay below the length of the
    array, where adding 1 is exact. *)
Fixpoint count_lines (hunkLines : list Line) (oldLineCount newLineCount : Z) : Z * Z :=
  match hunkLines with
  | [] => (oldLineCount, newLineCount)
  | hunkLine :: rest =>
      let oldLineCount' :=
        if bool_decide (lineType hunkLine = context) || bool_decide (lineType hunkLine = removed)
        then oldLineCount + 1 else oldLineCount in
      let newLineCount' :=
        if bool_decide (lineType hunkLine = context) || bool_decide (lineType hunkLine = added)
        then newLineCount + 1 else newLineCount in
      count_lines rest oldLineCount' newLineCount'
  end.

(** The line object built at lines 91 to 120 for [line] in hunk [h]; the
    two sums are sums of doubles. *)
Definition lineData (h : Hunk) (line : string) : Line :=
  let lineType := getLineType line in
  let content := substring_from 1 line in
  let '(oldLineCount, newLineCount) := count_lines (lines h) 0 0 in
  mkLine content lineType
    (if bool_decide (lineType = context) || bool_decide (lineType = removed)
     then Some (js_add (oldStart h) oldLineCount) else None)
    (if bool_decide (lineType = context) || bool_decide (lineType = added)
     then Some (js_add (newStart h) newLineCount) else None).

Definition push_line (l : Line) (h : Hunk) : Hunk := set_lines (lines h ++ [l]) h.
Definition push_hunk (h : Hunk) (f : FileChange) : FileChange := set_hunks (hunks f ++ [h]) f.

(** The hunk object built at lines 77 to 84 from the capture groups. *)
Definition new_hunk (m : string * option string * string * option string * string) : Hunk :=
  let '(m1, m2, m3, m4, m5) := m in
  mkHunk (parseInt m1) (parseInt (default "1" m2))
         (parseInt m3) (parseInt (default "1" m4))
         (if String.eqb m5 "" then "" else trim m5) [].

(** One turn of the [while] loop on [line]: the chain of [if]/[else if]
    of lines 26 to 123. *)
Definition step (st : ParseState) (line : string) : completion ParseState :=
  if startsWith "diff --git" line then
    match match_diff_header line with
    | Some (m1, m2) =>
        let file := mkFileChange (trim m2) (trim m1) false false false false [] in
        Normal (mkState (changes st ++ [file]) (Some (length (changes st))) (currentHunk st))
    | None => Normal st
    end
  else if startsWith "new file mode" line then on_currentFile set_isNew st
  else if startsWith "deleted file mode" line then on_currentFile set_isDeleted st
  else if startsWith "similarity index" line || startsWith "rename from" line
          || startsWith "rename to" line then on_currentFile set_isRenamed st
  else if match_binary line then on_currentFile set_isBinary st
  else if startsWith "---" line then
    match match_path "--- " "a/" line with
    | Some m1 =>
        if negb (String.eqb m1 "/dev/null") then on_currentFile (set_oldFilePath (trim m1)) st
        else Normal st
    | None => Normal st
    end
  else if startsWith "+++" line then
    match match_path "+++ " "b/" line with
    | Some m1 =>
        if negb (String.eqb m1 "/dev/null") then on_currentFile (set_filePath (trim m1)) st
        else Normal st
    | None => Normal st
    end
  else
    (* line.startsWith('@@') && currentFile && !currentFile.isBinary *)
    hunk_header ←
      (if startsWith "@@" line then
         match currentFile st with
         | Some i => f ← file_at (changes st) i;
                     Normal (if isBinary f then None else Some (i, f))
         | None => Normal None
         end
       else Normal None);
    match hunk_header with
    | Some (i, f) =>
        match match_hunk_header line with
        | Some m =>
            Normal (mkState (alter (push_hunk (new_hunk m)) i (changes st))
                            (currentFile st)
                            (Some (i, length (hunks f))))
        | None => Normal st
        end
    | None =>
        match currentHunk st with
        | Some p =>
            if startsWith " " line || startsWith "+" line || startsWith "-" line then
              h ← hunk_at (changes st) p;
              Normal (mkState
                        (alter (fun f => set_hunks (alter (push_line (lineData h line)) p.2 (hunks f)) f)
                               p.1 (changes st))
                        (currentFile st) (currentHunk st))
            else Normal st
        | None => Normal st
        end
    end.

(** The [while] loop. *)
Fixpoint run (st : ParseState) (lines : list string) : completion ParseState :=
  match lines with
  | [] => Normal st
  | line :: rest => st' ← step st line; run st' rest
  end.

Definition initial : ParseState := mkState [] None None.

(** The body of the [try]. *)
Definition parseDiff_body (diffText : string) : completion (list FileChange) :=
  let sanitizedDiff := remove_cr diffText in
  st ← run initial (split_lf sanitizedDiff);
  Normal (changes st).

(** [parseDiff]: the [catch] returns the empty list. *)
Definition parseDiff (diffText : string) : list FileChange :=
  match parseDiff_body diffText with
  | Normal changes => changes
  | Throw _ => []
  end.

End Parser.
Import Parser.

(** ** [analyzeChanges] *)

Module Analyzer.

(** An element of [fileStats]; the fields are those of the source object
    with the prefix [stat_]. *)
Record FileStat := mkFileStat {
  stat_filePath : string;
  stat_added : Z;
  stat_removed : Z;
  stat_isNew : bool;
  stat_isDeleted : bool;
  stat_isBinary : bool
}.

Record Analysis := mkAnalysis {
  totalFiles : Z;
  totalAdded : Z;
  totalRemoved : Z;
  fileStats : list FileStat
}.

(** The four counters the loops increment. *)
Record Counters := mkCounters {
  c_totalAdded : Z;
  c_totalRemoved : Z;
  c_fileAdded : Z;
  c_fileRemoved : Z
}.

(** The body of the loop over the lines of a hunk, lines 175 to 182. *)
Definition count_line (c : Counters) (line : Line) : Counters :=
  match lineType line with
  | added => mkCounters (c_totalAdded c + 1) (c_totalRemoved c) (c_fileAdded c + 1) (c_fileRemoved c)
  | removed => mkCounters (c_totalAdded c) (c_totalRemoved c + 1) (c_fileAdded c) (c_fileRemoved c + 1)
  | context => c
  end.

(** The loop over the hunks of a file, lines 173 to 184. *)
Definition count_hunks (c : Counters) (hunks : list Hunk) : Counters :=
  fold_left (fun c hunk => fold_left count_line (lines hunk) c) hunks c.

(** The body of the loop over the files, lines 168 to 193: [acc] holds
    [totalAdded], [totalRemoved] and [fileStats]. *)
Definition analyze_change (acc : Z * Z * list FileStat) (change : FileChange)
  : Z * Z * list FileStat :=
  let '(totalAdded, totalRemoved, fileStats) := acc in
  let c := count_hunks (mkCounters totalAdded totalRemoved 0 0) (hunks change) in
  (c_totalAdded c, c_totalRemoved c,
   fileStats ++ [mkFileStat
                   (if String.eqb (filePath change) "" then "unknown_file" else filePath change)
                   (c_fileAdded c) (c_fileRemoved c)
                   (isNew change) (isDeleted change) (isBinary change)]).

Definition analyzeChanges (changes : list FileChange) : Analysis :=
  if bool_decide (length changes = 0%nat) then mkAnalysis 0 0 0 []
  else
    let totalFiles := Z.of_nat (length changes) in
    let '(totalAdded, totalRemoved, fileStats) := fold_left analyze_change changes (0, 0, []) in
    mkAnalysis totalFiles totalAdded totalRemoved fileStats.

End Analyzer.
Import Analyzer.

(** ** [extractChangedCodeWithContext] *)

Module Extractor.

(** An element of the [code] array of a block. *)
Record CodeEntry := mkEntry {
  code_content : string;
  lineNumber : Z;
  isChange : bool
}.

Record Block := mkBlock {
  block_filePath : string;
  startLine : option Z;
  endLine : option Z;
  code : list CodeEntry;
  hasChanges : bool
}.

(** The variables of the loop over the lines of a hunk, with the output
    array [codeBlocks]. An element of [contextBuffer] is the pair of its
    [content] and its [lineNumber], both always defined. *)
Record LoopState := mkLoop {
  inChangeBlock : bool;
  currentBlock : Block;
  contextBuffer : list (string * Z);
  codeBlocks : list Block
}.

Definition empty_block (filePath : string) : Block := mkBlock filePath None None [] false.

(** [s.replace(/\n$/, '')] *)
Fixpoint strip_final_lf (s : string) : string :=
  match s with
  | EmptyString => EmptyString
  | String c EmptyString => if Ascii.eqb c LF then EmptyString else s
  | String c r => String c (strip_final_lf r)
  end.

(** The loop of lines 305 to 341 as far as its exit test: it walks the
    block from its end, counting the entries that are no change, and stops
    with the count when it reaches [contextLines]; a change, or the start
    of the block, ends it with nothing. *)
Fixpoint trailing_context (contextLines : Z) (backwards : list CodeEntry) (contextCount : Z)
  : option Z :=
  match backwards with
  | [] => None
  | entry :: rest =>
      if negb (isChange entry) then
        let contextCount := contextCount + 1 in
        if contextLines <=? contextCount then Some contextCount
        else trailing_context contextLines rest contextCount
      else None
  end.

(** Lines 313 to 320: the block trimmed to its trailing window. *)
Definition trim_block (contextLines contextCount : Z) (b : Block) : Block :=
  let len := Z.of_nat (length (code b)) in
  let trimIndex := Z.max 0 (len - contextCount + contextLines) in
  if trimIndex <? len then
    let code' := take (Z.to_nat trimIndex) (code b) in
    mkBlock (block_filePath b) (startLine b)
            (match last code' with
             | Some entry => Some (lineNumber entry)
             | None => endLine b
             end)
            code' (hasChanges b)
  else b.

(** One turn of the loop over the lines of a hunk, lines 250 to 342. *)
Definition extract_line (filePath : string) (contextLines : Z) (s : LoopState) (line : Line)
  : LoopState :=
  let lineContent := strip_final_lf (content line) in
  let lineType := lineType line in
  match newLineNumber line with
  | None => s
  | Some lineNumber =>
      let change := bool_decide (lineType = added) || bool_decide (lineType = removed) in
      (* start a new block *)
      let s1 :=
        if change && negb (inChangeBlock s) then
          let b := currentBlock s in
          mkLoop true
                 (mkBlock (block_filePath b)
                          (Some (Z.max 1 (lineNumber - contextLines)))
                          (endLine b)
                          (code b ++ map (fun c => mkEntry c.1 c.2 false) (contextBuffer s))
                          true)
                 [] (codeBlocks s)
        else s in
      (* add the line to the block or to the buffer *)
      let s2 :=
        if inChangeBlock s1 then
          let b := currentBlock s1 in
          mkLoop true
                 (mkBlock (block_filePath b) (startLine b) (Some lineNumber)
                          (code b ++ [mkEntry lineContent lineNumber change])
                          (hasChanges b))
                 (contextBuffer s1) (codeBlocks s1)
        else
          let buffer := contextBuffer s1 ++ [(lineContent, lineNumber)] in
          mkLoop false (currentBlock s1)
                 (if contextLines <? Z.of_nat (length buffer) then tail buffer else buffer)
                 (codeBlocks s1) in
      (* end the block *)
      if bool_decide (lineType = context) && inChangeBlock s2 then
        match trailing_context contextLines (rev (code (currentBlock s2))) 0 with
        | Some contextCount =>
            let b := trim_block contextLines contextCount (currentBlock s2) in
            mkLoop false (empty_block filePath) []
                   (if hasChanges b && bool_decide (0 < length (code b))%nat
                    then codeBlocks s2 ++ [b] else codeBlocks s2)
        | None => s2
        end
      else s2
  end.

(** The body of the loop over the hunks, lines 235 to 348; [emitted] is
    the array [codeBlocks] when the turn starts, the result is that array
    when it ends. *)
Definition extract_hunk (filePath : string) (contextLines : Z) (emitted : list Block)
    (hunk : Hunk) : list Block :=
  if bool_decide (length (lines hunk) = 0%nat) then emitted
  else
    let s := fold_left (extract_line filePath contextLines) (lines hunk)
                       (mkLoop false (empty_block filePath) [] emitted) in
    if inChangeBlock s && hasChanges (currentBlock s)
       && bool_decide (0 < length (code (currentBlock s)))%nat
    then codeBlocks s ++ [currentBlock s]
    else codeBlocks s.

(** The body of the loop over the files, lines 222 to 349. *)
Definition extract_change (contextLines : Z) (emitted : list Block) (change : FileChange)
  : list Block :=
  let filePath := filePath change in
  if String.eqb filePath "" then emitted
  else if isDeleted change || isBinary change then emitted
  else fold_left (extract_hunk filePath contextLines) (hunks change) emitted.

Definition extractChangedCodeWithContext (changes : list FileChange) (contextLines : Z)
  : list Block :=
  if bool_decide (length changes = 0%nat) then []
  else fold_left (extract_change contextLines) changes [].

End Extractor.
Import Extractor.

(** ** [findBestLineForComment] *)

Module Locator.

(** The argument [fileInfo]: its [hunks] property can be missing. *)
Record FileInfo := mkFileInfo {
  info_hunks : option (list Hunk)
}.

(** A value of [lineMap]. *)
Record LineInfo := mkLineInfo {
  info_type : LineType;
  info_content : string;
  info_hunk : Hunk
}.

(** The returned object; [exists_] is its property [exists]. *)
Record Located := mkLocated {
  line : Z;
  originalLine : option Z;
  exists_ : bool;
  type : option LineType;
  inDiff : bool;
  adjusted : option bool
}.

(** A [Map] keyed by numbers: the entries in insertion order. *)
Definition LineMap := list (Z * LineInfo).

(** [m.set(k, v)]: a key already present keeps its place. *)
Fixpoint map_set (k : Z) (v : LineInfo) (m : LineMap) : LineMap :=
  match m with
  | [] => [(k, v)]
  | (k', v') :: rest => if k =? k' then (k, v) :: rest else (k', v') :: map_set k v rest
  end.

(** [m.get(k)] *)
Fixpoint map_get (k : Z) (m : LineMap) : option LineInfo :=
  match m with
  | [] => None
  | (k', v') :: rest => if k =? k' then Some v' else map_get k rest
  end.

(** [m.has(k)] *)
Definition map_has (k : Z) (m : LineMap) : bool :=
  match map_get k m with Some _ => true | None => false end.

(** [Array.from(m.keys())] *)
Definition map_keys (m : LineMap) : list Z := map fst m.

(** [a.sort((a, b) => a - b)]: the ascending order of the numbers. *)
Fixpoint insert_sorted (x : Z) (l : list Z) : list Z :=
  match l with
  | [] => [x]
  | y :: rest => if x <=? y then x :: l else y :: insert_sorted x rest
  end.

Fixpoint sort_ascending (l : list Z) : list Z :=
  match l with
  | [] => []
  | x :: rest => insert_sorted x (sort_ascending rest)
  end.

(** The loops of lines 377 to 387. *)
Definition add_line (hunk : Hunk) (lineMap : LineMap) (l : Line) : LineMap :=
  match newLineNumber l with
  | Some n => map_set n (mkLineInfo (lineType l) (content l) hunk) lineMap
  | None => lineMap
  end.

Definition build_lineMap (hunks : list Hunk) : LineMap :=
  fold_left (fun lineMap hunk => fold_left (add_line hunk) (lines hunk) lineMap) hunks [].

(** The loop of lines 415 to 421. *)
Fixpoint closest (targetLine : Z) (availableLines : list Z) (closestLine minDistance : Z) : Z :=
  match availableLines with
  | [] => closestLine
  | line :: rest =>
      let distance := Z.abs (targetLine - line) in
      if distance <? minDistance then closest targetLine rest line distance
      else closest targetLine rest closestLine minDistance
  end.

Definition not_in_diff (targetLine : Z) : Located :=
  mkLocated targetLine None false None false None.

Definition findBestLineForComment (fileInfo : option FileInfo) (targetLine : Z)
  : completion Located :=
  match fileInfo with
  | None => Normal (not_in_diff targetLine)
  | Some info =>
      match info_hunks info with
      | None => Normal (not_in_diff targetLine)
      | Some hunks =>
          let lineMap := build_lineMap hunks in
          if map_has targetLine lineMap then
            match map_get targetLine lineMap with
            | Some lineInfo =>
                Normal (mkLocated targetLine None true (Some (info_type lineInfo)) true None)
            | None => Throw TypeError
            end
          else
            let availableLines := sort_ascending (map_keys lineMap) in
            match availableLines with
            | [] => Normal (not_in_diff targetLine)
            | first :: _ =>
                let closestLine :=
                  closest targetLine availableLines first (Z.abs (targetLine - first)) in
                match map_get closestLine lineMap with
                | Some lineInfo =>
                    Normal (mkLocated closestLine (Some targetLine) true
                                      (Some (info_type lineInfo)) true (Some true))
                | None => Throw TypeError
                end
            end
      end
  end.

(** The file object of a parse result as an argument of the locator. *)
Definition fileInfo_of (change : FileChange) : option FileInfo :=
  Some (mkFileInfo (Some (hunks change))).

End Locator.
Import Locator.


(** ** [getModifiedLines], [isLineCommentable] and [getChangesSummary] *)

Module Helpers.

(** The loops of lines 446 to 452: the numbers of the added lines, in the
    order of the file. *)
Definition push_modified (modifiedLines : list Z) (l : Line) : list Z :=
  if bool_decide (lineType l = added) then
    match newLineNumber l with
    | Some n => modifiedLines ++ [n]
    | None => modifiedLines
    end
  else modifiedLines.

Definition getModifiedLines (fileInfo : option FileInfo) : list Z :=
  match fileInfo with
  | None => []
  | Some info =>
      match info_hunks info with
      | None => []
      | Some hunks =>
          sort_ascending
            (fold_left (fun modifiedLines hunk => fold_left push_modified (lines hunk) modifiedLines)
                       hunks [])
      end
  end.

(** The inner loop of lines 469 to 474: [Some b] when the loop returns [b],
    [None] when it ends without a return. *)
Fixpoint commentable_in_lines (ls : list Line) (lineNumber : Z) : option bool :=
  match ls with
  | [] => None
  | l :: rest =>
      if bool_decide (newLineNumber l = Some lineNumber) then
        Some (bool_decide (lineType l = added) || bool_decide (lineType l = context))
      else commentable_in_lines rest lineNumber
  end.

(** The outer loop of lines 468 to 475. *)
Fixpoint commentable_in_hunks (hunks : list Hunk) (lineNumber : Z) : option bool :=
  match hunks with
  | [] => None
  | hunk :: rest =>
      match commentable_in_lines (lines hunk) lineNumber with
      | Some b => Some b
      | None => commentable_in_hunks rest lineNumber
      end
  end.

Definition isLineCommentable (fileInfo : option FileInfo) (lineNumber : Z) : bool :=
  match fileInfo with
  | None => false
  | Some info =>
      match info_hunks info with
      | None => false
      | Some hunks => default false (commentable_in_hunks hunks lineNumber)
      end
  end.

(** An element of [files] in the summary; the fields are those of the
    source object with the prefix [file_]. *)
Record SummaryFile := mkSummaryFile {
  file_path : string;
  file_added : Z;
  file_removed : Z;
  file_isNew : bool;
  file_isDeleted : bool;
  file_isBinary : bool
}.

Record Summary := mkSummary {
  filesChanged : Z;
  linesAdded : Z;
  linesRemoved : Z;
  files : list SummaryFile
}.

Definition getChangesSummary (changes : list FileChange) : Summary :=
  let analysis := analyzeChanges changes in
  mkSummary (totalFiles analysis) (totalAdded analysis) (totalRemoved analysis)
            (map (fun stat => mkSummaryFile (stat_filePath stat) (stat_added stat)
                                             (stat_removed stat) (stat_isNew stat)
                                             (stat_isDeleted stat) (stat_isBinary stat))
                 (fileStats analysis)).

End Helpers.
Import Helpers.

(** ** [extractFilePath] *)

Module FilePath.

(** What [.*] can take at the head of [s]: the characters before the first
    line terminator. *)
Fixpoint segment (s : string) : string :=
  match s with
  | EmptyString => EmptyString
  | String c r => if is_line_terminator c then EmptyString else String c (segment r)
  end.

(** The last occurrence of [pat] in [s]: what precedes it and what follows
    it. A greedy [.*] before [pat] stops there. *)
Fixpoint split_last (pat s : string) : option (string * string) :=
  match s with
  | EmptyString =>
      if startsWith pat s then Some (EmptyString, substring_from (String.length pat) s) else None
  | String c r =>
      match split_last pat r with
      | Some (before, after) => Some (String c before, after)
      | None =>
          if startsWith pat s then Some (EmptyString, substring_from (String.length pat) s)
          else None
      end
  end.

(** [s.match(re)] for an expression without anchor: the match at the first
    position of [s] where [at_start] finds one. *)
Fixpoint search (at_start : string -> option string) (s : string) : option string :=
  match at_start s with
  | Some group => Some group
  | None =>
      match s with
      | EmptyString => None
      | String _ r => search at_start r
      end
  end.

(** The first expression of line 541 at the start of [s]: ["diff --git a/"],
    a greedy [.*], [" b/"] and the group [.*]. *)
Definition git_header_at (s : string) : option string :=
  if startsWith "diff --git a/" s then
    match split_last " b/" (segment (substring_from 13 s)) with
    | Some (_, group) => Some group
    | None => None
    end
  else None.

(** The expressions of lines 542 and 543 at the start of [s]: [marker],
    which is ["+++ b/"] or ["--- a/"], and the group [.*]. *)
Definition marker_at (marker s : string) : option string :=
  if startsWith marker s then Some (segment (substring_from (String.length marker) s))
  else None.

(** The test of line 548 on the group of a match. *)
Definition usable (group : option string) : option string :=
  match group with
  | Some g => if negb (String.eqb g "") && negb (String.eqb g "/dev/null") then Some g else None
  | None => None
  end.

Definition extractFilePath (header : string) : option string :=
  match usable (search git_header_at header) with
  | Some g => Some g
  | None =>
      match usable (search (marker_at "+++ b/") header) with
      | Some g => Some g
      | None => usable (search (marker_at "--- a/") header)
      end
  end.

End FilePath.
Import FilePath.

(** ** The file lookup of [postReviewComments] (services/bitbucketApi.js) *)

Module Review.

(** [file.newPath] and [file.oldPath]: the objects that [parseDiff] builds
    (lines 29 to 37 of the parser) have the properties [filePath] and
    [oldFilePath] and no property of these two names, so both reads give
    [undefined]. *)
Definition newPath (file : FileChange) : option string := None.
Definition oldPath (file : FileChange) : option string := None.

(** The [Map] of lines 239 to 247: its keys are strings or [undefined]. *)
Definition FileMap := list (option string * FileChange).

Fixpoint fileMap_set (k : option string) (v : FileChange) (m : FileMap) : FileMap :=
  match m with
  | [] => [(k, v)]
  | (k', v') :: rest =>
      if bool_decide (k = k') then (k, v) :: rest else (k', v') :: fileMap_set k v rest
  end.

Fixpoint fileMap_get (k : option string) (m : FileMap) : option FileChange :=
  match m with
  | [] => None
  | (k', v') :: rest => if bool_decide (k = k') then Some v' else fileMap_get k rest
  end.

(** The callback of [forEach], lines 240 to 247. *)
Definition add_file (fileMap : FileMap) (file : FileChange) : FileMap :=
  let fileMap := fileMap_set (newPath file) file fileMap in
  match oldPath file with
  | Some p =>
      if negb (String.eqb p "") && negb (bool_decide (Some p = newPath file))
      then fileMap_set (Some p) file fileMap
      else fileMap
  | None => fileMap
  end.

Definition build_fileMap (parsedFiles : list FileChange) : FileMap :=
  fold_left add_file parsedFiles [].

(** Lines 271 to 287: the file of a comment is looked up and its line is
    resolved; the result is the line to post and [lineMetadata]. The file
    of the comment is a string or is missing; its line is taken after
    [parseInt]. *)
Definition resolve_line (fileMap : FileMap) (comment_file : option string) (targetLine : Z)
  : completion (Z * option Located) :=
  match fileMap_get comment_file fileMap with
  | Some fileInfo =>
      lineMetadata ← findBestLineForComment (fileInfo_of fileInfo) targetLine;
      Normal (match adjusted lineMetadata with
              | Some true => line lineMetadata
              | _ => targetLine
              end, Some lineMetadata)
  | None => Normal (targetLine, None)
  end.

End Review.
Import Review.

(** ** Vocabulary of the properties *)

Definition nl : string := String LF EmptyString.

(** The lines [parseDiff] scans. *)
Definition lines_of (diffText : string) : list string := split_lf (remove_cr diffText).

(** Both cursors designate objects of the [changes] array. *)
Definition cursors_ok (st : ParseState) : Prop :=
  (∀ i, currentFile st = Some i → is_Some (changes st !! i)) ∧
  (∀ p, currentHunk st = Some p →
        ∃ f, changes st !! p.1 = Some f ∧ is_Some (hunks f !! p.2)).

(** [line.startsWith(' ') || line.startsWith('+') || line.startsWith('-')] *)
Definition is_content (line : string) : bool :=
  startsWith " " line || startsWith "+" line || startsWith "-" line.

(** What one line can do to the file object a cursor designates. *)
Inductive file_update (line : string) : FileChange → FileChange → Prop :=
| upd_isNew f : file_update line f (set_isNew f)
| upd_isDeleted f : file_update line f (set_isDeleted f)
| upd_isRenamed f : file_update line f (set_isRenamed f)
| upd_isBinary f : file_update line f (set_isBinary f)
| upd_oldFilePath f m1 :
    match_path "--- " "a/" line = Some m1 → m1 ≠ "/dev/null" →
    file_update line f (set_oldFilePath (trim m1) f)
| upd_filePath f m1 :
    match_path "+++ " "b/" line = Some m1 → m1 ≠ "/dev/null" →
    file_update line f (set_filePath (trim m1) f)
| upd_hunk f m :
    match_hunk_header line = Some m → isBinary f = false →
    file_update line f (push_hunk (new_hunk m) f)
| upd_line f j h :
    hunks f !! j = Some h → is_content line = true →
    startsWith "---" line = false → startsWith "+++" line = false →
    file_update line f (set_hunks (alter (push_line (lineData h line)) j (hunks f)) f).

Inductive effect (line : string) (cs : list FileChange) : list FileChange → Prop :=
| eff_skip : match_diff_header line = None → effect line cs cs
| eff_file m1 m2 :
    match_diff_header line = Some (m1, m2) →
    effect line cs (cs ++ [mkFileChange (trim m2) (trim m1) false false false false []])
| eff_update i f g :
    match_diff_header line = None →
    cs !! i = Some f → file_update line f (g f) →
    effect line cs (alter g i cs).

(** A line that exists in the old file, in the new file. *)
Definition old_side (l : Line) : Prop := lineType l = context ∨ lineType l = removed.
Definition new_side (l : Line) : Prop := lineType l = context ∨ lineType l = added.

#[global] Instance old_side_dec l : Decision (old_side l).
Proof. unfold old_side. apply _. Defined.
#[global] Instance new_side_dec l : Decision (new_side l).
Proof. unfold new_side. apply _. Defined.

(** The number of lines of [prior] on each side. *)
Definition count_old (prior : list Line) : Z := Z.of_nat (length (filter old_side prior)).
Definition count_new (prior : list Line) : Z := Z.of_nat (length (filter new_side prior)).

(** The numbers the parser gives the [i]-th line [l] of hunk [h]. *)
Definition numbered_at (h : Hunk) (i : nat) (l : Line) : Prop :=
  oldLineNumber l =
    (if decide (old_side l) then Some (js_add (oldStart h) (count_old (take i (lines h))))
     else None) ∧
  newLineNumber l =
    (if decide (new_side l) then Some (js_add (newStart h) (count_new (take i (lines h))))
     else None).

Definition numbered (h : Hunk) : Prop :=
  ∀ i l, lines h !! i = Some l → numbered_at h i l.

(** The scenario of the specification: one line added after line 10. *)
Definition scenario : string :=
  "diff --git a/a.js b/a.js" +:+ nl +:+ "--- a/a.js" +:+ nl +:+ "+++ b/a.js" +:+ nl +:+
  "@@ -9,3 +9,4 @@ function f()" +:+ nl +:+ " unchanged9" +:+ nl +:+ " unchanged10" +:+ nl +:+
  "+newline" +:+ nl +:+ " unchanged11".

Definition scenario_added : Line := mkLine "newline" added None (Some 11).

Definition scenario_hunk : Hunk :=
  mkHunk 9 3 9 4 "function f()"
    [mkLine "unchanged9" context (Some 9) (Some 9);
     mkLine "unchanged10" context (Some 10) (Some 10);
     scenario_added;
     mkLine "unchanged11" context (Some 11) (Some 12)].

Definition scenario_file : FileChange :=
  mkFileChange "a.js" "a.js" false false false false [scenario_hunk].

(** A line that [parseDiff] leaves without effect: a file header or a hunk
    header that its expression refuses, a path line without a path, or a
    line that starts none of the forms the parser knows. *)
Inductive malformed (line : string) : Prop :=
| bad_file_header :
    startsWith "diff --git" line = true → match_diff_header line = None → malformed line
| bad_hunk_header :
    startsWith "@@" line = true → match_hunk_header line = None → malformed line
| bad_old_path :
    startsWith "---" line = true → match_path "--- " "a/" line = None → malformed line
| bad_new_path :
    startsWith "+++" line = true → match_path "+++ " "b/" line = None → malformed line
| unknown_prefix :
    startsWith "diff --git" line = false →
    startsWith "new file mode" line = false →
    startsWith "deleted file mode" line = false →
    startsWith "similarity index" line = false →
    startsWith "rename from" line = false →
    startsWith "rename to" line = false →
    match_binary line = false →
    startsWith "@@" line = false →
    is_content line = false →
    malformed line.

(** Where the [filePath] of a record comes from: the target of a file
    header, or the path of a [+++] line other than [/dev/null]. *)
Definition path_source (line : string) (path : string) : Prop :=
  (∃ m1 m2, match_diff_header line = Some (m1, m2) ∧ path = trim m2) ∨
  (∃ m1, match_path "+++ " "b/" line = Some m1 ∧ m1 ≠ "/dev/null" ∧ path = trim m1).

(** A text with a hunk header that the parser cannot read, and the same
    text with the line endings of another host. *)
Definition noisy_diff : string :=
  "diff --git a/a.js b/a.js" +:+ nl +:+ "@@ -x +y @@" +:+ nl +:+ "index 1234".
Definition noisy_diff_crlf : string :=
  "diff --git a/a.js b/a.js" +:+ String CR nl +:+ "@@ -x +y @@" +:+ String CR nl +:+ "index 1234".

(** A file header whose two paths are empty. *)
Definition empty_header : string := "diff --git a/ b/".

(** The diff of a file [q.sql] from which the comment line [-- drop me] is
    removed. *)
Definition sql_diff : string :=
  "diff --git a/q.sql b/q.sql" +:+ nl +:+ "--- a/q.sql" +:+ nl +:+ "+++ b/q.sql" +:+ nl +:+
  "@@ -1,2 +1 @@" +:+ nl +:+ " keep" +:+ nl +:+ "--- drop me".

(** The number of lines of kind [t] among [ls], in the hunks of a file,
    and in the hunks of all the files. *)
Definition count_type (t : LineType) (ls : list Line) : nat :=
  length (filter (λ l, lineType l = t) ls).
Definition file_count (t : LineType) (f : FileChange) : nat :=
  sum_list_with (λ h, count_type t (lines h)) (hunks f).
Definition total_count (t : LineType) (changes : list FileChange) : nat :=
  sum_list_with (file_count t) changes.

(** The statistics of one file. *)
Definition stat_of (f : FileChange) : FileStat :=
  mkFileStat (if String.eqb (filePath f) "" then "unknown_file" else filePath f)
             (Z.of_nat (file_count added f)) (Z.of_nat (file_count removed f))
             (isNew f) (isDeleted f) (isBinary f).

(** A diff in which the marker of a binary file follows a hunk of the
    file. *)
Definition binary_after_hunk : string :=
  "diff --git a/x b/x" +:+ nl +:+ "@@ -1 +1,2 @@" +:+ nl +:+ " a" +:+ nl +:+ "+b" +:+ nl +:+
  "Binary files a/x and b/x differ".

(** The addressable lines of a file: the [newLineNumber] of every line of
    every hunk that carries one. *)
Definition addressable (hunks : list Hunk) : list Z :=
  concat (map (λ h, omap newLineNumber (lines h)) hunks).

(** The kinds of the lines of a file that carry the number [n]. *)
Definition kind_at (hunks : list Hunk) (n : Z) (t : LineType) : Prop :=
  ∃ h l, h ∈ hunks ∧ l ∈ lines h ∧ newLineNumber l = Some n ∧ lineType l = t.

(** The argument of the locator for a list of hunks. *)
Definition file_with (hunks : list Hunk) : option FileInfo :=
  Some (mkFileInfo (Some hunks)).

(** A hunk whose only change is a removal. *)
Definition removal_hunk : Hunk :=
  mkHunk 3 1 3 0 "" [mkLine "gone" removed (Some 3) None].

(** The entry of a block for the line [l] of the new file with number
    [n], lines 282 to 286. *)
Definition entry_of (l : Line) (n : Z) : CodeEntry :=
  mkEntry (strip_final_lf (content l)) n
          (bool_decide (lineType l = added) || bool_decide (lineType l = removed)).

(** The first change of a block: the entries before it are no change. *)
Definition first_change (b : Block) (e : CodeEntry) : Prop :=
  ∃ pre post, code b = pre ++ e :: post ∧
              Forall (λ x, isChange x = false) pre ∧ isChange e = true.

(** The bounds of a block as the code sets them: [endLine] is the number
    of the last entry, [startLine] is [contextLines] before the first
    change, and not below 1. *)
Definition delimited (contextLines : Z) (b : Block) : Prop :=
  (∃ e, last (code b) = Some e ∧ endLine b = Some (lineNumber e)) ∧
  (∃ e, first_change b e ∧ startLine b = Some (Z.max 1 (lineNumber e - contextLines))).

(** An emitted block: it is delimited and its entries satisfy [Q]. *)
Definition emitted_ok (contextLines : Z) (Q : CodeEntry → Prop) (b : Block) : Prop :=
  Forall Q (code b) ∧ delimited contextLines b.

(** The block under construction while [inChangeBlock] holds. *)
Definition open_ok (contextLines : Z) (Q : CodeEntry → Prop) (b : Block) : Prop :=
  hasChanges b = true ∧ Forall Q (code b) ∧
  (∃ e, last (code b) = Some e ∧ endLine b = Some (lineNumber e)) ∧
  ∃ pre e post, code b = pre ++ e :: post ∧
                Forall (λ x, isChange x = false) pre ∧ isChange e = true ∧
                startLine b = Some (Z.max 1 (lineNumber e - contextLines)) ∧
                (contextLines ≤ 0 → pre = []).

(** The invariant of the loop over the lines of a hunk. *)
Definition loop_inv (contextLines : Z) (Q : CodeEntry → Prop) (s : LoopState) : Prop :=
  Forall (emitted_ok contextLines Q) (codeBlocks s) ∧
  Forall (λ c, Q (mkEntry c.1 c.2 false)) (contextBuffer s) ∧
  (contextLines ≤ 0 → contextBuffer s = []) ∧
  (if inChangeBlock s then open_ok contextLines Q (currentBlock s)
   else code (currentBlock s) = []).

(** The entries that the lines of a hunk can give satisfy [Q]. *)
Definition lines_give (Q : CodeEntry → Prop) (ls : list Line) : Prop :=
  ∀ l n, l ∈ ls → newLineNumber l = Some n → Q (entry_of l n).

(** Every removed line is without a number in the new file. *)
Definition removed_unnumbered (ls : list Line) : Prop :=
  ∀ l, l ∈ ls → lineType l = removed → newLineNumber l = None.

(** An entry that comes from a line of [changes] that is not removed, and
    from an added line when it is a change. *)
Definition from_new_file (changes : list FileChange) (e : CodeEntry) : Prop :=
  ∃ f h l n, f ∈ changes ∧ h ∈ hunks f ∧ l ∈ lines h ∧
             newLineNumber l = Some n ∧ lineType l ≠ removed ∧ e = entry_of l n ∧
             (isChange e = true → lineType l = added).

(** A hunk without its removed lines. *)
Definition without_removed (h : Hunk) : Hunk :=
  set_lines (filter (λ l, lineType l ≠ removed) (lines h)) h.

(** The diff of a file from which one line is removed, and its hunk. *)
Definition removal_diff : string :=
  "diff --git a/a.js b/a.js" +:+ nl +:+ "@@ -1,2 +1 @@" +:+ nl +:+ " keep" +:+ nl +:+ "-gone".

Definition removal_diff_hunk : Hunk :=
  mkHunk 1 2 1 1 "" [mkLine "keep" context (Some 1) (Some 1);
                     mkLine "gone" removed (Some 2) None].

Definition removal_diff_file : FileChange :=
  mkFileChange "a.js" "a.js" false false false false [removal_diff_hunk].

(** The block of the scenario with three lines of context. *)
Definition scenario_block : Block :=
  mkBlock "a.js" (Some 8) (Some 12)
    [mkEntry "unchanged9" 9 false; mkEntry "unchanged10" 10 false;
     mkEntry "newline" 11 true; mkEntry "unchanged11" 12 false] true.

(** The entries of a map that the loops of lines 377 to 387 maintain: every
    key is the number of a line seen so far, with the kind of such a line. *)
Definition entries_from (seen : list (Hunk * Line)) (m : LineMap) : Prop :=
  (∀ k, is_Some (map_get k m) ↔ ∃ hl, hl ∈ seen ∧ newLineNumber hl.2 = Some k) ∧
  (∀ k v, map_get k m = Some v →
          ∃ hl, hl ∈ seen ∧ newLineNumber hl.2 = Some k ∧ info_type v = lineType hl.2).

(** A string of decimal digits. *)
Fixpoint all_digits (s : string) : bool :=
  match s with
  | EmptyString => true
  | String c r => is_digit c && all_digits r
  end.

(** The four numbers of a hunk header are not negative. *)
Definition header_nonneg (h : Hunk) : Prop :=
  0 ≤ oldStart h ∧ 0 ≤ oldLength h ∧ 0 ≤ newStart h ∧ 0 ≤ newLength h.

(** The four numbers of a hunk header are doubles: rounding leaves them
    as they are. *)
Definition header_doubles (h : Hunk) : Prop :=
  to_double (oldStart h) = oldStart h ∧ to_double (oldLength h) = oldLength h ∧
  to_double (newStart h) = newStart h ∧ to_double (newLength h) = newLength h.

(** The text of an optional length, and the text of the hunk header whose
    groups are [m1] to [m5]. *)
Definition length_text (m : option string) : string :=
  match m with
  | Some d => "," +:+ d
  | None => ""
  end.

Definition header_text (m1 : string) (m2 : option string) (m3 : string) (m4 : option string)
    (m5 : string) : string :=
  "@@ -" +:+ m1 +:+ length_text m2 +:+ " +" +:+ m3 +:+ length_text m4 +:+ " @@" +:+ m5.

(** [line] is a hunk header, and [parseInt] reads [a] from its first group
    of digits and [c] from its third. *)
Definition reads_header (line : string) (a c : Z) : Prop :=
  ∃ m1 m2 m3 m4 m5,
    line = header_text m1 m2 m3 m4 m5 ∧
    m1 ≠ "" ∧ all_digits m1 = true ∧
    m2 ≠ Some "" ∧ all_digits (default "1" m2) = true ∧
    m3 ≠ "" ∧ all_digits m3 = true ∧
    m4 ≠ Some "" ∧ all_digits (default "1" m4) = true ∧
    a = parseInt m1 ∧ c = parseInt m3.

(** A hunk whose two sides start at different lines. *)
Definition offset_diff : string :=
  "diff --git a/a.js b/a.js" +:+ nl +:+ "--- a/a.js" +:+ nl +:+ "+++ b/a.js" +:+ nl +:+
  "@@ -100,1 +7,2 @@" +:+ nl +:+ " keep" +:+ nl +:+ "+more".

Definition offset_hunk : Hunk :=
  mkHunk 100 1 7 2 "" [mkLine "keep" context (Some 100) (Some 7);
                       mkLine "more" added None (Some 8)].

Definition offset_file : FileChange :=
  mkFileChange "a.js" "a.js" false false false false [offset_hunk].

(** A hunk that starts at line [2 ^ 53] of the new file. *)
Definition rounded_diff : string :=
  "diff --git a/a.js b/a.js" +:+ nl +:+ "--- a/a.js" +:+ nl +:+ "+++ b/a.js" +:+ nl +:+
  "@@ -1 +9007199254740992,3 @@" +:+ nl +:+ "+a" +:+ nl +:+ "+b" +:+ nl +:+ "+c".

Definition rounded_hunk : Hunk :=
  mkHunk 1 1 9007199254740992 3 ""
    [mkLine "a" added None (Some 9007199254740992);
     mkLine "b" added None (Some 9007199254740992);
     mkLine "c" added None (Some 9007199254740994)].

Definition rounded_file : FileChange :=
  mkFileChange "a.js" "a.js" false false false false [rounded_hunk].




(** One line added between two unchanged lines, and the block that three
    lines of context give. *)
Definition context_diff : string :=
  "diff --git a/a.js b/a.js" +:+ nl +:+ "--- a/a.js" +:+ nl +:+ "+++ b/a.js" +:+ nl +:+
  "@@ -7,2 +7,3 @@" +:+ nl +:+ " a" +:+ nl +:+ "+b" +:+ nl +:+ " c".

Definition context_block : Block :=
  mkBlock "a.js" (Some 5) (Some 9)
    [mkEntry "a" 7 false; mkEntry "b" 8 true; mkEntry "c" 9 false] true.

(** A state with one file, its hunk under the cursor. *)
Definition scenario_state : ParseState :=
  mkState [scenario_file] (Some 0%nat) (Some (0%nat, 0%nat)).

(** The current file is flagged binary and has no hunk. *)
Definition binary_without_hunks (i : nat) (st : ParseState) : Prop :=
  currentFile st = Some i ∧
  ∃ f, changes st !! i = Some f ∧ isBinary f = true ∧ hunks f = [].

(** The diff of an image. *)
Definition image_diff : string :=
  "diff --git a/img.png b/img.png" +:+ nl +:+ "Binary files a/img.png and b/img.png differ"
  +:+ nl +:+ "@@ -1 +1 @@" +:+ nl +:+ "+x".

(** The sum of a list of numbers. *)
Definition sum_Z (l : list Z) : Z := foldr Z.add 0 l.

(** The path that the statistics show for a file. *)
Definition shown_path (f : FileChange) : string :=
  if String.eqb (filePath f) "" then "unknown_file" else filePath f.

(** The number of a line when the line is added. *)
Definition added_number (l : Line) : option Z :=
  if bool_decide (lineType l = added) then newLineNumber l else None.

(** The hunks of a file object, when it has some. *)
Definition hunks_of (fileInfo : option FileInfo) : list Hunk :=
  match fileInfo with
  | Some info => default [] (info_hunks info)
  | None => []
  end.

(** The numbers of the added lines of a file, in the order of the file. *)
Definition added_numbers (hunks : list Hunk) : list Z :=
  concat (map (λ h, omap added_number (lines h)) hunks).

(** A block of a file that the extractor does not skip: the file has a
    path and is neither deleted nor binary; the block has entries and is
    marked as holding changes. *)
Definition eligible_block (changes : list FileChange) (b : Block) : Prop :=
  hasChanges b = true ∧ code b ≠ [] ∧
  ∃ f, f ∈ changes ∧ block_filePath b = filePath f ∧
       filePath f ≠ "" ∧ isDeleted f = false ∧ isBinary f = false.

(** The entries of the lines of a hunk that exist in the new file, in the
    order of the hunk. *)
Definition numbered_entries (ls : list Line) : list CodeEntry :=
  omap (λ l, match newLineNumber l with
             | Some n => Some (entry_of l n)
             | None => None
             end) ls.

(** [c] is a run of consecutive elements of [es]. *)
Definition run_of {A} (c es : list A) : Prop := ∃ l1 l2, es = l1 ++ c ++ l2.

(** The entry that the extractor makes of an element of [contextBuffer]. *)
Definition buffered (c : string * Z) : CodeEntry := mkEntry c.1 c.2 false.

(** The invariant of the loop over the lines of a hunk that relates the
    block and the buffer to the entries of the lines read so far. *)
Definition run_inv (read : list Line) (s : LoopState) : Prop :=
  if inChangeBlock s then code (currentBlock s) `suffix_of` numbered_entries read
  else code (currentBlock s) = [] ∧
       map buffered (contextBuffer s) `suffix_of` numbered_entries read.

(** A block of an earlier hunk, or a run of the entries of the lines
    [all] of this hunk. *)
Definition earlier_or_run (P : Block → Prop) (all : list Line) (b : Block) : Prop :=
  P b ∨ run_of (code b) (numbered_entries all).

(** The block is a run of the entries of a hunk of [changes]. *)
Definition in_a_hunk (changes : list FileChange) (b : Block) : Prop :=
  ∃ f h, f ∈ changes ∧ h ∈ hunks f ∧ run_of (code b) (numbered_entries (lines h)).

(** The runs of unchanged entries of a block, read from its start: the
    length of the run that ends the entries read so far, and the length of
    the longest run among them. *)
Definition scan_step (acc : nat * nat) (e : CodeEntry) : nat * nat :=
  if isChange e then (0%nat, acc.2) else (S acc.1, Nat.max acc.2 (S acc.1)).

Definition scan_runs (l : list CodeEntry) : nat * nat := fold_left scan_step l (0%nat, 0%nat).

(** The number of unchanged entries at the head of a list. *)
Fixpoint leading_unchanged (l : list CodeEntry) : nat :=
  match l with
  | [] => 0
  | e :: r => if isChange e then 0 else S (leading_unchanged r)
  end.

(** The invariant of the loop over the lines of a hunk that bounds the runs
    of unchanged entries by [contextLines]. *)
Definition bounded_inv (contextLines : Z) (s : LoopState) : Prop :=
  Forall (λ b, Z.of_nat (scan_runs (code b)).2 ≤ contextLines) (codeBlocks s) ∧
  Z.of_nat (length (contextBuffer s)) ≤ contextLines ∧
  (if inChangeBlock s then
     Z.of_nat (scan_runs (code (currentBlock s))).2 ≤ contextLines ∧
     ((scan_runs (code (currentBlock s))).1 = 0%nat ∨
      Z.of_nat (scan_runs (code (currentBlock s))).1 < contextLines)
   else code (currentBlock s) = []).

(** [pat] occurs nowhere in [s]. *)
Fixpoint absent (pat s : string) : bool :=
  negb (startsWith pat s) &&
  match s with
  | EmptyString => true
  | String _ r => absent pat r
  end.

(** * Properties *)

(** The tests of [step] that a line starting with the character [c]
    fails, decided by that character alone. *)
Ltac branches_off c r :=
  change (startsWith "diff --git" (String c r)) with false;
  change (startsWith "new file mode" (String c r)) with false;
  change (startsWith "deleted file mode" (String c r)) with false;
  change (startsWith "similarity index" (String c r)) with false;
  change (startsWith "rename from" (String c r)) with false;
  change (startsWith "rename to" (String c r)) with false;
  change (match_binary (String c r)) with false;
  try change (startsWith "---" (String c r)) with false;
  try change (startsWith "+++" (String c r)) with false;
  try change (startsWith "@@" (String c r)) with false;
  cbv iota; simpl orb; cbv iota.

(** ** Rounding to a double *)

Section Doubles.

Lemma nearest_even_bounds q r half : q ≤ nearest_even q r half ≤ q + 1.
Proof.
  unfold nearest_even. destruct (r <? half); [lia|].
  destruct (half <? r); [lia|]. destruct (Z.even q); lia.
Qed.

Lemma nearest_even_mono q r1 r2 half :
  r1 ≤ r2 → nearest_even q r1 half ≤ nearest_even q r2 half.
Proof.
  intros Hr. unfold nearest_even.
  destruct (Z.ltb_spec r1 half); destruct (Z.ltb_spec r2 half);
    destruct (Z.ltb_spec half r1); destruct (Z.ltb_spec half r2);
    destruct (Z.even q); lia.
Qed.

Lemma to_double_large z : 2 ^ 53 ≤ z → to_double z = overflow (round_at (Z.log2 z - 52) z).
Proof.
  intros Hz. unfold to_double. destruct (Z.ltb_spec z (2 ^ 53)); [lia|done].
Qed.

Lemma to_double_small z : z < 2 ^ 53 → to_double z = z.
Proof. intros Hz. unfold to_double. destruct (Z.ltb_spec z (2 ^ 53)); [done|lia]. Qed.

Lemma exponent_range z : 2 ^ 53 ≤ z →
  1 ≤ Z.log2 z - 52 ∧ 2 ^ (52 + (Z.log2 z - 52)) ≤ z < 2 ^ (53 + (Z.log2 z - 52)).
Proof.
  intros Hz. assert (0 < z) as Hpos by lia.
  pose proof (Z.log2_spec z Hpos) as [Hlo Hhi].
  assert (53 ≤ Z.log2 z) as Hl.
  { change 53 with (Z.log2 (2 ^ 53)). by apply Z.log2_le_mono. }
  split; [lia|]. replace (52 + (Z.log2 z - 52)) with (Z.log2 z) by lia.
  replace (53 + (Z.log2 z - 52)) with (Z.succ (Z.log2 z)) by lia. done.
Qed.

Lemma round_at_bounds e z : 1 ≤ e → 2 ^ (52 + e) ≤ z < 2 ^ (53 + e) →
  ∃ q', round_at e z = q' * 2 ^ e ∧ 2 ^ 52 ≤ q' ≤ 2 ^ 53 ∧ z / 2 ^ e ≤ q' ≤ z / 2 ^ e + 1.
Proof.
  intros He [Hlo Hhi].
  assert (0 < 2 ^ e) as Hp by (apply Z.pow_pos_nonneg; lia).
  assert (2 ^ 52 ≤ z / 2 ^ e) as Hq1.
  { apply Z.div_le_lower_bound; [done|]. rewrite Z.pow_add_r in Hlo by lia. lia. }
  assert (z / 2 ^ e < 2 ^ 53) as Hq2.
  { apply Z.div_lt_upper_bound; [done|]. rewrite Z.pow_add_r in Hhi by lia. lia. }
  exists (nearest_even (z / 2 ^ e) (z mod 2 ^ e) (2 ^ (e - 1))). split; [done|].
  pose proof (nearest_even_bounds (z / 2 ^ e) (z mod 2 ^ e) (2 ^ (e - 1))). lia.
Qed.

Lemma round_at_mono e a b : 1 ≤ e → 0 ≤ a → a ≤ b → round_at e a ≤ round_at e b.
Proof.
  intros He Ha Hab.
  assert (0 < 2 ^ e) as Hp by (apply Z.pow_pos_nonneg; lia).
  pose proof (Z.div_le_mono a b (2 ^ e) Hp Hab) as Hq.
  assert (2 ^ e ≠ 0) as Hnz by lia.
  pose proof (Z.div_mod a (2 ^ e) Hnz) as Hda. pose proof (Z.div_mod b (2 ^ e) Hnz) as Hdb.
  unfold round_at. apply Z.mul_le_mono_nonneg_r; [lia|].
  destruct (Z.eq_dec (a / 2 ^ e) (b / 2 ^ e)) as [Heq|Hne].
  - rewrite Heq. apply nearest_even_mono. rewrite Heq in Hda. lia.
  - pose proof (nearest_even_bounds (a / 2 ^ e) (a mod 2 ^ e) (2 ^ (e - 1))).
    pose proof (nearest_even_bounds (b / 2 ^ e) (b mod 2 ^ e) (2 ^ (e - 1))). lia.
Qed.

Lemma overflow_mono a b : a ≤ b → overflow a ≤ overflow b.
Proof.
  intros Hab. unfold overflow.
  destruct (Z.leb_spec infinity a); destruct (Z.leb_spec infinity b); lia.
Qed.

Lemma pow2_mono a b : 0 ≤ a → a ≤ b → 2 ^ a ≤ 2 ^ b.
Proof. intros. apply Z.pow_le_mono_r; lia. Qed.

Lemma to_double_mono a b : 0 ≤ a → a ≤ b → to_double a ≤ to_double b.
Proof.
  intros Ha Hab.
  destruct (Z.lt_ge_cases b (2 ^ 53)) as [Hb|Hb].
  { rewrite !to_double_small by lia. done. }
  destruct (exponent_range b Hb) as [Heb Hrb].
  destruct (round_at_bounds _ _ Heb Hrb) as (qb & Hcb & Hqb & _).
  assert (2 ^ 53 ≤ round_at (Z.log2 b - 52) b) as Hround_at53.
  { rewrite Hcb. assert (2 ^ 1 ≤ 2 ^ (Z.log2 b - 52)) by (apply pow2_mono; lia).
    change (2 ^ 53) with (2 ^ 52 * 2 ^ 1). apply Z.mul_le_mono_nonneg; lia. }
  destruct (Z.lt_ge_cases a (2 ^ 53)) as [Hsa|Hsa].
  { rewrite (to_double_small a) by done. rewrite (to_double_large b) by done. unfold overflow.
    assert (2 ^ 53 < infinity) by done. destruct (_ <=? _); lia. }
  rewrite !to_double_large by done. apply overflow_mono.
  destruct (exponent_range a Hsa) as [Hea Hra].
  assert (Z.log2 a ≤ Z.log2 b) as Hlog by (by apply Z.log2_le_mono).
  destruct (Z.eq_dec (Z.log2 a) (Z.log2 b)) as [Heq|Hne].
  - rewrite Heq. apply round_at_mono; lia.
  - destruct (round_at_bounds _ _ Hea Hra) as (qa & Hca & Hqa & _).
    rewrite Hca, Hcb.
    assert (qa * 2 ^ (Z.log2 a - 52) ≤ 2 ^ 53 * 2 ^ (Z.log2 a - 52)) as H1.
    { apply Z.mul_le_mono_nonneg_r; [|lia]. apply Z.pow_nonneg. lia. }
    assert (2 ^ 52 * 2 ^ (Z.log2 b - 52) ≤ qb * 2 ^ (Z.log2 b - 52)) as H2.
    { apply Z.mul_le_mono_nonneg_r; [|lia]. apply Z.pow_nonneg. lia. }
    assert (2 ^ 53 * 2 ^ (Z.log2 a - 52) ≤ 2 ^ 52 * 2 ^ (Z.log2 b - 52)) as H3.
    { rewrite <- !Z.pow_add_r by lia. apply pow2_mono; lia. }
    lia.
Qed.

Lemma to_double_nonneg z : 0 ≤ z → 0 ≤ to_double z.
Proof. intros Hz. change 0 with (to_double 0). by apply to_double_mono. Qed.

Lemma to_double_idempotent z : 0 ≤ z → to_double (to_double z) = to_double z.
Proof.
  intros Hz.
  destruct (Z.lt_ge_cases z (2 ^ 53)) as [Hs|Hl].
  { by rewrite !(to_double_small z). }
  rewrite (to_double_large z Hl).
  destruct (exponent_range z Hl) as [He Hr].
  set (e := Z.log2 z - 52) in *.
  destruct (round_at_bounds e z He Hr) as (q & Hc & Hq & _).
  unfold overflow. destruct (Z.leb_spec infinity (round_at e z)) as [Hinf|Hfin]; [by vm_compute|].
  rewrite Hc in *. 
  assert (0 < 2 ^ e) as Hp by (apply Z.pow_pos_nonneg; lia).
  assert (2 ^ 53 ≤ q * 2 ^ e) as Hv53.
  { assert (2 ^ 1 ≤ 2 ^ e) by (apply pow2_mono; lia).
    change (2 ^ 53) with (2 ^ 52 * 2 ^ 1). apply Z.mul_le_mono_nonneg; lia. }
  rewrite to_double_large by done.
  assert (∀ e', 1 ≤ e' → ∀ q', round_at e' (q' * 2 ^ e') = q' * 2 ^ e') as Hexact.
  { intros e' He' q'. unfold round_at, nearest_even.
    assert (0 < 2 ^ e') as Hp' by (apply Z.pow_pos_nonneg; lia).
    rewrite Z.div_mul, Z.mod_mul by lia.
    assert (0 < 2 ^ (e' - 1)) by (apply Z.pow_pos_nonneg; lia).
    destruct (Z.ltb_spec 0 (2 ^ (e' - 1))); [done|lia]. }
  destruct (Z.eq_dec q (2 ^ 53)) as [->|Hne].
  - assert (Z.log2 (2 ^ 53 * 2 ^ e) = 53 + e) as Hlog.
    { rewrite <- Z.pow_add_r by lia. apply Z.log2_pow2. lia. }
    rewrite Hlog. replace (53 + e - 52) with (e + 1) by lia.
    replace (2 ^ 53 * 2 ^ e) with (2 ^ 52 * 2 ^ (e + 1)).
    + rewrite Hexact by lia. unfold overflow.
      destruct (Z.leb_spec infinity (2 ^ 52 * 2 ^ (e + 1))) as [H1|H1]; [|done].
      exfalso. replace (2 ^ 52 * 2 ^ (e + 1)) with (2 ^ 53 * 2 ^ e) in H1; [lia|].
      rewrite Z.pow_add_r by lia. change (2 ^ 53) with (2 ^ 52 * 2 ^ 1). lia.
    + rewrite Z.pow_add_r by lia. change (2 ^ 53) with (2 ^ 52 * 2 ^ 1). lia.
  - assert (Z.log2 (q * 2 ^ e) = 52 + e) as Hlog.
    { apply Z.log2_unique; [lia|]. split.
      - rewrite Z.pow_add_r by lia. apply Z.mul_le_mono_nonneg_r; lia.
      - replace (Z.succ (52 + e)) with (53 + e) by lia. rewrite Z.pow_add_r by lia.
        apply Z.mul_lt_mono_pos_r; lia. }
    rewrite Hlog. replace (52 + e - 52) with e by lia.
    rewrite Hexact by lia. unfold overflow.
    destruct (Z.leb_spec infinity (q * 2 ^ e)); [lia|done].
Qed.

Lemma to_double_exact z : z ≤ 2 ^ 53 → to_double z = z.
Proof.
  intros Hz. destruct (Z.eq_dec z (2 ^ 53)) as [->|]; [by vm_compute|].
  apply to_double_small. lia.
Qed.

Lemma to_double_below z : 0 ≤ z → to_double z < 2 ^ 53 → to_double z = z.
Proof.
  intros Hz Hlt. destruct (Z.lt_ge_cases z (2 ^ 53)) as [Hs|Hl]; [by apply to_double_small|].
  pose proof (to_double_mono (2 ^ 53) z) as Hm. rewrite (to_double_exact (2 ^ 53)) in Hm; lia.
Qed.

Lemma js_add_exact a c : a + c ≤ 2 ^ 53 → js_add a c = a + c.
Proof. apply to_double_exact. Qed.

Lemma js_add_mono a c d : 0 ≤ a + c → c ≤ d → js_add a c ≤ js_add a d.
Proof. intros Ha Hcd. apply to_double_mono; lia. Qed.

Lemma js_add_ge a c : 0 ≤ a → to_double a = a → 0 ≤ c → a ≤ js_add a c.
Proof.
  intros Ha Hd Hc. rewrite <- Hd at 1. apply to_double_mono; lia.
Qed.

End Doubles.

(** ** Well-formed cursors *)

Section Cursors.


Lemma cursors_ok_initial : cursors_ok initial.
Proof. split; intros ? [=]. Qed.

Lemma hunk_cursor_alter (g : FileChange → FileChange) (cs : list FileChange) i (p : nat * nat) :
  (∀ f, length (hunks f) ≤ length (hunks (g f)))%nat →
  (∃ f, cs !! p.1 = Some f ∧ is_Some (hunks f !! p.2)) →
  ∃ f, alter g i cs !! p.1 = Some f ∧ is_Some (hunks f !! p.2).
Proof.
  intros Hg (f & Hf & Hh). destruct (decide (i = p.1)) as [->|Hne].
  - exists (g f). rewrite list_lookup_alter_eq, Hf. split; [done|].
    apply lookup_lt_is_Some. apply lookup_lt_is_Some in Hh. specialize (Hg f). lia.
  - exists f. by rewrite list_lookup_alter_ne.
Qed.

Lemma file_cursor_alter (g : FileChange → FileChange) (cs : list FileChange) i j :
  is_Some (cs !! j) → is_Some (alter g i cs !! j).
Proof. rewrite !lookup_lt_is_Some, length_alter. done. Qed.

Lemma on_currentFile_ok g st :
  (∀ f, hunks (g f) = hunks f) →
  cursors_ok st → ∃ st', on_currentFile g st = Normal st' ∧ cursors_ok st'.
Proof.
  intros Hg Hok. pose proof Hok as [Hf Hh]. unfold on_currentFile, assign_file, file_at.
  destruct (currentFile st) as [i|] eqn:Hi; [|by exists st].
  destruct (Hf i eq_refl) as [f Hfi]. rewrite Hfi. simpl.
  eexists; split; [done|]. split; simpl.
  - intros j Hj. apply file_cursor_alter, Hf. congruence.
  - intros p Hp. apply hunk_cursor_alter; [|by apply Hh].
    intros f'. by rewrite Hg.
Qed.

Lemma step_ok st line :
  cursors_ok st → ∃ st', step st line = Normal st' ∧ cursors_ok st'.
Proof.
  intros Hok. pose proof Hok as [Hf Hh]. unfold step.
  repeat match goal with
  | |- context [on_currentFile ?g st] =>
      lazymatch goal with
      | |- ∃ st', on_currentFile g st = _ ∧ _ => apply on_currentFile_ok; [done|done]
      | _ => fail
      end
  | |- ∃ st', Normal st = Normal st' ∧ _ => by exists st
  | |- ∃ st', (if ?b then _ else _) = _ ∧ _ => destruct b eqn:?
  | |- ∃ st', match ?o with Some _ => _ | None => _ end = _ ∧ _ => destruct o eqn:?
  | |- ∃ st', (let '(_, _) := ?x in _) = _ ∧ _ => destruct x eqn:?
  end.
  - (* a new file *)
    eexists; split; [done|]. split; simpl.
    + intros i [= <-]. rewrite lookup_app_r, Nat.sub_diag; [by eexists|lia].
    + intros q Hq. destruct (Hh q Hq) as (f & Hfq & Hhq).
      exists f. split; [|done]. by rewrite lookup_app_l by (by eapply lookup_lt_Some).
  - (* the remaining branches *)
    destruct (startsWith "@@" line) eqn:Hat; simpl.
    + destruct (currentFile st) as [i|] eqn:Hi; simpl.
      * destruct (Hf i eq_refl) as [f Hfi]. unfold file_at. rewrite Hfi. simpl.
        destruct (isBinary f) eqn:Hb; simpl.
        -- destruct (currentHunk st) as [q|] eqn:Hq; [|by exists st].
           destruct (startsWith " " line || startsWith "+" line || startsWith "-" line);
             [|by exists st].
           destruct (Hh q eq_refl) as (f' & Hf' & [h Hh']).
           unfold hunk_at, file_at. rewrite Hf'. simpl. rewrite Hh'. simpl.
           eexists; split; [done|]. split; simpl.
           ++ intros j Hj. apply file_cursor_alter, Hf. congruence.
           ++ intros q' Hq'. apply hunk_cursor_alter; [|apply Hh; congruence].
              intros f''. simpl. by rewrite length_alter.
        -- destruct (match_hunk_header line) as [m|]; [|by exists st].
           eexists; split; [done|]. split; simpl.
           ++ intros j Hj. apply file_cursor_alter, Hf. congruence.
           ++ intros q [= <-]. simpl. exists (push_hunk (new_hunk m) f).
              rewrite list_lookup_alter_eq, Hfi. split; [done|]. simpl.
              rewrite lookup_app_r, Nat.sub_diag; [by eexists|lia].
      * destruct (currentHunk st) as [q|] eqn:Hq; [|by exists st].
        destruct (startsWith " " line || startsWith "+" line || startsWith "-" line);
             [|by exists st].
        destruct (Hh q eq_refl) as (f' & Hf' & [h Hh']).
        unfold hunk_at, file_at. rewrite Hf'. simpl. rewrite Hh'. simpl.
        eexists; split; [done|]. split; simpl.
        -- intros j Hj. apply file_cursor_alter, Hf. congruence.
        -- intros q' Hq'. apply hunk_cursor_alter; [|apply Hh; congruence].
           intros f''. simpl. by rewrite length_alter.
    + destruct (currentHunk st) as [q|] eqn:Hq; [|by exists st].
      destruct (startsWith " " line || startsWith "+" line || startsWith "-" line);
             [|by exists st].
      destruct (Hh q eq_refl) as (f' & Hf' & [h Hh']).
      unfold hunk_at, file_at. rewrite Hf'. simpl. rewrite Hh'. simpl.
      eexists; split; [done|]. split; simpl.
      * intros j Hj. apply file_cursor_alter, Hf. congruence.
      * intros q' Hq'. apply hunk_cursor_alter; [|apply Hh; congruence].
        intros f''. simpl. by rewrite length_alter.
Qed.

Lemma run_ok lines : ∀ st,
  cursors_ok st → ∃ st', run st lines = Normal st' ∧ cursors_ok st'.
Proof.
  induction lines as [|line rest IH]; intros st Hok; simpl.
  - by exists st.
  - destruct (step_ok st line Hok) as (st1 & -> & Hok1). simpl. by apply IH.
Qed.

End Cursors.

(** ** The effect of one line on the [changes] array *)

Section Effect.


Lemma startsWith_app p q s : startsWith (p +:+ q) s = true → startsWith p s = true.
Proof.
  unfold startsWith. revert s. induction p as [|c p IH]; intros s; simpl.
  - by destruct s.
  - destruct s as [|d s]; [done|]. simpl. destruct (ascii_dec c d); [apply IH|done].
Qed.

Lemma no_header line : startsWith "diff --git" line = false → match_diff_header line = None.
Proof.
  intros H. unfold match_diff_header.
  destruct (startsWith "diff --git a/" line) eqn:E; [|done].
  apply (startsWith_app "diff --git" " a/") in E. congruence.
Qed.

Lemma on_currentFile_effect line g st st' :
  startsWith "diff --git" line = false →
  (∀ f, file_update line f (g f)) →
  on_currentFile g st = Normal st' → effect line (changes st) (changes st').
Proof.
  intros Hd Hg. unfold on_currentFile, assign_file, file_at.
  destruct (currentFile st) as [i|]; [|intros [= <-]; by apply eff_skip, no_header].
  destruct (changes st !! i) as [f|] eqn:Hf; [|done]. intros [= <-]. simpl.
  eapply eff_update; eauto using no_header.
Qed.

Lemma step_effect st line st' :
  step st line = Normal st' → effect line (changes st) (changes st').
Proof.
  unfold step.
  repeat match goal with
  | |- on_currentFile _ _ = _ → _ =>
      apply on_currentFile_effect; [done|intros; by constructor]
  | |- Normal _ = Normal _ → _ => intros [= <-]; by apply eff_skip, no_header
  | |- (if negb (String.eqb ?a ?b) then _ else _) = _ → _ =>
      destruct (String.eqb_spec a b); simpl
  | |- (if ?b then _ else _) = _ → _ => destruct b eqn:?
  | |- match ?o with Some _ => _ | None => _ end = _ → _ => destruct o eqn:?
  | |- (let '(_, _) := ?x in _) = _ → _ => destruct x eqn:?
  end.
  - intros [= <-]. simpl. by apply eff_file.
  - intros [= <-]. by apply eff_skip.
  - intros H.
    assert (Hline : ∀ p,
      currentHunk st = Some p → is_content line = true →
      (h ← hunk_at (changes st) p;
       Normal (mkState
         (alter (λ f, set_hunks (alter (push_line (lineData h line)) p.2 (hunks f)) f)
                p.1 (changes st))
         (currentFile st) (currentHunk st))) = Normal st' →
      effect line (changes st) (changes st')).
    { intros p Hp Hc. unfold hunk_at, file_at.
      destruct (changes st !! p.1) as [f|] eqn:Hf; [|done]. simpl.
      destruct (hunks f !! p.2) as [h|] eqn:Hh; [|done]. simpl.
      intros [= <-]. simpl.
      eapply eff_update with (g := λ f, set_hunks _ f); eauto using no_header.
      by eapply upd_line. }
    assert (Hrest :
      match currentHunk st with
      | Some p =>
          if is_content line then
            h ← hunk_at (changes st) p;
            Normal (mkState
              (alter (λ f, set_hunks (alter (push_line (lineData h line)) p.2 (hunks f)) f)
                     p.1 (changes st))
              (currentFile st) (currentHunk st))
          else Normal st
      | None => Normal st
      end = Normal st' → effect line (changes st) (changes st')).
    { destruct (currentHunk st) as [p|] eqn:Hp;
        [|intros [= <-]; by apply eff_skip, no_header].
      destruct (is_content line) eqn:Hc;
        [|intros [= <-]; by apply eff_skip, no_header].
      by apply Hline. }
    revert H. destruct (startsWith "@@" line) eqn:Hat; simpl; [|exact Hrest].
    destruct (currentFile st) as [i|] eqn:Hi; simpl; [|exact Hrest].
    unfold file_at. destruct (changes st !! i) as [f|] eqn:Hf; simpl; [|done].
    destruct (isBinary f) eqn:Hb; simpl; [exact Hrest|].
    destruct (match_hunk_header line) as [m|] eqn:Hm;
      [|intros [= <-]; by apply eff_skip, no_header].
    intros [= <-]. simpl.
    eapply eff_update; eauto using no_header. by apply upd_hunk.
Qed.

(** A property of file objects that every line maintains holds of every
    record [run] leaves in the array. *)
Lemma run_invariant (P : FileChange → Prop) (lines : list string) :
  (∀ line m1 m2, line ∈ lines → match_diff_header line = Some (m1, m2) →
     P (mkFileChange (trim m2) (trim m1) false false false false [])) →
  (∀ line f f', line ∈ lines → file_update line f f' → P f → P f') →
  ∀ st st', Forall P (changes st) → run st lines = Normal st' →
            Forall P (changes st').
Proof.
  induction lines as [|line rest IH]; intros Hnew Hupd st st' HP; simpl.
  - by intros [= <-].
  - destruct (step st line) as [st1|] eqn:Hstep; [simpl|done].
    apply IH.
    + intros l m1 m2 Hl. apply Hnew. by right.
    + intros l f f' Hl. apply Hupd. by right.
    + apply step_effect in Hstep. inversion Hstep as [Hm Heq|m1 m2 Hm Heq|i f g Hm Hf Hu Heq].
      * done.
      * apply Forall_app. split; [done|]. apply Forall_singleton.
        eapply Hnew; [by left|done].
      * apply Forall_alter; [done|]. intros x Hx Px.
        assert (x = f) as -> by congruence. eapply Hupd; [by left|done|done].
Qed.

End Effect.


Lemma parseDiff_run diffText :
  ∃ st, run initial (lines_of diffText) = Normal st ∧
        parseDiff_body diffText = Normal (changes st) ∧
        parseDiff diffText = changes st.
Proof.
  destruct (run_ok (lines_of diffText) initial cursors_ok_initial) as (st & Hrun & _).
  exists st. unfold parseDiff, parseDiff_body. fold (lines_of diffText).
  rewrite Hrun. done.
Qed.

Lemma parseDiff_invariant (P : FileChange → Prop) (diffText : string) :
  (∀ line m1 m2, line ∈ lines_of diffText → match_diff_header line = Some (m1, m2) →
     P (mkFileChange (trim m2) (trim m1) false false false false [])) →
  (∀ line f f', line ∈ lines_of diffText → file_update line f f' → P f → P f') →
  Forall P (parseDiff diffText).
Proof.
  intros Hnew Hupd. destruct (parseDiff_run diffText) as (st & Hrun & _ & ->).
  eapply run_invariant; [exact Hnew|exact Hupd| |exact Hrun]. constructor.
Qed.

(** ** Line numbers of parsed hunks *)

Section LineNumbers.


Lemma count_lines_spec ls : ∀ a b,
  count_lines ls a b = (a + count_old ls, b + count_new ls).
Proof.
  unfold count_old, count_new.
  induction ls as [|l ls IH]; intros a b; simpl.
  - f_equal; lia.
  - rewrite IH, !filter_cons. destruct l as [c [] o n]; simpl;
      repeat case_decide; unfold old_side, new_side in *; simpl in *;
      try (exfalso; naive_solver); simpl; f_equal; lia.
Qed.

Lemma lineData_numbered h line : numbered_at (push_line (lineData h line) h) (length (lines h)) (lineData h line).
Proof.
  unfold numbered_at, lineData. rewrite count_lines_spec. simpl.
  rewrite take_app_length.
  destruct (getLineType line); simpl; repeat case_decide;
    unfold old_side, new_side in *; simpl in *;
    try (exfalso; naive_solver); split; f_equal; lia.
Qed.

Lemma push_line_numbered h line : numbered h → numbered (push_line (lineData h line) h).
Proof.
  intros Hn i l Hl. simpl in Hl.
  destruct (decide (i < length (lines h))%nat) as [Hlt|Hge].
  - rewrite lookup_app_l in Hl by done.
    destruct (Hn i l Hl) as [Ho Hw]. unfold numbered_at. simpl.
    rewrite take_app_le by lia. done.
  - rewrite lookup_app_r in Hl by lia.
    destruct (i - length (lines h))%nat as [|k] eqn:Hk; [|by destruct k].
    simpl in Hl. injection Hl as <-.
    assert (i = length (lines h)) as -> by lia. apply lineData_numbered.
Qed.

Lemma update_numbered line f f' :
  file_update line f f' → Forall numbered (hunks f) → Forall numbered (hunks f').
Proof.
  intros Hu HP. destruct Hu as [| | | | | |f m _ _|f j h Hj _ _ _]; try done; simpl.
  - apply Forall_app. split; [done|]. apply Forall_singleton.
    destruct m as [[[[m1 m2] m3] m4] m5]. intros i l Hl. by destruct i.
  - apply Forall_alter; [done|]. intros x Hx. assert (x = h) as -> by congruence.
    apply push_line_numbered.
Qed.

Lemma parseDiff_numbered diffText :
  Forall (λ f, Forall numbered (hunks f)) (parseDiff diffText).
Proof.
  apply parseDiff_invariant.
  - intros. constructor.
  - intros line f f' _. apply update_numbered.
Qed.

End LineNumbers.


(** ** The numbers of a hunk header *)

Section HeaderNumbers.

Lemma startsWith_split p s :
  startsWith p s = true → s = p +:+ substring_from (String.length p) s.
Proof.
  unfold startsWith. revert s. induction p as [|c p IH]; intros s; simpl.
  - by destruct s.
  - destruct s as [|d s]; [done|]. simpl. destruct (ascii_dec c d) as [->|]; [|done].
    intros H. change (String d s = String d (p +:+ substring_from (String.length p) s)).
    f_equal. by apply IH.
Qed.

Lemma span_digits_app s : (span_digits s).1 +:+ (span_digits s).2 = s.
Proof.
  induction s as [|c r IH]; simpl; [done|].
  destruct (is_digit c); [|done].
  destruct (span_digits r) as [d rest]. simpl in *.
  change (String c (d +:+ rest) = String c r). by rewrite IH.
Qed.

Lemma span_digits_digits s : all_digits (span_digits s).1 = true.
Proof.
  induction s as [|c r IH]; simpl; [done|].
  destruct (is_digit c) eqn:Hc; [|done].
  destruct (span_digits r) as [d rest]. simpl in *. by rewrite Hc.
Qed.

Lemma match_length_digits s : all_digits (default "1" (match_length s).1) = true.
Proof.
  unfold match_length. destruct s as [|c r]; [done|].
  destruct (ascii_dec c ","%char) as [->|Hne].
  - pose proof (span_digits_digits r) as Hd.
    destruct (span_digits r) as [[|d ds] rest]; [done|]. exact Hd.
  - destruct c as [[] [] [] [] [] [] [] []]; done.
Qed.

Lemma match_length_app s : length_text (match_length s).1 +:+ (match_length s).2 = s.
Proof.
  unfold match_length. destruct s as [|c r]; [done|].
  destruct (ascii_dec c ","%char) as [->|Hne].
  - pose proof (span_digits_app r) as Hd.
    destruct (span_digits r) as [[|d ds] rest]; [done|]. simpl in *.
    change (String "," (String d ds +:+ rest) = String "," r). by rewrite Hd.
  - destruct c as [[] [] [] [] [] [] [] []]; done.
Qed.

Lemma match_length_nonempty s : (match_length s).1 ≠ Some "".
Proof.
  unfold match_length. destruct s as [|c r]; [done|].
  destruct (ascii_dec c ","%char) as [->|Hne].
  - destruct (span_digits r) as [[|d ds] rest]; done.
  - destruct c as [[] [] [] [] [] [] [] []]; done.
Qed.

(** What the groups of a hunk header are in its text. *)
Lemma match_hunk_header_text line m1 m2 m3 m4 m5 :
  match_hunk_header line = Some (m1, m2, m3, m4, m5) →
  line = header_text m1 m2 m3 m4 m5 ∧
  m1 ≠ "" ∧ all_digits m1 = true ∧
  m2 ≠ Some "" ∧ all_digits (default "1" m2) = true ∧
  m3 ≠ "" ∧ all_digits m3 = true ∧
  m4 ≠ Some "" ∧ all_digits (default "1" m4) = true.
Proof.
  unfold match_hunk_header. destruct (startsWith "@@ -" line) eqn:E1; [|done].
  apply startsWith_split in E1.
  pose proof (span_digits_digits (substring_from 4 line)) as D1.
  pose proof (span_digits_app (substring_from 4 line)) as A1.
  destruct (span_digits (substring_from 4 line)) as [[|c1 d1] s2]; [done|].
  pose proof (match_length_digits s2) as D2.
  pose proof (match_length_app s2) as A2.
  pose proof (match_length_nonempty s2) as N2.
  destruct (match_length s2) as [g2 s3]. destruct (startsWith " +" s3) eqn:E3; [|done].
  apply startsWith_split in E3.
  pose proof (span_digits_digits (substring_from 2 s3)) as D3.
  pose proof (span_digits_app (substring_from 2 s3)) as A3.
  destruct (span_digits (substring_from 2 s3)) as [[|c3 d3] s5]; [done|].
  pose proof (match_length_digits s5) as D4.
  pose proof (match_length_app s5) as A4.
  pose proof (match_length_nonempty s5) as N4.
  destruct (match_length s5) as [g4 s6]. destruct (startsWith " @@" s6) eqn:E6; [|done].
  apply startsWith_split in E6.
  change (String.length "@@ -") with 4%nat in E1.
  change (String.length " +") with 2%nat in E3.
  change (String.length " @@") with 3%nat in E6.
  cbn [fst snd] in *.
  remember (substring_from 3 s6) as g5 eqn:E5.
  destruct (all_dots g5); [|done]. intros [= <- <- <- <- <-].
  split; [|done].
  unfold header_text. rewrite <- E6, A4, A3, <- E3, A2, A1. exact E1.
Qed.

Lemma parseInt_from_nonneg s : ∀ acc,
  all_digits s = true → 0 ≤ acc → 0 ≤ parseInt_from acc s.
Proof.
  induction s as [|c r IH]; intros acc Hs Hacc; simpl; [done|].
  simpl in Hs. apply andb_prop in Hs as [Hc Hr]. apply IH; [done|].
  unfold is_digit in Hc. apply andb_prop in Hc as [Hlo _].
  apply Nat.leb_le in Hlo. lia.
Qed.

Lemma parseInt_nonneg s : all_digits s = true → 0 ≤ parseInt s.
Proof. intros Hs. by apply to_double_nonneg, parseInt_from_nonneg. Qed.

Lemma parseInt_double s : all_digits s = true → to_double (parseInt s) = parseInt s.
Proof. intros Hs. by apply to_double_idempotent, parseInt_from_nonneg. Qed.

Lemma new_hunk_reads line m :
  match_hunk_header line = Some m →
  reads_header line (oldStart (new_hunk m)) (newStart (new_hunk m)).
Proof.
  destruct m as [[[[m1 m2] m3] m4] m5]. intros Hm.
  apply match_hunk_header_text in Hm as (Ht & ? & ? & ? & ? & ? & ? & ? & ?).
  by exists m1, m2, m3, m4, m5.
Qed.

Lemma new_hunk_nonneg line m : match_hunk_header line = Some m → header_nonneg (new_hunk m).
Proof.
  destruct m as [[[[m1 m2] m3] m4] m5]. intros Hm.
  apply match_hunk_header_text in Hm as (Ht & ? & ? & ? & ? & ? & ? & ? & ?).
  unfold header_nonneg. simpl. repeat split; by apply parseInt_nonneg.
Qed.

Lemma new_hunk_doubles line m : match_hunk_header line = Some m → header_doubles (new_hunk m).
Proof.
  destruct m as [[[[m1 m2] m3] m4] m5]. intros Hm.
  apply match_hunk_header_text in Hm as (Ht & ? & ? & ? & ? & ? & ? & ? & ?).
  unfold header_doubles. simpl. repeat split; by apply parseInt_double.
Qed.

(** A property of the header values of a new hunk holds of every parsed
    hunk. *)
Lemma parseDiff_header_invariant (P : string → Hunk → Prop) diffText :
  (∀ line m, match_hunk_header line = Some m → P line (new_hunk m)) →
  (∀ line h ls, P line h → P line (set_lines ls h)) →
  Forall (λ f, Forall (λ h, ∃ line, line ∈ lines_of diffText ∧ P line h) (hunks f))
         (parseDiff diffText).
Proof.
  intros Hnew Hset. apply parseDiff_invariant.
  - intros. constructor.
  - intros line f f' Hl Hu HP.
    destruct Hu as [| | | | | |f m Hm _|f j h Hj _ _ _]; try done; simpl.
    + apply Forall_app. split; [done|]. apply Forall_singleton.
      exists line. split; [done|]. by apply Hnew.
    + apply Forall_alter; [done|]. intros x _ (l0 & Hl0 & Hx).
      exists l0. split; [done|]. by apply Hset.
Qed.

Lemma parseDiff_headers diffText :
  Forall (λ f, Forall header_nonneg (hunks f)) (parseDiff diffText).
Proof.
  pose proof (parseDiff_header_invariant (λ _, header_nonneg) diffText) as H.
  eapply Forall_impl; [apply H|].
  - intros line m. apply new_hunk_nonneg.
  - by intros line [].
  - intros f Hf. simpl in Hf. eapply Forall_impl; [exact Hf|].
    by intros h (_ & _ & Hh).
Qed.

Lemma parseDiff_header_doubles diffText :
  Forall (λ f, Forall header_doubles (hunks f)) (parseDiff diffText).
Proof.
  pose proof (parseDiff_header_invariant (λ _, header_doubles) diffText) as H.
  eapply Forall_impl; [apply H|].
  - intros line m. apply new_hunk_doubles.
  - by intros line [].
  - intros f Hf. simpl in Hf. eapply Forall_impl; [exact Hf|].
    by intros h (_ & _ & Hh).
Qed.

Lemma parseDiff_reads_header diffText :
  Forall (λ f, Forall (λ h, ∃ line, line ∈ lines_of diffText ∧
                                    reads_header line (oldStart h) (newStart h)) (hunks f))
         (parseDiff diffText).
Proof.
  apply (parseDiff_header_invariant (λ line h, reads_header line (oldStart h) (newStart h))).
  - intros line m. apply new_hunk_reads.
  - by intros line [].
Qed.

End HeaderNumbers.

(** C1, as the code has it: every hunk [parseDiff] returns has the
    [oldStart] and the [newStart] that [parseInt] reads from the first and
    the third group of digits of a line [@@ -a[,b] +c[,d] @@] of the text.
    In the hunk, a context or removed line has for [oldLineNumber] the sum
    of [oldStart] and the number of context and removed lines before it,
    and any other line has none; a context or added line has for
    [newLineNumber] the sum of [newStart] and the number of context and
    added lines before it, and any other line has none. The sums are sums
    of doubles: the integer sum as long as it does not exceed [2 ^ 53]. *)
Theorem parseDiff_line_numbers (diffText : string) (f : FileChange) (h : Hunk) :
  f ∈ parseDiff diffText → h ∈ hunks f →
  (∃ line, line ∈ lines_of diffText ∧ reads_header line (oldStart h) (newStart h)) ∧
  ∀ (i : nat) (l : Line), lines h !! i = Some l →
    let old_before := Z.of_nat (length (filter old_side (take i (lines h)))) in
    let new_before := Z.of_nat (length (filter new_side (take i (lines h)))) in
    oldLineNumber l =
      (if decide (lineType l = context ∨ lineType l = removed)
       then Some (js_add (oldStart h) old_before) else None) ∧
    newLineNumber l =
      (if decide (lineType l = context ∨ lineType l = added)
       then Some (js_add (newStart h) new_before) else None) ∧
    (oldStart h + old_before ≤ 2 ^ 53 →
     js_add (oldStart h) old_before = oldStart h + old_before) ∧
    (newStart h + new_before ≤ 2 ^ 53 →
     js_add (newStart h) new_before = newStart h + new_before).
Proof.
  intros Hf Hh. split.
  - pose proof (parseDiff_reads_header diffText) as HP.
    rewrite Forall_forall in HP. specialize (HP f Hf).
    rewrite Forall_forall in HP. by apply HP.
  - intros i l Hl old_before new_before.
    pose proof (parseDiff_numbered diffText) as HP.
    rewrite Forall_forall in HP. specialize (HP f Hf).
    rewrite Forall_forall in HP. destruct (HP h Hh i l Hl) as [Ho Hn].
    split; [exact Ho|]. split; [exact Hn|]. split; apply js_add_exact.
Qed.

Lemma parseDiff_line_numbers_witness :
  (∃ line, line ∈ lines_of offset_diff ∧
           reads_header line (oldStart offset_hunk) (newStart offset_hunk)) ∧
  ∀ (i : nat) (l : Line), lines offset_hunk !! i = Some l →
    let old_before := Z.of_nat (length (filter old_side (take i (lines offset_hunk)))) in
    let new_before := Z.of_nat (length (filter new_side (take i (lines offset_hunk)))) in
    oldLineNumber l =
      (if decide (lineType l = context ∨ lineType l = removed)
       then Some (js_add (oldStart offset_hunk) old_before) else None) ∧
    newLineNumber l =
      (if decide (lineType l = context ∨ lineType l = added)
       then Some (js_add (newStart offset_hunk) new_before) else None) ∧
    (oldStart offset_hunk + old_before ≤ 2 ^ 53 →
     js_add (oldStart offset_hunk) old_before = oldStart offset_hunk + old_before) ∧
    (newStart offset_hunk + new_before ≤ 2 ^ 53 →
     js_add (newStart offset_hunk) new_before = newStart offset_hunk + new_before).
Proof.
  apply (parseDiff_line_numbers offset_diff offset_file offset_hunk).
  - vm_compute. constructor.
  - vm_compute. constructor.
Defined.

(** C1, as the specification states it with the sums of integers, fails on
    a hunk that starts at line [2 ^ 53] of the new file: its second added
    line is numbered [2 ^ 53] as the first is, not [2 ^ 53 + 1]. *)
Lemma parseDiff_numbers_rounded :
  ¬ (∀ (f : FileChange) (h : Hunk) (i : nat) (l : Line),
       f ∈ parseDiff rounded_diff → h ∈ hunks f → lines h !! i = Some l →
       oldLineNumber l =
         (if decide (lineType l = context ∨ lineType l = removed)
          then Some (oldStart h + Z.of_nat (length (filter old_side (take i (lines h)))))
          else None) ∧
       newLineNumber l =
         (if decide (lineType l = context ∨ lineType l = added)
          then Some (newStart h + Z.of_nat (length (filter new_side (take i (lines h)))))
          else None)).
Proof.
  intros H.
  destruct (H rounded_file rounded_hunk 1%nat
              (mkLine "b" added None (Some 9007199254740992))) as [_ Hn].
  - vm_compute. constructor.
  - vm_compute. constructor.
  - reflexivity.
  - vm_compute in Hn. by injection Hn.
Qed.

(** ** File paths of parsed records *)

Section Paths.

Lemma run_length lines : ∀ st st',
  run st lines = Normal st' →
  length (changes st') =
    (length (changes st) + length (filter (λ line, is_Some (match_diff_header line)) lines))%nat.
Proof.
  induction lines as [|line rest IH]; intros st st'; simpl.
  - intros [= <-]. lia.
  - destruct (step st line) as [st1|] eqn:Hstep; [simpl|done].
    intros Hrun. rewrite (IH _ _ Hrun), filter_cons.
    apply step_effect in Hstep.
    inversion Hstep as [Hm Heq|m1 m2 Hm Heq|i f g Hm Hf Hu Heq]; rewrite Hm.
    + rewrite decide_False by (by intros [? [=]]). done.
    + rewrite decide_True by (by eexists). rewrite length_app. simpl. lia.
    + rewrite decide_False by (by intros [? [=]]). by rewrite length_alter.
Qed.

Lemma parseDiff_path_source diffText :
  Forall (λ f, ∃ line, line ∈ lines_of diffText ∧ path_source line (filePath f))
         (parseDiff diffText).
Proof.
  apply parseDiff_invariant.
  - intros line m1 m2 Hl Hm. exists line. split; [done|]. left. by exists m1, m2.
  - intros line f f' Hl Hu (l0 & Hl0 & Hsrc).
    destruct Hu as [| | | | |f m1 Hm Hne| |]; try (by exists l0).
    exists line. split; [done|]. right. by exists m1.
Qed.

End Paths.

(** C4, as the code has it: [parseDiff] discards no record. It returns one
    record for each line that matches the file header [diff --git a/<old>
    b/<new>], and the [filePath] of a record is the trimmed target path of a
    file header or the trimmed path of a [+++] line other than [/dev/null];
    that path can be empty. *)
Theorem parseDiff_records_and_paths (diffText : string) :
  length (parseDiff diffText) =
    length (filter (λ line, is_Some (match_diff_header line)) (lines_of diffText)) ∧
  ∀ f, f ∈ parseDiff diffText →
       ∃ line, line ∈ lines_of diffText ∧ path_source line (filePath f).
Proof.
  split.
  - destruct (parseDiff_run diffText) as (st & Hrun & _ & ->).
    by rewrite (run_length _ _ _ Hrun).
  - intros f Hf. pose proof (parseDiff_path_source diffText) as HP.
    rewrite Forall_forall in HP. by apply HP.
Qed.

Lemma parseDiff_records_and_paths_witness :
  length (parseDiff scenario) =
    length (filter (λ line, is_Some (match_diff_header line)) (lines_of scenario)) ∧
  ∃ line, line ∈ lines_of scenario ∧ path_source line (filePath scenario_file).
Proof.
  destruct (parseDiff_records_and_paths scenario) as [Hlen Hsrc].
  split; [exact Hlen|]. apply Hsrc. vm_compute. constructor.
Defined.

(** C4, as the specification states it, fails on the header
    [diff --git a/ b/]: the record is kept and its [filePath] is empty. *)
Lemma parseDiff_empty_path :
  ¬ (∀ f, f ∈ parseDiff empty_header → filePath f ≠ "").
Proof.
  intros H.
  apply (H (mkFileChange "" "" false false false false [])); [|reflexivity].
  vm_compute. constructor.
Qed.

(** ** Lines without effect *)

Section Malformed.

Lemma startsWith_cons c p s :
  startsWith (String c p) s = true → ∃ r, s = String c r ∧ startsWith p r = true.
Proof.
  unfold startsWith. destruct s as [|d s]; simpl; [done|].
  destruct (ascii_dec c d) as [->|]; [|done]. intros H. by exists s.
Qed.

Lemma run_app l1 : ∀ l2 st, run st (l1 ++ l2) = st' ← run st l1; run st' l2.
Proof.
  induction l1 as [|line l1 IH]; intros l2 st; simpl; [done|].
  destruct (step st line) as [st1|]; simpl; [apply IH|done].
Qed.

(** What is left of [step] once the file-level branches are passed. *)
Lemma step_hunk_branches st line :
  cursors_ok st →
  (startsWith "@@" line = true → match_hunk_header line = None) →
  is_content line = false →
  (hunk_header ←
     (if startsWith "@@" line then
        match currentFile st with
        | Some i => f ← file_at (changes st) i;
                    Normal (if isBinary f then None else Some (i, f))
        | None => Normal None
        end
      else Normal None);
   match hunk_header with
   | Some (i, f) =>
       match match_hunk_header line with
       | Some m =>
           Normal (mkState (alter (push_hunk (new_hunk m)) i (changes st))
                           (currentFile st)
                           (Some (i, length (hunks f))))
       | None => Normal st
       end
   | None =>
       match currentHunk st with
       | Some p =>
           if startsWith " " line || startsWith "+" line || startsWith "-" line then
             h ← hunk_at (changes st) p;
             Normal (mkState
                       (alter (fun f => set_hunks (alter (push_line (lineData h line)) p.2 (hunks f)) f)
                              p.1 (changes st))
                       (currentFile st) (currentHunk st))
           else Normal st
       | None => Normal st
       end
   end) = Normal st.
Proof.
  intros [Hf _] Hm Hc. unfold is_content in Hc. rewrite Hc.
  assert (Hrest : match currentHunk st with Some _ => Normal st | None => Normal st end
                  = Normal st) by (by destruct (currentHunk st)).
  destruct (startsWith "@@" line) eqn:Hat; simpl; [|exact Hrest].
  destruct (currentFile st) as [i|] eqn:Hi; simpl; [|exact Hrest].
  destruct (Hf i eq_refl) as [f Hfi]. unfold file_at. rewrite Hfi. simpl.
  destruct (isBinary f); simpl; [exact Hrest|]. by rewrite Hm.
Qed.

Lemma malformed_skipped st line :
  cursors_ok st → malformed line → step st line = Normal st.
Proof.
  intros Hok [Hd Hm|Hat Hm|Hp Hm|Hp Hm|H1 H2 H3 H4 H5 H6 H7 H8 H9].
  - unfold step. by rewrite Hd, Hm.
  - pose proof Hat as Hat'.
    apply startsWith_cons in Hat' as (r & -> & _).
    unfold step. branches_off "@"%char r.
    apply step_hunk_branches; done.
  - pose proof Hp as Hp'.
    apply startsWith_cons in Hp' as (r & -> & _).
    unfold step. branches_off "-"%char r. by rewrite Hp, Hm.
  - pose proof Hp as Hp'.
    apply startsWith_cons in Hp' as (r & -> & _).
    unfold step. branches_off "+"%char r. by rewrite Hp, Hm.
  - assert (startsWith "---" line = false) as Hm.
    { destruct (startsWith "---" line) eqn:E; [|done].
      apply (startsWith_app "-" "--") in E. unfold is_content in H9.
      rewrite E in H9. by rewrite orb_true_r in H9. }
    assert (startsWith "+++" line = false) as Hq.
    { destruct (startsWith "+++" line) eqn:E; [|done].
      apply (startsWith_app "+" "++") in E. unfold is_content in H9.
      rewrite E in H9. by rewrite orb_true_r in H9. }
    unfold step. rewrite H1, H2, H3, H4, H5, H6, H7, Hm, Hq. simpl orb. cbv iota.
    apply step_hunk_branches; [done| |done]. congruence.
Qed.

End Malformed.

(** C7: on every input string the body of [parseDiff] ends without an
    exception and [parseDiff] returns its list; carriage returns do not
    count, two texts that differ by carriage returns only give the same
    result; and a malformed line is skipped, the result is that of the text
    without the line. *)
Theorem parseDiff_never_raises (diffText : string) :
  (∃ changes, parseDiff_body diffText = Normal changes ∧ parseDiff diffText = changes) ∧
  (∀ diffText', remove_cr diffText' = remove_cr diffText →
                parseDiff diffText' = parseDiff diffText) ∧
  (∀ before line after,
     lines_of diffText = before ++ line :: after → malformed line →
     ∃ st, run initial (before ++ line :: after) = Normal st ∧
           run initial (before ++ after) = Normal st ∧
           parseDiff diffText = changes st).
Proof.
  split; [|split].
  - destruct (parseDiff_run diffText) as (st & _ & Hbody & Hp). by exists (changes st).
  - intros diffText' Hcr. unfold parseDiff, parseDiff_body. by rewrite Hcr.
  - intros before line after Hlines Hbad.
    destruct (parseDiff_run diffText) as (st & Hrun & _ & Hp).
    rewrite Hlines in Hrun. exists st. split; [done|]. split; [|done].
    rewrite run_app in Hrun |- *.
    destruct (run_ok before initial cursors_ok_initial) as (st1 & Hb & Hok1).
    rewrite Hb in Hrun |- *. simpl in Hrun |- *.
    by rewrite (malformed_skipped st1 line Hok1 Hbad) in Hrun.
Qed.

Lemma parseDiff_never_raises_witness :
  (∃ changes, parseDiff_body noisy_diff = Normal changes ∧ parseDiff noisy_diff = changes) ∧
  parseDiff noisy_diff_crlf = parseDiff noisy_diff ∧
  ∃ st, run initial (["diff --git a/a.js b/a.js"] ++ "@@ -x +y @@" :: ["index 1234"]) = Normal st ∧
        run initial (["diff --git a/a.js b/a.js"] ++ ["index 1234"]) = Normal st ∧
        parseDiff noisy_diff = changes st.
Proof.
  destruct (parseDiff_never_raises noisy_diff) as (H1 & H2 & H3).
  split; [exact H1|]. split.
  - apply H2. vm_compute. reflexivity.
  - apply (H3 ["diff --git a/a.js b/a.js"] "@@ -x +y @@" ["index 1234"]).
    + vm_compute. reflexivity.
    + apply bad_hunk_header; vm_compute; reflexivity.
Defined.

(** ** Content lines *)

Section ContentLines.

(** A line that starts with a space, [+] or [-], but not with [---] or
    [+++], is classified and appended to the hunk under the cursor. *)
Lemma content_line_appended st line p f h :
  currentHunk st = Some p → changes st !! p.1 = Some f → hunks f !! p.2 = Some h →
  is_content line = true →
  startsWith "---" line = false → startsWith "+++" line = false →
  step st line =
    Normal (mkState
              (alter (λ f, set_hunks (alter (push_line (lineData h line)) p.2 (hunks f)) f)
                     p.1 (changes st))
              (currentFile st) (currentHunk st)) ∧
  lineType (lineData h line) = getLineType line.
Proof.
  intros Hp Hf Hh Hc Hm Hq. split.
  - assert (∃ c r, line = String c r ∧ (c = " " ∨ c = "+" ∨ c = "-")%char)
      as (c & r & -> & Hcr).
    { unfold is_content in Hc. apply orb_prop in Hc as [Hc|Hc]; [apply orb_prop in Hc as [Hc|Hc]|];
        apply startsWith_cons in Hc as (r & -> & _); eauto 6. }
    unfold step. rewrite Hm, Hq.
    destruct Hcr as [-> | [-> | ->]];
      [branches_off " "%char r | branches_off "+"%char r | branches_off "-"%char r];
      rewrite Hp; unfold hunk_at, file_at; rewrite Hf; simpl; rewrite Hh; by destruct r.
  - unfold lineData. by destruct (count_lines (lines h) 0 0).
Qed.

(** A line that starts with [---] never reaches the hunk: every hunk is
    left as it is. *)
Lemma dashes_not_appended st line st' :
  startsWith "---" line = true → step st line = Normal st' →
  map hunks (changes st') = map hunks (changes st).
Proof.
  intros Hm. pose proof Hm as Hm'. apply startsWith_cons in Hm' as (r & -> & _).
  unfold step. branches_off "-"%char r. rewrite Hm.
  destruct (match_path "--- " "a/" (String "-" r)) as [m1|]; [|by intros [= <-]].
  destruct (negb (String.eqb m1 "/dev/null")); [|by intros [= <-]].
  unfold on_currentFile, assign_file, file_at.
  destruct (currentFile st) as [i|]; [|by intros [= <-]].
  destruct (changes st !! i) as [f|] eqn:Hf; [|done]. simpl. intros [= <-]. simpl.
  apply list_eq. intros k. rewrite !list_lookup_fmap.
  destruct (decide (i = k)) as [->|Hne].
  - rewrite list_lookup_alter_eq, Hf. done.
  - by rewrite list_lookup_alter_ne.
Qed.

End ContentLines.

(** C2 fails on the diff of [q.sql]: the hunk is open on the current file
    and the removal of the line [-- drop me] starts with [-], yet the branch
    of the [---] path lines takes it. The hunk keeps its single context
    line, and [oldFilePath] becomes the text of the removed line. *)
Theorem parseDiff_dashed_removal :
  parseDiff sql_diff =
    [mkFileChange "q.sql" "drop me" false false false false
       [mkHunk 1 2 1 1 "" [mkLine "keep" context (Some 1) (Some 1)]]].
Proof. vm_compute. reflexivity. Qed.

(** ** Statistics *)

Section Statistics.

Lemma count_lines_fold ls : ∀ c,
  fold_left count_line ls c =
    mkCounters (c_totalAdded c + Z.of_nat (count_type added ls))
               (c_totalRemoved c + Z.of_nat (count_type removed ls))
               (c_fileAdded c + Z.of_nat (count_type added ls))
               (c_fileRemoved c + Z.of_nat (count_type removed ls)).
Proof.
  unfold count_type. induction ls as [|l ls IH]; intros [a r fa fr]; simpl.
  - f_equal; lia.
  - rewrite IH, !filter_cons. unfold count_line.
    destruct (lineType l); simpl; repeat case_decide; try done; simpl; f_equal; lia.
Qed.

Lemma count_hunks_spec hs : ∀ c,
  count_hunks c hs =
    mkCounters (c_totalAdded c + Z.of_nat (sum_list_with (λ h, count_type added (lines h)) hs))
               (c_totalRemoved c + Z.of_nat (sum_list_with (λ h, count_type removed (lines h)) hs))
               (c_fileAdded c + Z.of_nat (sum_list_with (λ h, count_type added (lines h)) hs))
               (c_fileRemoved c + Z.of_nat (sum_list_with (λ h, count_type removed (lines h)) hs)).
Proof.
  unfold count_hunks. induction hs as [|h hs IH]; intros [a r fa fr]; simpl.
  - f_equal; lia.
  - rewrite count_lines_fold, IH. simpl. f_equal; lia.
Qed.

Lemma analyze_fold changes : ∀ a r stats,
  fold_left analyze_change changes (a, r, stats) =
    (a + Z.of_nat (total_count added changes),
     r + Z.of_nat (total_count removed changes),
     stats ++ map stat_of changes).
Proof.
  unfold total_count. induction changes as [|f changes IH]; intros a r stats; simpl.
  - rewrite app_nil_r. repeat f_equal; lia.
  - rewrite IH, count_hunks_spec. simpl.
    unfold stat_of, file_count. rewrite <- app_assoc. simpl.
    rewrite !Nat2Z.inj_add. f_equal. f_equal; lia.
Qed.

Lemma analyzeChanges_spec changes :
  analyzeChanges changes =
    mkAnalysis (Z.of_nat (length changes))
               (Z.of_nat (total_count added changes))
               (Z.of_nat (total_count removed changes))
               (map stat_of changes).
Proof.
  unfold analyzeChanges. case_bool_decide as Hlen.
  - destruct changes; [done|discriminate].
  - by rewrite analyze_fold.
Qed.

Lemma total_count_no_hunks t changes :
  total_count t (filter (λ f, hunks f ≠ []) changes) = total_count t changes.
Proof.
  unfold total_count. induction changes as [|f changes IH]; [done|].
  rewrite filter_cons. case_decide as Hh; simpl; rewrite IH; [done|].
  assert (hunks f = []) as Hnil.
  { destruct (hunks f) as [|h hs]; [done|]. exfalso. naive_solver. }
  unfold file_count. by rewrite Hnil.
Qed.

End Statistics.

(** C8, as the code has it: [totalAdded] and [totalRemoved] are the numbers
    of added and of removed lines in all the hunks of all the files, whatever
    the flags of the files; [fileStats] has, in the order of the input, the
    counts and the flags of each file; the files without hunks, as binary
    files are when their marker precedes every hunk header, add nothing to
    the totals; and the empty list gives zeros and no statistics. *)
Theorem analyzeChanges_totals (changes : list FileChange) :
  totalAdded (analyzeChanges changes) = Z.of_nat (total_count added changes) ∧
  totalRemoved (analyzeChanges changes) = Z.of_nat (total_count removed changes) ∧
  fileStats (analyzeChanges changes) = map stat_of changes ∧
  totalAdded (analyzeChanges (filter (λ f, hunks f ≠ []) changes)) =
    totalAdded (analyzeChanges changes) ∧
  totalRemoved (analyzeChanges (filter (λ f, hunks f ≠ []) changes)) =
    totalRemoved (analyzeChanges changes) ∧
  analyzeChanges [] = mkAnalysis 0 0 0 [].
Proof.
  rewrite !analyzeChanges_spec. simpl. rewrite !total_count_no_hunks. done.
Qed.

(** C8, as the specification states it, fails on a binary file that has a
    hunk: its added line is counted, the totals are not those of the list
    without the binary files. *)
Lemma analyzeChanges_counts_binary :
  ¬ (∀ changes,
       totalAdded (analyzeChanges (filter (λ f, isBinary f = false) changes)) =
       totalAdded (analyzeChanges changes)).
Proof.
  intros H. specialize (H (parseDiff binary_after_hunk)).
  vm_compute in H. discriminate H.
Qed.



(** ** The comment locator *)

Section Locate.

Lemma map_get_keys k m : is_Some (map_get k m) ↔ k ∈ map_keys m.
Proof.
  unfold map_keys. induction m as [|[k' v'] m IH]; simpl.
  - split; [by intros [? [=]]|by intros ?%elem_of_nil].
  - rewrite elem_of_cons. destruct (Z.eqb_spec k k') as [->|Hne].
    + split; [by left|by eexists].
    + rewrite IH. split; [by right|]. by intros [?|?].
Qed.

Lemma map_set_get k v m k' :
  map_get k' (map_set k v m) = if k' =? k then Some v else map_get k' m.
Proof.
  induction m as [|[k0 v0] m IH]; simpl.
  - done.
  - destruct (Z.eqb_spec k k0) as [->|Hne]; simpl.
    + by destruct (Z.eqb_spec k' k0).
    + destruct (Z.eqb_spec k' k0) as [->|Hne'].
      * destruct (Z.eqb_spec k0 k); [congruence|done].
      * apply IH.
Qed.

Lemma add_line_entries h l seen m :
  entries_from seen m → entries_from (seen ++ [(h, l)]) (add_line h m l).
Proof.
  intros [Hk Hv]. unfold add_line. destruct (newLineNumber l) as [n|] eqn:Hn.
  - split.
    + intros k. rewrite map_set_get. destruct (Z.eqb_spec k n) as [->|Hne].
      * split; [|by eexists]. intros _. exists (h, l). split; [|done].
        apply elem_of_app. right. by apply list_elem_of_singleton.
      * rewrite Hk. split.
        -- intros (hl & Hin & Hnum). exists hl. split; [|done]. apply elem_of_app. by left.
        -- intros (hl & Hin & Hnum). apply elem_of_app in Hin as [Hin|Hin]; [by exists hl|].
           apply list_elem_of_singleton in Hin as ->. simpl in Hnum. congruence.
    + intros k v. rewrite map_set_get. destruct (Z.eqb_spec k n) as [->|Hne].
      * intros [= <-]. exists (h, l). split; [|done].
        apply elem_of_app. right. by apply list_elem_of_singleton.
      * intros Hg. destruct (Hv k v Hg) as (hl & Hin & Hnum & Ht).
        exists hl. split; [|done]. apply elem_of_app. by left.
  - split.
    + intros k. rewrite Hk. split.
      * intros (hl & Hin & Hnum). exists hl. split; [|done]. apply elem_of_app. by left.
      * intros (hl & Hin & Hnum). apply elem_of_app in Hin as [Hin|Hin]; [by exists hl|].
        apply list_elem_of_singleton in Hin as ->. simpl in Hnum. congruence.
    + intros k v Hg. destruct (Hv k v Hg) as (hl & Hin & Hnum & Ht).
      exists hl. split; [|done]. apply elem_of_app. by left.
Qed.

Lemma add_lines_entries h ls : ∀ seen m,
  entries_from seen m →
  entries_from (seen ++ map (pair h) ls) (fold_left (add_line h) ls m).
Proof.
  induction ls as [|l ls IH]; intros seen m Hm; simpl.
  - by rewrite app_nil_r.
  - rewrite cons_middle, app_assoc. apply IH. by apply add_line_entries.
Qed.

Lemma build_entries hs : ∀ seen m,
  entries_from seen m →
  entries_from (seen ++ concat (map (λ h, map (pair h) (lines h)) hs))
               (fold_left (λ lineMap hunk, fold_left (add_line hunk) (lines hunk) lineMap) hs m).
Proof.
  induction hs as [|h hs IH]; intros seen m Hm; simpl.
  - by rewrite app_nil_r.
  - rewrite app_assoc. apply IH. by apply add_lines_entries.
Qed.

Lemma elem_of_concat_map {A B} (f : A → list B) (l : list A) (x : B) :
  x ∈ concat (map f l) ↔ ∃ a, a ∈ l ∧ x ∈ f a.
Proof.
  induction l as [|a l IH]; simpl.
  - split; [by intros ?%elem_of_nil|]. by intros (? & ?%elem_of_nil & _).
  - rewrite elem_of_app, IH. split.
    + intros [Hx|(a' & Ha' & Hx)]; [exists a|exists a']; (split; [|done]).
      * by left.
      * by right.
    + intros (a' & [->|Ha']%elem_of_cons & Hx); [by left|]. right. by exists a'.
Qed.

Lemma seen_addressable hs k :
  (∃ hl, hl ∈ concat (map (λ h, map (pair h) (lines h)) hs) ∧ newLineNumber hl.2 = Some k)
  ↔ k ∈ addressable hs.
Proof.
  unfold addressable. rewrite elem_of_concat_map. split.
  - intros ([h l] & Hin & Hnum). simpl in Hnum.
    apply elem_of_concat_map in Hin as (h' & Hh' & Hl).
    apply list_elem_of_fmap in Hl as (l' & [= <- <-] & Hl').
    exists h. split; [done|]. apply list_elem_of_omap. by exists l.
  - intros (h & Hh & Hk).
    apply list_elem_of_omap in Hk as (l & Hl & Hnum).
    exists (h, l). split; [|done].
    apply elem_of_concat_map. exists h. split; [done|].
    apply list_elem_of_fmap. by exists l.
Qed.

Lemma build_lineMap_keys hs k :
  is_Some (map_get k (build_lineMap hs)) ↔ k ∈ addressable hs.
Proof.
  destruct (build_entries hs [] []) as [Hk _].
  { split; [|by intros ? ? [=]]. intros k'. simpl.
    split; [by intros [? [=]]|]. by intros (? & ?%elem_of_nil & _). }
  rewrite <- seen_addressable. apply Hk.
Qed.

Lemma build_lineMap_kind hs k v :
  map_get k (build_lineMap hs) = Some v → kind_at hs k (info_type v).
Proof.
  destruct (build_entries hs [] []) as [_ Hv].
  { split; [|by intros ? ? [=]]. intros k'. simpl.
    split; [by intros [? [=]]|]. by intros (? & ?%elem_of_nil & _). }
  intros Hg. destruct (Hv k v Hg) as ([h l] & Hin & Hnum & Ht). simpl in *.
  apply elem_of_concat_map in Hin as (h' & Hh' & Hl).
  apply list_elem_of_fmap in Hl as (l' & [= <- <-] & Hl').
  by exists h, l.
Qed.

Lemma insert_sorted_elem x l k : k ∈ insert_sorted x l ↔ k = x ∨ k ∈ l.
Proof.
  induction l as [|y l IH]; simpl.
  - rewrite list_elem_of_singleton, elem_of_nil. tauto.
  - destruct (x <=? y); rewrite !elem_of_cons; [done|]. rewrite IH. tauto.
Qed.

Lemma sort_ascending_elem l k : k ∈ sort_ascending l ↔ k ∈ l.
Proof.
  induction l as [|x l IH]; simpl; [done|].
  by rewrite insert_sorted_elem, elem_of_cons, IH.
Qed.

Lemma insert_sorted_sorted x l :
  StronglySorted Z.le l → StronglySorted Z.le (insert_sorted x l).
Proof.
  induction 1 as [|y l Hs IH Hy]; simpl.
  - repeat constructor.
  - destruct (Z.leb_spec x y).
    + constructor; [by constructor|]. constructor; [done|].
      eapply Forall_impl; [exact Hy|]. intros; simpl in *; lia.
    + constructor; [done|]. apply Forall_forall. intros k Hk.
      apply insert_sorted_elem in Hk as [->|Hk]; [lia|].
      rewrite Forall_forall in Hy. by apply Hy.
Qed.

Lemma sort_ascending_sorted l : StronglySorted Z.le (sort_ascending l).
Proof.
  induction l as [|x l IH]; simpl; [constructor|]. by apply insert_sorted_sorted.
Qed.

(** The scan of lines 415 to 421 over an ascending list whose elements are
    not below the candidate [c]: it ends on [c], or on an element that is
    strictly closer; the result is a closest line, the lowest of them. *)
Lemma closest_spec t l : ∀ c,
  StronglySorted Z.le l → Forall (Z.le c) l →
  let x := closest t l c (Z.abs (t - c)) in
  (x = c ∨ x ∈ l ∧ Z.abs (t - x) < Z.abs (t - c)) ∧
  (∀ k, k = c ∨ k ∈ l → Z.abs (t - x) ≤ Z.abs (t - k)) ∧
  (∀ k, k = c ∨ k ∈ l → Z.abs (t - k) = Z.abs (t - x) → x ≤ k).
Proof.
  induction l as [|y l IH]; intros c Hs Hc; simpl.
  - split; [by left|]. split.
    + intros k [->|Hk%elem_of_nil]; [lia|done].
    + intros k [->|Hk%elem_of_nil]; [lia|done].
  - apply StronglySorted_inv in Hs as [Hs Hy].
    apply Forall_cons in Hc as [Hcy Hc].
    destruct (Z.ltb_spec (Z.abs (t - y)) (Z.abs (t - c))) as [Hlt|Hge].
    + destruct (IH y Hs Hy) as (Hx & Hmin & Htie).
      set (x := closest t l y (Z.abs (t - y))) in *.
      split; [|split].
      * right. destruct Hx as [->|[Hx Hd]].
        -- split; [by left|done].
        -- split; [by right|lia].
      * intros k [->|[->|Hk]%elem_of_cons].
        -- specialize (Hmin y (or_introl eq_refl)). lia.
        -- by apply Hmin; left.
        -- by apply Hmin; right.
      * intros k [->|[->|Hk]%elem_of_cons] Hd.
        -- specialize (Hmin y (or_introl eq_refl)). lia.
        -- by apply Htie; [left|].
        -- by apply Htie; [right|].
    + destruct (IH c Hs Hc) as (Hx & Hmin & Htie).
      set (x := closest t l c (Z.abs (t - c))) in *.
      split; [|split].
      * destruct Hx as [->|[Hx Hd]]; [by left|]. right. split; [by right|done].
      * intros k [->|[->|Hk]%elem_of_cons].
        -- by apply Hmin; left.
        -- specialize (Hmin c (or_introl eq_refl)). lia.
        -- by apply Hmin; right.
      * intros k [->|[->|Hk]%elem_of_cons] Hd.
        -- by apply Htie; [left|].
        -- destruct Hx as [->|[Hx Hd']]; [done|]. lia.
        -- by apply Htie; [right|].
Qed.

Lemma available_addressable hs k :
  k ∈ sort_ascending (map_keys (build_lineMap hs)) ↔ k ∈ addressable hs.
Proof. by rewrite sort_ascending_elem, <- map_get_keys, build_lineMap_keys. Qed.

End Locate.

(** C6: when no line of the file carries a [newLineNumber], and when the
    file or its hunk list is missing, the locator ends without an exception
    and returns the target line with [exists] false, no kind and [inDiff]
    false. *)
Theorem findBestLineForComment_no_lines (fileInfo : option FileInfo) (targetLine : Z) :
  (∀ info hunks, fileInfo = Some info → info_hunks info = Some hunks →
                 addressable hunks = []) →
  findBestLineForComment fileInfo targetLine =
    Normal (mkLocated targetLine None false None false None).
Proof.
  intros Hnone. unfold findBestLineForComment.
  destruct fileInfo as [info|]; [|done].
  destruct (info_hunks info) as [hs|] eqn:Hhs; [|done].
  specialize (Hnone info hs eq_refl Hhs).
  assert (map_has targetLine (build_lineMap hs) = false) as ->.
  { unfold map_has. destruct (map_get targetLine (build_lineMap hs)) eqn:Hg; [|done].
    assert (targetLine ∈ addressable hs) as Hin by (apply build_lineMap_keys; by eexists).
    rewrite Hnone in Hin. by apply elem_of_nil in Hin. }
  destruct (sort_ascending (map_keys (build_lineMap hs))) as [|first rest] eqn:Hs; [done|].
  assert (first ∈ addressable hs) as Hin.
  { apply available_addressable. rewrite Hs. by left. }
  rewrite Hnone in Hin. by apply elem_of_nil in Hin.
Qed.

Lemma findBestLineForComment_no_lines_witness :
  findBestLineForComment (file_with [removal_hunk]) 7 =
    Normal (mkLocated 7 None false None false None).
Proof.
  apply findBestLineForComment_no_lines.
  intros info hunks [= <-] [= <-]. reflexivity.
Defined.



(** ** Changed code blocks *)

Section Blocks.

Variable contextLines : Z.
Variable Q : CodeEntry → Prop.

Lemma trailing_context_count backwards : ∀ n c,
  trailing_context contextLines backwards n = Some c → c = Z.max (n + 1) contextLines.
Proof.
  induction backwards as [|e rest IH]; intros n c; simpl; [done|].
  destruct (isChange e); simpl; [done|].
  destruct (Z.leb_spec contextLines (n + 1)).
  - intros [= <-]. lia.
  - intros Hc. apply IH in Hc. lia.
Qed.

Lemma start_block filePath b buffer e :
  code b = [] →
  Forall (λ c, Q (mkEntry c.1 c.2 false)) buffer →
  (contextLines ≤ 0 → buffer = []) →
  Q e → isChange e = true →
  open_ok contextLines Q
    (mkBlock filePath (Some (Z.max 1 (lineNumber e - contextLines))) (Some (lineNumber e))
             ((code b ++ map (λ c, mkEntry c.1 c.2 false) buffer) ++ [e]) true).
Proof.
  intros Hb Hbuf Hk Hq Hc. rewrite Hb. unfold open_ok. simpl.
  split; [done|]. split; [|split].
  - apply Forall_app. split; [|by apply Forall_singleton].
    apply Forall_fmap. eapply Forall_impl; [exact Hbuf|]. done.
  - exists e. by rewrite last_snoc.
  - exists (map (λ c, mkEntry c.1 c.2 false) buffer), e, [].
    split; [done|]. split; [|split; [done|split; [done|]]].
    + apply Forall_fmap, Forall_true. done.
    + intros Hle. by rewrite (Hk Hle).
Qed.

Lemma continue_block b e :
  open_ok contextLines Q b → Q e →
  open_ok contextLines Q
    (mkBlock (block_filePath b) (startLine b) (Some (lineNumber e)) (code b ++ [e])
             (hasChanges b)).
Proof.
  intros (Hh & Hq & _ & pre & e0 & post & Hcode & Hpre & He0 & Hs & Hk) He.
  unfold open_ok. simpl. split; [done|]. split; [|split].
  - apply Forall_app. split; [done|by apply Forall_singleton].
  - exists e. by rewrite last_snoc.
  - exists pre, e0, (post ++ [e]). rewrite Hcode, <- app_assoc. done.
Qed.

Lemma close_block b c :
  open_ok contextLines Q b →
  trailing_context contextLines (rev (code b)) 0 = Some c →
  let b' := trim_block contextLines c b in
  hasChanges b' && bool_decide (0 < length (code b'))%nat = true →
  emitted_ok contextLines Q b'.
Proof.
  intros (Hh & Hq & Hlast & pre & e0 & post & Hcode & Hpre & He0 & Hs & Hk) Hc.
  apply trailing_context_count in Hc. unfold trim_block, emitted_ok, delimited, first_change.
  destruct (Z.ltb_spec (Z.max 0 (Z.of_nat (length (code b)) - c + contextLines))
                       (Z.of_nat (length (code b)))) as [Hlt|Hge]; simpl.
  - (* the block is cut: contextLines is not positive and a change comes first *)
    assert (contextLines ≤ 0) as Hle by lia.
    rewrite (Hk Hle) in Hcode. simpl in Hcode.
    set (t := Z.to_nat (Z.max 0 (Z.of_nat (length (code b)) - c + contextLines))).
    intros Hemit. apply andb_prop in Hemit as [_ Hlen].
    apply bool_decide_eq_true in Hlen. rewrite Hcode in Hlen |- *.
    destruct t as [|t']; [simpl in Hlen; lia|]. simpl.
    split; [|split].
    + rewrite Hcode in Hq. apply Forall_cons in Hq as [Hq0 Hq].
      constructor; [done|]. by apply Forall_take.
    + destruct (last (e0 :: take t' post)) as [e|] eqn:El; [by exists e|].
      by apply last_None in El.
    + exists e0. split; [|done]. exists [], (take t' post). done.
  - intros _. split; [done|]. split; [done|].
    exists e0. split; [|done]. by exists pre, post.
Qed.

Lemma push_buffer (buffer : list (string * Z)) content n :
  Forall (λ c, Q (mkEntry c.1 c.2 false)) buffer →
  (contextLines ≤ 0 → buffer = []) →
  Q (mkEntry content n false) →
  let pushed := buffer ++ [(content, n)] in
  let kept := if contextLines <? Z.of_nat (length pushed) then tail pushed else pushed in
  Forall (λ c, Q (mkEntry c.1 c.2 false)) kept ∧ (contextLines ≤ 0 → kept = []).
Proof.
  intros Hbuf Hk Hq. simpl.
  assert (Forall (λ c, Q (mkEntry c.1 c.2 false)) (buffer ++ [(content, n)])) as Hall.
  { apply Forall_app. split; [done|by apply Forall_singleton]. }
  destruct (Z.ltb_spec contextLines (Z.of_nat (length (buffer ++ [(content, n)])))) as [Hlt|Hge].
  - split.
    + destruct (buffer ++ [(content, n)]) as [|x xs]; [done|]. by apply Forall_cons in Hall as [_ ?].
    + intros Hle. by rewrite (Hk Hle).
  - split; [done|]. intros Hle. rewrite length_app in Hge. simpl in Hge. lia.
Qed.

Lemma end_block filePath b buffer out :
  Forall (emitted_ok contextLines Q) out → open_ok contextLines Q b →
  Forall (λ c, Q (mkEntry c.1 c.2 false)) buffer →
  (contextLines ≤ 0 → buffer = []) →
  loop_inv contextLines Q
    match trailing_context contextLines (rev (code b)) 0 with
    | Some contextCount =>
        let b' := trim_block contextLines contextCount b in
        mkLoop false (empty_block filePath) []
               (if hasChanges b' && bool_decide (0 < length (code b'))%nat
                then out ++ [b'] else out)
    | None => mkLoop true b buffer out
    end.
Proof.
  intros Hout Hb Hbuf Hk.
  destruct (trailing_context contextLines (rev (code b)) 0) as [c|] eqn:Hc.
  - unfold loop_inv. simpl. split; [|done].
    destruct (hasChanges _ && _) eqn:Hemit; [|done].
    apply Forall_app. split; [done|]. apply Forall_singleton.
    by apply close_block.
  - unfold loop_inv. simpl. done.
Qed.

Lemma extract_line_inv filePath s l :
  loop_inv contextLines Q s →
  (∀ n, newLineNumber l = Some n → Q (entry_of l n)) →
  loop_inv contextLines Q (extract_line filePath contextLines s l).
Proof.
  intros Hinv Hl. unfold extract_line.
  destruct (newLineNumber l) as [n|] eqn:Hn; [|done].
  specialize (Hl n eq_refl). unfold entry_of in Hl.
  destruct s as [inb b buffer out]. destruct Hinv as (Hout & Hbuf & Hk & Hcur).
  simpl in Hout, Hbuf, Hk, Hcur.
  destruct (lineType l) eqn:Ht; destruct inb; simpl in *.
  - (* a context line inside a block *)
    apply (end_block filePath
             (mkBlock (block_filePath b) (startLine b) (Some n)
                      (code b ++ [mkEntry (strip_final_lf (content l)) n false])
                      (hasChanges b)) buffer out); [done| |done|done].
    by apply (continue_block b (mkEntry (strip_final_lf (content l)) n false)).
  - (* a context line outside a block *)
    destruct (push_buffer buffer (strip_final_lf (content l)) n Hbuf Hk Hl) as [Hb' Hk'].
    unfold loop_inv. simpl. done.
  - (* an added line inside a block *)
    unfold loop_inv. simpl. repeat (split; [done|]).
    by apply (continue_block b (mkEntry (strip_final_lf (content l)) n true)).
  - (* an added line starts a block *)
    unfold loop_inv. simpl. repeat (split; [done|]).
    by apply (start_block (block_filePath b) b buffer
                (mkEntry (strip_final_lf (content l)) n true)).
  - (* a removed line inside a block *)
    unfold loop_inv. simpl. repeat (split; [done|]).
    by apply (continue_block b (mkEntry (strip_final_lf (content l)) n true)).
  - (* a removed line starts a block *)
    unfold loop_inv. simpl. repeat (split; [done|]).
    by apply (start_block (block_filePath b) b buffer
                (mkEntry (strip_final_lf (content l)) n true)).
Qed.

Lemma extract_lines_inv filePath ls : ∀ s,
  loop_inv contextLines Q s → lines_give Q ls →
  loop_inv contextLines Q (fold_left (extract_line filePath contextLines) ls s).
Proof.
  induction ls as [|l ls IH]; intros s Hinv Hls; simpl; [done|].
  apply IH.
  - apply extract_line_inv; [done|]. intros n. apply Hls. by left.
  - intros l' n Hl'. apply Hls. by right.
Qed.

Lemma extract_hunk_ok filePath emitted h :
  Forall (emitted_ok contextLines Q) emitted → lines_give Q (lines h) →
  Forall (emitted_ok contextLines Q) (extract_hunk filePath contextLines emitted h).
Proof.
  intros Hout Hls. unfold extract_hunk. case_bool_decide; [done|].
  pose proof (extract_lines_inv filePath (lines h)
                (mkLoop false (empty_block filePath) [] emitted)) as Hinv.
  destruct Hinv as (Hout' & _ & _ & Hcur); [by unfold loop_inv|done|].
  destruct (fold_left _ _ _) as [inb b buffer out]. simpl in *.
  destruct inb; simpl; [|done].
  destruct (hasChanges b && _) eqn:Hemit; [|done].
  apply Forall_app. split; [done|]. apply Forall_singleton.
  destruct Hcur as (_ & Hq & Hlast & pre & e & post & Hcode & Hpre & He & Hs & _).
  split; [done|]. split; [done|]. exists e. split; [|done]. by exists pre, post.
Qed.

Lemma extract_change_ok emitted change :
  Forall (emitted_ok contextLines Q) emitted →
  (∀ h, h ∈ hunks change → lines_give Q (lines h)) →
  Forall (emitted_ok contextLines Q) (extract_change contextLines emitted change).
Proof.
  intros Hout Hh. unfold extract_change.
  destruct (String.eqb _ _); [done|]. destruct (_ || _); [done|].
  revert emitted Hout. induction (hunks change) as [|h hs IH]; intros emitted Hout; simpl; [done|].
  apply IH.
  - intros h' Hh'. apply Hh. by right.
  - apply extract_hunk_ok; [done|]. apply Hh. by left.
Qed.

Lemma extract_ok changes :
  (∀ f h, f ∈ changes → h ∈ hunks f → lines_give Q (lines h)) →
  Forall (emitted_ok contextLines Q) (extractChangedCodeWithContext changes contextLines).
Proof.
  intros Hall. unfold extractChangedCodeWithContext. case_bool_decide; [done|].
  assert (∀ emitted, Forall (emitted_ok contextLines Q) emitted →
            Forall (emitted_ok contextLines Q)
                   (fold_left (extract_change contextLines) changes emitted)) as Hfold.
  { clear H. induction changes as [|f fs IH]; intros emitted Hout; simpl; [done|].
    apply IH.
    - intros f' h Hf'. apply Hall. by right.
    - apply extract_change_ok; [done|]. intros h. apply Hall. by left. }
  by apply Hfold.
Qed.

End Blocks.

(** C3 fails on a hunk that adds line 8 between the unchanged lines 7 and
    9, with three lines of context: the one block emitted starts with the
    entry of line 7 and ends with the entry of line 9; its [endLine] is 9,
    the number of its last entry, and its [startLine] is 5, the number of
    the added line less the three lines asked for, where the specification
    has 7, the number of its first entry. *)
Theorem extract_startLine_before_first :
  extractChangedCodeWithContext (parseDiff context_diff) 3 = [context_block] ∧
  head (code context_block) = Some (mkEntry "a" 7 false) ∧
  startLine context_block = Some 5 ∧
  last (code context_block) = Some (mkEntry "c" 9 false) ∧
  endLine context_block = Some 9.
Proof. split; [by vm_compute|done]. Qed.

(** X24: in every block that [extractChangedCodeWithContext] emits,
    [endLine] is the new-file line number of the last entry of the
    block. *)
Theorem extract_endLine_last (changes : list FileChange) (contextLines : Z) (b : Block) :
  b ∈ extractChangedCodeWithContext changes contextLines →
  ∃ e, last (code b) = Some e ∧ endLine b = Some (lineNumber e).
Proof.
  intros Hb.
  pose proof (extract_ok contextLines (λ _, True) changes) as Hall.
  rewrite Forall_forall in Hall.
  by destruct (Hall (λ _ _ _ _ _ _ _ _, I) b Hb) as (_ & Hend & _).
Qed.

Lemma extract_endLine_last_witness :
  ∃ e, last (code context_block) = Some e ∧ endLine context_block = Some (lineNumber e).
Proof.
  apply (extract_endLine_last (parseDiff context_diff) 3). vm_compute. constructor.
Defined.

(** ** Removed lines and changed code blocks *)

Section Removed.

Variable contextLines : Z.

Lemma numbered_removed h : numbered h → removed_unnumbered (lines h).
Proof.
  intros Hn l Hl Ht. apply list_elem_of_lookup in Hl as [i Hi].
  destruct (Hn i l Hi) as [_ Hnew]. rewrite Hnew.
  case_decide as Hside; [|done]. destruct Hside; congruence.
Qed.

Lemma parseDiff_removed diffText f h :
  f ∈ parseDiff diffText → h ∈ hunks f → removed_unnumbered (lines h).
Proof.
  intros Hf Hh. apply numbered_removed.
  pose proof (parseDiff_numbered diffText) as HP.
  rewrite Forall_forall in HP. specialize (HP f Hf).
  rewrite Forall_forall in HP. by apply HP.
Qed.

Lemma skip_unnumbered filePath s l :
  newLineNumber l = None → extract_line filePath contextLines s l = s.
Proof. intros Hn. unfold extract_line. by rewrite Hn. Qed.

Lemma fold_without_removed filePath ls : ∀ s,
  removed_unnumbered ls →
  fold_left (extract_line filePath contextLines) ls s =
  fold_left (extract_line filePath contextLines) (filter (λ l, lineType l ≠ removed) ls) s.
Proof.
  induction ls as [|l ls IH]; intros s Hr; [done|].
  assert (removed_unnumbered ls) as Hr' by (intros l' Hl'; apply Hr; by right).
  rewrite filter_cons. simpl. case_decide as Ht; simpl.
  - by apply IH.
  - rewrite skip_unnumbered; [by apply IH|]. apply Hr; [by left|].
    by destruct (lineType l).
Qed.

Lemma fold_no_change filePath ls : ∀ s,
  inChangeBlock s = false →
  (∀ l n, l ∈ ls → newLineNumber l = Some n → lineType l = context) →
  let s' := fold_left (extract_line filePath contextLines) ls s in
  inChangeBlock s' = false ∧ codeBlocks s' = codeBlocks s.
Proof.
  induction ls as [|l ls IH]; intros s Hin Hctx; simpl; [done|].
  assert (inChangeBlock (extract_line filePath contextLines s l) = false ∧
          codeBlocks (extract_line filePath contextLines s l) = codeBlocks s) as [Hin' Hout'].
  { unfold extract_line. destruct (newLineNumber l) as [n|] eqn:Hn; [|done].
    rewrite (Hctx l n) by (done || by left).
    destruct s as [inb b buffer out]. simpl in Hin. subst inb. simpl. done. }
  destruct (IH (extract_line filePath contextLines s l) Hin') as [Hin'' Hout''].
  { intros l' n Hl'. apply Hctx. by right. }
  split; [done|]. by rewrite Hout''.
Qed.

Lemma extract_hunk_without_removed filePath emitted h :
  removed_unnumbered (lines h) →
  extract_hunk filePath contextLines emitted h =
  extract_hunk filePath contextLines emitted (without_removed h).
Proof.
  intros Hr. unfold extract_hunk, without_removed. simpl.
  rewrite (fold_without_removed filePath (lines h)) by done.
  destruct (lines h) as [|l ls]; [done|].
  destruct (filter (λ l, lineType l ≠ removed) (l :: ls)); done.
Qed.

Lemma extract_hunk_no_added filePath emitted h :
  removed_unnumbered (lines h) → (∀ l, l ∈ lines h → lineType l ≠ added) →
  extract_hunk filePath contextLines emitted h = emitted.
Proof.
  intros Hr Hna. unfold extract_hunk. case_bool_decide; [done|].
  destruct (fold_no_change filePath (lines h)
              (mkLoop false (empty_block filePath) [] emitted)) as [Hin Hout]; [done| |].
  - intros l n Hl Hn. specialize (Hr l Hl). specialize (Hna l Hl).
    destruct (lineType l); [done|done|]. rewrite Hr in Hn; done.
  - rewrite Hin. simpl. exact Hout.
Qed.

Lemma parseDiff_lines_give diffText f h :
  f ∈ parseDiff diffText → h ∈ hunks f →
  lines_give (from_new_file (parseDiff diffText)) (lines h).
Proof.
  intros Hf Hh l n Hl Hn.
  assert (lineType l ≠ removed) as Ht.
  { intros Ht. rewrite (parseDiff_removed diffText f h Hf Hh l Hl Ht) in Hn. done. }
  exists f, h, l, n. repeat (split; [done|]).
  unfold entry_of. simpl. destruct (lineType l); done.
Qed.

End Removed.

(** C9: on the result of [parseDiff], every emitted block has a first
    change, and that entry comes from an added line; every entry of a block
    comes from a line that is not removed. A removed line carries no
    [newLineNumber], the blocks of a hunk are those of the hunk without its
    removed lines, and a hunk without added lines emits no block. *)
Theorem extract_blocks_start_with_added (diffText : string) (contextLines : Z) :
  (∀ b, b ∈ extractChangedCodeWithContext (parseDiff diffText) contextLines →
        (∃ e, first_change b e ∧ from_new_file (parseDiff diffText) e) ∧
        (∀ e, e ∈ code b → from_new_file (parseDiff diffText) e)) ∧
  (∀ f h, f ∈ parseDiff diffText → h ∈ hunks f →
          removed_unnumbered (lines h) ∧
          (∀ emitted, extract_hunk (filePath f) contextLines emitted h =
                      extract_hunk (filePath f) contextLines emitted (without_removed h)) ∧
          ((∀ l, l ∈ lines h → lineType l ≠ added) →
           ∀ emitted, extract_hunk (filePath f) contextLines emitted h = emitted)).
Proof.
  split.
  - intros b Hb.
    pose proof (extract_ok contextLines (from_new_file (parseDiff diffText))
                  (parseDiff diffText)) as Hall.
    rewrite Forall_forall in Hall.
    destruct (Hall (λ f h, parseDiff_lines_give diffText f h) b Hb)
      as (Hq & _ & e & Hfirst & _).
    rewrite Forall_forall in Hq. split; [|exact Hq].
    exists e. split; [done|]. apply Hq.
    destruct Hfirst as (pre & post & -> & _). apply elem_of_app. right. by left.
  - intros f h Hf Hh.
    pose proof (parseDiff_removed diffText f h Hf Hh) as Hr.
    split; [done|]. split.
    + intros emitted. by apply extract_hunk_without_removed.
    + intros Hna emitted. by apply extract_hunk_no_added.
Qed.

Lemma extract_blocks_start_with_added_witness :
  ((∃ e, first_change scenario_block e ∧ from_new_file (parseDiff scenario) e) ∧
   (∀ e, e ∈ code scenario_block → from_new_file (parseDiff scenario) e)) ∧
  ∀ emitted, extract_hunk (filePath removal_diff_file) 3 emitted removal_diff_hunk = emitted.
Proof.
  split.
  - destruct (extract_blocks_start_with_added scenario 3) as [Hblocks _].
    apply Hblocks. vm_compute. constructor.
  - destruct (extract_blocks_start_with_added removal_diff 3) as [_ Hhunks].
    destruct (Hhunks removal_diff_file removal_diff_hunk) as (_ & _ & Hnone).
    + vm_compute. constructor.
    + vm_compute. constructor.
    + apply Hnone. intros l Hl.
      repeat (apply elem_of_cons in Hl as [->|Hl]; [discriminate|]).
      by apply elem_of_nil in Hl.
Defined.

(** * Further properties of the parser *)

Section Increasing.

Lemma filter_take_le {A} (P : A → Prop) `{∀ x, Decision (P x)} (ls : list A) (a : nat) :
  (length (filter P (take a ls)) ≤ length (filter P ls))%nat.
Proof.
  rewrite <- (take_drop a ls) at 2. rewrite filter_app, length_app. lia.
Qed.

Lemma filter_take_mono {A} (P : A → Prop) `{∀ x, Decision (P x)} (ls : list A) (a b : nat) :
  (a ≤ b)%nat → (length (filter P (take a ls)) ≤ length (filter P (take b ls)))%nat.
Proof.
  intros Hab. replace (take a ls) with (take a (take b ls)).
  - apply filter_take_le.
  - rewrite take_take. f_equal. lia.
Qed.

Lemma filter_take_lt {A} (P : A → Prop) `{∀ x, Decision (P x)} (ls : list A) (i j : nat) x :
  ls !! i = Some x → P x → (i < j)%nat →
  (length (filter P (take i ls)) < length (filter P (take j ls)))%nat.
Proof.
  intros Hi Hx Hij.
  pose proof (filter_take_mono P ls (S i) j Hij) as Hmono.
  rewrite (take_S_r ls i x Hi), filter_app, length_app in Hmono.
  rewrite filter_cons, decide_True in Hmono by done. simpl in Hmono. lia.
Qed.

Lemma js_add_increasing a c d :
  0 ≤ a → 0 ≤ c → c < d →
  js_add a c ≤ js_add a d ∧ (js_add a c < 2 ^ 53 → js_add a c < js_add a d).
Proof.
  intros Ha Hc Hcd. split; [apply js_add_mono; lia|]. intros Hlt.
  assert (js_add a c = a + c) as Hexact by (apply to_double_below; [lia|done]).
  rewrite Hexact in *.
  pose proof (js_add_mono a (c + 1) d) as Hm.
  rewrite (js_add_exact a (c + 1)) in Hm by lia. lia.
Qed.

Lemma numbered_increasing h i j li lj :
  numbered h → header_nonneg h → (i < j)%nat →
  lines h !! i = Some li → lines h !! j = Some lj →
  (∀ ni nj, newLineNumber li = Some ni → newLineNumber lj = Some nj →
            ni ≤ nj ∧ (ni < 2 ^ 53 → ni < nj)) ∧
  (∀ oi oj, oldLineNumber li = Some oi → oldLineNumber lj = Some oj →
            oi ≤ oj ∧ (oi < 2 ^ 53 → oi < oj)).
Proof.
  intros Hn (Hos & _ & Hns & _) Hij Hi Hj.
  destruct (Hn i li Hi) as [Hoi Hni]. destruct (Hn j lj Hj) as [Hoj Hnj].
  unfold count_old, count_new in *. split.
  - intros ni nj Hi' Hj'. rewrite Hi' in Hni. rewrite Hj' in Hnj.
    destruct (decide (new_side li)) as [Hs|]; [|done].
    destruct (decide (new_side lj)); [|done].
    injection Hni as ->. injection Hnj as ->.
    pose proof (filter_take_lt new_side (lines h) i j li Hi Hs Hij).
    apply js_add_increasing; lia.
  - intros oi oj Hi' Hj'. rewrite Hi' in Hoi. rewrite Hj' in Hoj.
    destruct (decide (old_side li)) as [Hs|]; [|done].
    destruct (decide (old_side lj)); [|done].
    injection Hoi as ->. injection Hoj as ->.
    pose proof (filter_take_lt old_side (lines h) i j li Hi Hs Hij).
    apply js_add_increasing; lia.
Qed.

End Increasing.

(** X1: within every parsed hunk the new-file numbers of the lines that
    carry one never decrease with the position of the line, and a number
    below [2 ^ 53] is strictly below the numbers of the lines after it; so
    it is of the old-file numbers. *)
Theorem parseDiff_numbers_increase (diffText : string) (f : FileChange) (h : Hunk)
    (i j : nat) (li lj : Line) :
  f ∈ parseDiff diffText → h ∈ hunks f → (i < j)%nat →
  lines h !! i = Some li → lines h !! j = Some lj →
  (∀ ni nj, newLineNumber li = Some ni → newLineNumber lj = Some nj →
            ni ≤ nj ∧ (ni < 2 ^ 53 → ni < nj)) ∧
  (∀ oi oj, oldLineNumber li = Some oi → oldLineNumber lj = Some oj →
            oi ≤ oj ∧ (oi < 2 ^ 53 → oi < oj)).
Proof.
  intros Hf Hh. apply numbered_increasing.
  - pose proof (parseDiff_numbered diffText) as HP.
    rewrite Forall_forall in HP. specialize (HP f Hf).
    rewrite Forall_forall in HP. by apply HP.
  - pose proof (parseDiff_headers diffText) as HP.
    rewrite Forall_forall in HP. specialize (HP f Hf).
    rewrite Forall_forall in HP. by apply HP.
Qed.

Lemma parseDiff_numbers_increase_witness :
  (∀ ni nj, newLineNumber (mkLine "unchanged10" context (Some 10) (Some 10)) = Some ni →
            newLineNumber scenario_added = Some nj → ni ≤ nj ∧ (ni < 2 ^ 53 → ni < nj)) ∧
  (∀ oi oj, oldLineNumber (mkLine "unchanged10" context (Some 10) (Some 10)) = Some oi →
            oldLineNumber scenario_added = Some oj → oi ≤ oj ∧ (oi < 2 ^ 53 → oi < oj)).
Proof.
  apply (parseDiff_numbers_increase scenario scenario_file scenario_hunk 1 2).
  - vm_compute. constructor.
  - vm_compute. constructor.
  - lia.
  - reflexivity.
  - reflexivity.
Defined.

(** X2: [parseDiff] returns the empty list exactly when no line of the
    text matches the file header [diff --git a/<old> b/<new>]; the [---],
    [+++] and [@@] lines of a diff without such a header create nothing. *)
Theorem parseDiff_empty_iff_no_header (diffText : string) :
  parseDiff diffText = [] ↔
  Forall (λ line, match_diff_header line = None) (lines_of diffText).
Proof.
  destruct (parseDiff_run diffText) as (st & Hrun & _ & ->).
  apply run_length in Hrun. simpl in Hrun.
  rewrite <- length_zero_iff_nil, Hrun, length_zero_iff_nil. split.
  - intros Hnil. apply Forall_forall. intros line Hline.
    destruct (match_diff_header line) as [m|] eqn:Hm; [|done].
    assert (line ∈ filter (λ line, is_Some (match_diff_header line)) (lines_of diffText)) as Hin.
    { apply list_elem_of_filter. split; [by eexists|done]. }
    rewrite Hnil in Hin. by apply elem_of_nil in Hin.
  - intros Hall. clear Hrun. induction Hall as [|line ls Hm _ IH]; [done|].
    rewrite filter_cons, Hm. rewrite decide_False by (by intros [? [=]]). exact IH.
Qed.

Section Contents.

Lemma lines_of_all_dots diffText :
  Forall (λ line, all_dots line = true) (lines_of diffText).
Proof.
  unfold lines_of. induction diffText as [|c r IH]; simpl.
  - by repeat constructor.
  - destruct (Ascii.eqb c CR) eqn:Hcr; [exact IH|]. simpl.
    destruct (Ascii.eqb c LF) eqn:Hlf; [by constructor|].
    destruct (split_lf (remove_cr r)) as [|l ls].
    + apply Forall_singleton. simpl. unfold is_line_terminator. by rewrite Hlf, Hcr.
    + apply Forall_cons in IH as [Hl Hls]. constructor; [|done].
      simpl. unfold is_line_terminator. by rewrite Hlf, Hcr.
Qed.

Lemma substring_from_all_dots n : ∀ s,
  all_dots s = true → all_dots (substring_from n s) = true.
Proof.
  induction n as [|n IH]; intros s Hs; simpl; [done|].
  destruct s as [|c r]; [done|]. apply IH. simpl in Hs. by apply andb_prop in Hs as [_ ?].
Qed.

Lemma strip_final_lf_all_dots s : all_dots s = true → strip_final_lf s = s.
Proof.
  induction s as [|c r IH]; simpl; [done|]. intros Hs.
  apply andb_prop in Hs as [Hc Hr]. destruct r as [|d r'].
  - unfold is_line_terminator in Hc. destruct (Ascii.eqb c LF); [done|done].
  - f_equal. by apply IH.
Qed.

Lemma lineData_content h line : content (lineData h line) = substring_from 1 line.
Proof. unfold lineData. by destruct (count_lines (lines h) 0 0). Qed.

Lemma parseDiff_contents diffText :
  Forall (λ f, Forall (λ h, Forall (λ l, all_dots (content l) = true) (lines h)) (hunks f))
         (parseDiff diffText).
Proof.
  apply parseDiff_invariant.
  - intros. constructor.
  - intros line f f' Hline Hu HP.
    destruct Hu as [| | | | | |f m _ _|f j h Hj _ _ _]; try done; simpl.
    + apply Forall_app. split; [done|]. apply Forall_singleton.
      destruct m as [[[[m1 m2] m3] m4] m5]. constructor.
    + apply Forall_alter; [done|]. intros x Hx Hlines. simpl.
      apply Forall_app. split; [done|]. apply Forall_singleton.
      rewrite lineData_content. apply substring_from_all_dots.
      pose proof (lines_of_all_dots diffText) as Hall.
      rewrite Forall_forall in Hall. by apply Hall.
Qed.

End Contents.

(** X3: the content of a parsed line holds no line feed and no carriage
    return, so the removal of a final line feed by the context extractor
    leaves it as it is. *)
Theorem parseDiff_content_single_line (diffText : string) (f : FileChange) (h : Hunk)
    (l : Line) :
  f ∈ parseDiff diffText → h ∈ hunks f → l ∈ lines h →
  all_dots (content l) = true ∧ strip_final_lf (content l) = content l.
Proof.
  intros Hf Hh Hl. pose proof (parseDiff_contents diffText) as HP.
  rewrite Forall_forall in HP. specialize (HP f Hf).
  rewrite Forall_forall in HP. specialize (HP h Hh).
  rewrite Forall_forall in HP. specialize (HP l Hl).
  split; [done|]. by apply strip_final_lf_all_dots.
Qed.

Lemma parseDiff_content_single_line_witness :
  all_dots (content scenario_added) = true ∧
  strip_final_lf (content scenario_added) = content scenario_added.
Proof.
  apply (parseDiff_content_single_line scenario scenario_file scenario_hunk).
  - vm_compute. constructor.
  - vm_compute. constructor.
  - vm_compute. do 2 right. left.
Defined.

(** X5: the start and length values of every parsed hunk are not negative,
    and no line of the hunk has a number below the start value of its
    side. *)
Theorem parseDiff_numbers_from_start (diffText : string) (f : FileChange) (h : Hunk) :
  f ∈ parseDiff diffText → h ∈ hunks f →
  (0 ≤ oldStart h ∧ 0 ≤ oldLength h ∧ 0 ≤ newStart h ∧ 0 ≤ newLength h) ∧
  ∀ l, l ∈ lines h →
       (∀ n, newLineNumber l = Some n → newStart h ≤ n) ∧
       (∀ n, oldLineNumber l = Some n → oldStart h ≤ n).
Proof.
  intros Hf Hh. split.
  - pose proof (parseDiff_headers diffText) as HP.
    rewrite Forall_forall in HP. specialize (HP f Hf).
    rewrite Forall_forall in HP. by apply HP.
  - intros l Hl. apply list_elem_of_lookup in Hl as [i Hi].
    pose proof (parseDiff_numbered diffText) as HP.
    rewrite Forall_forall in HP. specialize (HP f Hf).
    rewrite Forall_forall in HP. destruct (HP h Hh i l Hi) as [Ho Hn].
    pose proof (parseDiff_headers diffText) as HN.
    rewrite Forall_forall in HN. specialize (HN f Hf).
    rewrite Forall_forall in HN. destruct (HN h Hh) as (Hos & _ & Hns & _).
    pose proof (parseDiff_header_doubles diffText) as HD.
    rewrite Forall_forall in HD. specialize (HD f Hf).
    rewrite Forall_forall in HD. destruct (HD h Hh) as (Hod & _ & Hnd & _).
    unfold count_old, count_new in *. split.
    + intros n Hnum. rewrite Hnum in Hn.
      destruct (decide (new_side l)); [|done]. injection Hn as ->.
      apply js_add_ge; [done|done|lia].
    + intros n Hnum. rewrite Hnum in Ho.
      destruct (decide (old_side l)); [|done]. injection Ho as ->.
      apply js_add_ge; [done|done|lia].
Qed.

Lemma parseDiff_numbers_from_start_witness :
  (0 ≤ oldStart scenario_hunk ∧ 0 ≤ oldLength scenario_hunk ∧
   0 ≤ newStart scenario_hunk ∧ 0 ≤ newLength scenario_hunk) ∧
  ∀ l, l ∈ lines scenario_hunk →
       (∀ n, newLineNumber l = Some n → newStart scenario_hunk ≤ n) ∧
       (∀ n, oldLineNumber l = Some n → oldStart scenario_hunk ≤ n).
Proof.
  apply (parseDiff_numbers_from_start scenario scenario_file scenario_hunk).
  - vm_compute. constructor.
  - vm_compute. constructor.
Defined.



(** X4: the hunk cursor survives a file header. From a state whose hunk
    cursor designates a hunk, a file header followed by a content line
    creates the new file record without hunks and appends the line to the
    hunk of the earlier file. *)
Theorem hunk_cursor_survives_header (st : ParseState) (header line m1 m2 : string)
    (p : nat * nat) (f : FileChange) (h : Hunk) :
  currentHunk st = Some p → changes st !! p.1 = Some f → hunks f !! p.2 = Some h →
  match_diff_header header = Some (m1, m2) →
  is_content line = true → startsWith "---" line = false → startsWith "+++" line = false →
  run st [header; line] =
    Normal (mkState
              (alter (λ f, set_hunks (alter (push_line (lineData h line)) p.2 (hunks f)) f) p.1
                     (changes st ++ [mkFileChange (trim m2) (trim m1) false false false false []]))
              (Some (length (changes st))) (Some p)).
Proof.
  intros Hp Hf Hh Hm Hc Hd Hq. simpl.
  assert (startsWith "diff --git" header = true) as Hs.
  { destruct (startsWith "diff --git" header) eqn:E; [done|].
    apply no_header in E. congruence. }
  assert (step st header =
          Normal (mkState (changes st ++ [mkFileChange (trim m2) (trim m1) false false false false []])
                          (Some (length (changes st))) (currentHunk st))) as ->.
  { unfold step. by rewrite Hs, Hm. }
  simpl.
  destruct (content_line_appended
              (mkState (changes st ++ [mkFileChange (trim m2) (trim m1) false false false false []])
                       (Some (length (changes st))) (currentHunk st))
              line p f h) as [Hstep _]; try done.
  - simpl. rewrite lookup_app_l; [done|]. by eapply lookup_lt_Some.
  - rewrite Hstep. simpl. by rewrite Hp.
Qed.

Lemma hunk_cursor_survives_header_witness :
  run scenario_state ["diff --git a/b.js b/b.js"; "+stray"] =
    Normal (mkState
              (alter (λ f, set_hunks (alter (push_line (lineData scenario_hunk "+stray")) 0%nat
                                            (hunks f)) f) 0%nat
                     ([scenario_file] ++ [mkFileChange (trim "b.js") (trim "b.js")
                                                       false false false false []]))
              (Some 1%nat) (Some (0%nat, 0%nat))).
Proof.
  apply (hunk_cursor_survives_header scenario_state "diff --git a/b.js b/b.js" "+stray"
           "b.js" "b.js" (0%nat, 0%nat) scenario_file scenario_hunk);
    vm_compute; reflexivity.
Defined.

Section Binary.

Lemma step_keeps_currentFile st line st' :
  match_diff_header line = None → step st line = Normal st' →
  currentFile st' = currentFile st.
Proof.
  intros Hm. unfold step. rewrite Hm.
  assert (∀ g, on_currentFile g st = Normal st' → currentFile st' = currentFile st) as Hon.
  { intros g. unfold on_currentFile, assign_file, file_at.
    destruct (currentFile st) as [i|] eqn:Hi; [|by intros [= <-]].
    destruct (changes st !! i); [|done]. simpl. by intros [= <-]. }
  repeat match goal with
  | |- on_currentFile _ _ = _ → _ => apply Hon
  | |- Normal _ = Normal _ → _ => by intros [= <-]
  | |- (if ?b then _ else _) = _ → _ => destruct b
  | |- match ?o with Some _ => _ | None => _ end = _ → _ => destruct o
  end.
  destruct (startsWith "@@" line); simpl.
  - destruct (currentFile st) as [i|] eqn:Hi; simpl.
    + unfold file_at. destruct (changes st !! i) as [f|]; simpl; [|done].
      destruct (isBinary f); simpl.
      * destruct (currentHunk st) as [p|]; [|by intros [= <-]].
        destruct (_ || _); [|by intros [= <-]].
        destruct (hunk_at (changes st) p); simpl; [|done]. by intros [= <-].
      * destruct (match_hunk_header line); by intros [= <-].
    + destruct (currentHunk st) as [p|]; [|by intros [= <-]].
      destruct (_ || _); [|by intros [= <-]].
      destruct (hunk_at (changes st) p); simpl; [|done]. by intros [= <-].
  - destruct (currentHunk st) as [p|]; [|by intros [= <-]].
    destruct (_ || _); [|by intros [= <-]].
    destruct (hunk_at (changes st) p); simpl; [|done]. by intros [= <-].
Qed.

Lemma update_keeps_binary line f f' :
  file_update line f f' → isBinary f = true → hunks f = [] →
  isBinary f' = true ∧ hunks f' = [].
Proof.
  intros Hu Hb Hh. destruct Hu as [| | | | | |f m _ Hnb|f j h Hj _ _ _]; try done.
  - congruence.
  - rewrite Hh in Hj. done.
Qed.

Lemma step_keeps_binary i st line st' :
  match_diff_header line = None → step st line = Normal st' →
  binary_without_hunks i st → binary_without_hunks i st'.
Proof.
  intros Hm Hstep (Hcur & f & Hf & Hb & Hh). split.
  - by rewrite (step_keeps_currentFile st line st' Hm Hstep).
  - apply step_effect in Hstep.
    inversion Hstep as [_ Heq|m1 m2 Hm' Heq|j f0 g _ Hf0 Hu Heq]; [by exists f|congruence|].
    destruct (decide (j = i)) as [->|Hne].
    + assert (f0 = f) as -> by congruence.
      destruct (update_keeps_binary line f (g f) Hu Hb Hh) as [Hb' Hh'].
      exists (g f). by rewrite list_lookup_alter_eq, Hf.
    + exists f. by rewrite list_lookup_alter_ne.
Qed.

Lemma run_keeps_binary i lines : ∀ st st',
  Forall (λ line, match_diff_header line = None) lines →
  run st lines = Normal st' →
  binary_without_hunks i st → binary_without_hunks i st'.
Proof.
  induction lines as [|line rest IH]; intros st st' Hall; simpl.
  - by intros [= <-].
  - apply Forall_cons in Hall as [Hm Hall].
    destruct (step st line) as [st1|] eqn:Hstep; [simpl|done].
    intros Hrun Hbin. apply (IH st1 st' Hall Hrun). by eapply step_keeps_binary.
Qed.

Lemma binary_marker_step st marker i f :
  match_binary marker = true → currentFile st = Some i → changes st !! i = Some f →
  step st marker = Normal (mkState (alter set_isBinary i (changes st)) (currentFile st)
                                   (currentHunk st)).
Proof.
  intros Hbin Hi Hf.
  assert (∃ r, marker = String "B" r) as [r ->].
  { unfold match_binary in Hbin. apply orb_prop in Hbin as [H|H];
      apply andb_prop in H as [H _]; apply startsWith_cons in H as (r & -> & _); by exists r. }
  unfold step.
  change (startsWith "diff --git" (String "B" r)) with false.
  change (startsWith "new file mode" (String "B" r)) with false.
  change (startsWith "deleted file mode" (String "B" r)) with false.
  change (startsWith "similarity index" (String "B" r)) with false.
  change (startsWith "rename from" (String "B" r)) with false.
  change (startsWith "rename to" (String "B" r)) with false.
  cbv iota. simpl orb. cbv iota. rewrite Hbin.
  unfold on_currentFile, assign_file, file_at. rewrite Hi, Hf. done.
Qed.

End Binary.

(** X6: a file whose header is followed by the marker [Binary files ...
    differ] has no hunk: whatever lines follow before the next file header,
    the record stays the last one, flagged binary, with an empty hunk
    list. *)
Theorem binary_file_has_no_hunks (diffText : string) (before : list string)
    (header marker : string) (after : list string) :
  lines_of diffText = before ++ header :: marker :: after →
  is_Some (match_diff_header header) → match_binary marker = true →
  Forall (λ line, match_diff_header line = None) after →
  ∃ f, last (parseDiff diffText) = Some f ∧ isBinary f = true ∧ hunks f = [].
Proof.
  intros Hlines [[m1 m2] Hm] Hbin Hafter.
  destruct (parseDiff_run diffText) as (st & Hrun & _ & ->).
  rewrite Hlines, run_app in Hrun.
  destruct (run_ok before initial cursors_ok_initial) as (st0 & Hb & _).
  rewrite Hb in Hrun. simpl in Hrun.
  assert (startsWith "diff --git" header = true) as Hs.
  { destruct (startsWith "diff --git" header) eqn:E; [done|].
    apply no_header in E. congruence. }
  assert (step st0 header =
          Normal (mkState (changes st0 ++ [mkFileChange (trim m2) (trim m1) false false false false []])
                          (Some (length (changes st0))) (currentHunk st0))) as Hstep.
  { unfold step. by rewrite Hs, Hm. }
  rewrite Hstep in Hrun. simpl in Hrun.
  set (file := mkFileChange (trim m2) (trim m1) false false false false []) in *.
  rewrite (binary_marker_step _ marker (length (changes st0)) file) in Hrun; [|done|done|].
  2:{ simpl. by rewrite lookup_app_r, Nat.sub_diag by lia. }
  simpl in Hrun.
  pose proof (run_length _ _ _ Hrun) as Hlen. simpl in Hlen.
  apply (run_keeps_binary (length (changes st0))) in Hrun; [|done|].
  - destruct Hrun as (_ & f & Hf & Hbf & Hhf). exists f. split; [|done].
    rewrite last_lookup, Hlen, length_alter, length_app. simpl.
    assert (filter (λ line, is_Some (match_diff_header line)) after = []) as ->.
    { clear -Hafter. induction Hafter as [|l ls Hl _ IH]; [done|].
      rewrite filter_cons, Hl. by rewrite decide_False by (by intros [? [=]]). }
    simpl. rewrite <- Hf. f_equal. lia.
  - split; [done|]. exists (set_isBinary file). simpl.
    rewrite list_lookup_alter_eq, lookup_app_r, Nat.sub_diag by lia. done.
Qed.

Lemma binary_file_has_no_hunks_witness :
  ∃ f, last (parseDiff image_diff) = Some f ∧ isBinary f = true ∧ hunks f = [].
Proof.
  apply (binary_file_has_no_hunks image_diff [] "diff --git a/img.png b/img.png"
           "Binary files a/img.png and b/img.png differ" ["@@ -1 +1 @@"; "+x"]).
  - vm_compute. reflexivity.
  - vm_compute. by eexists.
  - vm_compute. reflexivity.
  - repeat constructor.
Defined.

(** * Further properties of the statistics *)

Section Totals.

Lemma sum_Z_stats (proj : FileStat → Z) (count : FileChange → nat) changes :
  (∀ f, proj (stat_of f) = Z.of_nat (count f)) →
  sum_Z (map proj (map stat_of changes)) = Z.of_nat (sum_list_with count changes).
Proof.
  intros Hp. induction changes as [|f fs IH]; simpl; [done|].
  rewrite IH, Hp. lia.
Qed.

Lemma total_count_app t a b : total_count t (a ++ b) = (total_count t a + total_count t b)%nat.
Proof. unfold total_count. apply sum_list_with_app. Qed.

End Totals.

(** X7: the totals of an analysis agree with its per-file statistics:
    [totalAdded] and [totalRemoved] are the sums of the [added] and
    [removed] counts of [fileStats], and [fileStats] has [totalFiles]
    entries. *)
Theorem analyzeChanges_consistent (changes : list FileChange) :
  totalAdded (analyzeChanges changes) = sum_Z (map stat_added (fileStats (analyzeChanges changes))) ∧
  totalRemoved (analyzeChanges changes) = sum_Z (map stat_removed (fileStats (analyzeChanges changes))) ∧
  totalFiles (analyzeChanges changes) = Z.of_nat (length (fileStats (analyzeChanges changes))).
Proof.
  rewrite analyzeChanges_spec. simpl. split; [|split].
  - symmetry. by apply sum_Z_stats.
  - symmetry. by apply sum_Z_stats.
  - by rewrite length_map.
Qed.

(** X8: the analysis of two lists put end to end is the sum of their
    analyses: the three totals add up and the statistics follow each
    other. *)
Theorem analyzeChanges_app (a b : list FileChange) :
  totalFiles (analyzeChanges (a ++ b)) =
    totalFiles (analyzeChanges a) + totalFiles (analyzeChanges b) ∧
  totalAdded (analyzeChanges (a ++ b)) =
    totalAdded (analyzeChanges a) + totalAdded (analyzeChanges b) ∧
  totalRemoved (analyzeChanges (a ++ b)) =
    totalRemoved (analyzeChanges a) + totalRemoved (analyzeChanges b) ∧
  fileStats (analyzeChanges (a ++ b)) =
    fileStats (analyzeChanges a) ++ fileStats (analyzeChanges b).
Proof.
  rewrite !analyzeChanges_spec. simpl.
  rewrite length_app, !total_count_app, map_app. repeat split; lia.
Qed.

(** X9: the summary of [getChangesSummary] lists the files in the order of
    the input with the path of each file, [unknown_file] for an empty one;
    [filesChanged] is the number of listed files and [linesAdded] and
    [linesRemoved] are the sums of their counts. *)
Theorem getChangesSummary_consistent (changes : list FileChange) :
  map file_path (files (getChangesSummary changes)) = map shown_path changes ∧
  filesChanged (getChangesSummary changes) = Z.of_nat (length (files (getChangesSummary changes))) ∧
  linesAdded (getChangesSummary changes) = sum_Z (map file_added (files (getChangesSummary changes))) ∧
  linesRemoved (getChangesSummary changes) = sum_Z (map file_removed (files (getChangesSummary changes))).
Proof.
  unfold getChangesSummary. rewrite analyzeChanges_spec. simpl.
  rewrite !length_map, !map_map. simpl. split; [done|]. split; [done|]. split.
  - symmetry. rewrite <- (map_map stat_of stat_added). by apply sum_Z_stats.
  - symmetry. rewrite <- (map_map stat_of stat_removed). by apply sum_Z_stats.
Qed.

Section Bound.

Lemma sum_alter_le {A} (m : A → nat) (g : A → A) (d : nat) (l : list A) : ∀ i x,
  l !! i = Some x → (m (g x) ≤ m x + d)%nat →
  (sum_list_with m (alter g i l) ≤ sum_list_with m l + d)%nat.
Proof.
  induction l as [|y l IH]; intros [|i] x Hx Hm; simpl in *; try done.
  - injection Hx as ->. lia.
  - specialize (IH i x Hx Hm). change (alter g i l) with (list_alter g i l) in IH. lia.
Qed.

Lemma count_type_snoc t ls l :
  count_type t (ls ++ [l]) = (count_type t ls + if bool_decide (lineType l = t) then 1 else 0)%nat.
Proof.
  unfold count_type. rewrite filter_app, length_app, filter_cons. simpl.
  case_decide; case_bool_decide; done.
Qed.

Lemma update_count t line f f' :
  file_update line f f' →
  (file_count t f' ≤ file_count t f + if bool_decide (getLineType line = t) then 1 else 0)%nat.
Proof.
  intros Hu. unfold file_count.
  destruct Hu as [| | | | | |f m _ _|f j h Hj _ _ _]; simpl; try lia.
  - rewrite sum_list_with_app. simpl.
    destruct m as [[[[m1 m2] m3] m4] m5]. simpl. unfold count_type. simpl. lia.
  - apply (sum_alter_le _ _ _ _ j h Hj). simpl. rewrite count_type_snoc.
    assert (lineType (lineData h line) = getLineType line) as ->.
    { unfold lineData. by destruct (count_lines (lines h) 0 0). }
    lia.
Qed.

Lemma effect_count t line cs cs' :
  effect line cs cs' →
  (total_count t cs' ≤ total_count t cs + if bool_decide (getLineType line = t) then 1 else 0)%nat.
Proof.
  unfold total_count. intros [Hm|m1 m2 Hm|i f g Hm Hf Hu].
  - lia.
  - rewrite sum_list_with_app. simpl. unfold file_count. simpl. lia.
  - apply (sum_alter_le _ _ _ _ i f Hf). by apply update_count.
Qed.

Lemma run_count t lines : ∀ st st',
  run st lines = Normal st' →
  (total_count t (changes st') ≤
   total_count t (changes st) + length (filter (λ line, getLineType line = t) lines))%nat.
Proof.
  induction lines as [|line rest IH]; intros st st'; simpl.
  - intros [= <-]. lia.
  - destruct (step st line) as [st1|] eqn:Hstep; [simpl|done].
    intros Hrun. specialize (IH _ _ Hrun).
    apply step_effect in Hstep. pose proof (effect_count t _ _ _ Hstep) as He.
    rewrite filter_cons. case_decide; case_bool_decide; simpl; try done; lia.
Qed.

Lemma filter_length_impl {A} (P Q : A → Prop) `{∀ x, Decision (P x)} `{∀ x, Decision (Q x)}
    (l : list A) :
  (∀ x, P x → Q x) → (length (filter P l) ≤ length (filter Q l))%nat.
Proof.
  intros HPQ. induction l as [|x l IH]; [done|].
  rewrite !filter_cons. destruct (decide (P x)) as [HP|HP].
  - rewrite decide_True by auto. simpl. lia.
  - destruct (decide (Q x)); simpl; lia.
Qed.

End Bound.

(** X10: the analysis of a parsed text reports as many files as the text
    has file headers, no more added lines than the text has lines that
    start with [+], and no more removed lines than it has lines that start
    with [-]. *)
Theorem analyzeChanges_parseDiff_bound (diffText : string) :
  totalFiles (analyzeChanges (parseDiff diffText)) =
    Z.of_nat (length (filter (λ line, is_Some (match_diff_header line)) (lines_of diffText))) ∧
  totalAdded (analyzeChanges (parseDiff diffText)) ≤
    Z.of_nat (length (filter (λ line, startsWith "+" line = true) (lines_of diffText))) ∧
  totalRemoved (analyzeChanges (parseDiff diffText)) ≤
    Z.of_nat (length (filter (λ line, startsWith "-" line = true) (lines_of diffText))).
Proof.
  rewrite analyzeChanges_spec. simpl.
  destruct (parseDiff_run diffText) as (st & Hrun & _ & ->).
  pose proof (run_count added _ _ _ Hrun) as Ha.
  pose proof (run_count removed _ _ _ Hrun) as Hr. simpl in Ha, Hr.
  split; [by rewrite (run_length _ _ _ Hrun)|].
  split.
  - pose proof (filter_length_impl (λ line, getLineType line = added)
                  (λ line, startsWith "+" line = true) (lines_of diffText)) as Hle.
    assert (∀ x, getLineType x = added → startsWith "+" x = true) as Himp.
    { intros x. unfold getLineType. destruct (startsWith "+" x); [done|].
      by destruct (startsWith "-" x). }
    specialize (Hle Himp). unfold total_count in *. simpl in Ha. lia.
  - pose proof (filter_length_impl (λ line, getLineType line = removed)
                  (λ line, startsWith "-" line = true) (lines_of diffText)) as Hle.
    assert (∀ x, getLineType x = removed → startsWith "-" x = true) as Himp.
    { intros x. unfold getLineType. destruct (startsWith "+" x); [done|].
      by destruct (startsWith "-" x). }
    specialize (Hle Himp). unfold total_count in *. simpl in Hr. lia.
Qed.

(** * Further properties of the comment helpers *)

Section LocateMore.

Lemma map_has_get k m : map_has k m = true ↔ is_Some (map_get k m).
Proof.
  unfold map_has. destruct (map_get k m); split; try done; try (by eexists).
Qed.

(** The result of the locator on a list of hunks, by cases. *)
Lemma locate_cases hs t :
  ∃ r, findBestLineForComment (file_with hs) t = Normal r ∧
       ((addressable hs = [] ∧ r = not_in_diff t) ∨
        (line r ∈ addressable hs ∧ inDiff r = true ∧ exists_ r = true ∧
         (∃ k, type r = Some k ∧ kind_at hs (line r) k) ∧
         (t ∈ addressable hs → line r = t ∧ adjusted r = None ∧ originalLine r = None) ∧
         (t ∉ addressable hs → adjusted r = Some true ∧ originalLine r = Some t))).
Proof.
  unfold findBestLineForComment, file_with. simpl.
  destruct (map_has t (build_lineMap hs)) eqn:Hhas.
  - apply map_has_get in Hhas as Hsome. destruct Hsome as [lineInfo Hg]. rewrite Hg.
    assert (t ∈ addressable hs) as Hin by (apply build_lineMap_keys; by eexists).
    eexists. split; [done|]. right. simpl. repeat split; try done.
    exists (info_type lineInfo). split; [done|]. by apply build_lineMap_kind.
  - assert (t ∉ addressable hs) as Hnot.
    { intros Hin. apply build_lineMap_keys, map_has_get in Hin. congruence. }
    pose proof (sort_ascending_sorted (map_keys (build_lineMap hs))) as Hsorted.
    pose proof (available_addressable hs) as Havail.
    destruct (sort_ascending (map_keys (build_lineMap hs))) as [|first rest].
    + eexists. split; [done|]. left. split; [|done].
      destruct (addressable hs) as [|k ks]; [done|].
      specialize (Havail k). rewrite elem_of_nil in Havail. exfalso. apply Havail. by left.
    + apply StronglySorted_inv in Hsorted as [Hsorted Hfirst].
      simpl. rewrite Z.ltb_irrefl.
      destruct (closest_spec t rest first Hsorted Hfirst) as (Hx & _ & _).
      set (x := closest t rest first (Z.abs (t - first))) in *.
      assert (x ∈ addressable hs) as Hadd.
      { apply Havail. destruct Hx as [->|[Hx _]]; [by left|by right]. }
      destruct (proj2 (build_lineMap_keys hs x) Hadd) as [lineInfo Hg]. rewrite Hg.
      eexists. split; [done|]. right. simpl. repeat split; try done.
      exists (info_type lineInfo). split; [done|]. by apply build_lineMap_kind.
Qed.

Lemma fileInfo_cases (fileInfo : option FileInfo) t :
  findBestLineForComment fileInfo t = findBestLineForComment (file_with (hunks_of fileInfo)) t ∨
  (hunks_of fileInfo = [] ∧ findBestLineForComment fileInfo t = Normal (not_in_diff t)).
Proof.
  destruct fileInfo as [[[hs|]]|]; simpl; [by left|by right|by right].
Qed.

End LocateMore.

(** X11: the locator never throws, and its result tells a fallback from a
    hit: [inDiff] and [exists] are true exactly when the file has an
    addressable line, and otherwise the result is the target line without a
    kind. *)
Theorem findBestLineForComment_inDiff (fileInfo : option FileInfo) (targetLine : Z) :
  ∃ r, findBestLineForComment fileInfo targetLine = Normal r ∧
       exists_ r = inDiff r ∧
       (inDiff r = true ↔ addressable (hunks_of fileInfo) ≠ []) ∧
       (inDiff r = true → line r ∈ addressable (hunks_of fileInfo)) ∧
       (inDiff r = false → line r = targetLine ∧ type r = None ∧ adjusted r = None).
Proof.
  destruct (locate_cases (hunks_of fileInfo) targetLine) as (r & Hr & Hcase).
  destruct (fileInfo_cases fileInfo targetLine) as [Heq|[Hnil Heq]].
  - rewrite Heq, Hr. exists r. split; [done|].
    destruct Hcase as [[Hnone ->]|(Hin & Hd & He & _)].
    + simpl. rewrite Hnone. repeat split; done.
    + rewrite Hd, He. repeat split; try done.
      intros _ Hnone. rewrite Hnone in Hin. by apply elem_of_nil in Hin.
  - rewrite Heq, Hnil. eexists. split; [done|]. simpl. repeat split; done.
Qed.

(** X12: locating the line that the locator returned gives that line
    again, with the same kind and flags and without adjustment. *)
Theorem findBestLineForComment_idempotent (fileInfo : option FileInfo) (targetLine : Z)
    (r : Located) :
  findBestLineForComment fileInfo targetLine = Normal r →
  findBestLineForComment fileInfo (line r) =
    Normal (mkLocated (line r) None (exists_ r) (type r) (inDiff r) None).
Proof.
  unfold findBestLineForComment.
  destruct fileInfo as [info|]; [|by intros [= <-]].
  destruct (info_hunks info) as [hs|]; [|by intros [= <-]].
  destruct (map_has targetLine (build_lineMap hs)) eqn:Hhas.
  - destruct (map_get targetLine (build_lineMap hs)) as [lineInfo|] eqn:Hg; [|done].
    intros [= <-]. simpl. by rewrite Hhas, Hg.
  - destruct (sort_ascending (map_keys (build_lineMap hs))) as [|first rest] eqn:Hs.
    + intros [= <-]. simpl. by rewrite Hhas.
    + set (x := closest targetLine (first :: rest) first (Z.abs (targetLine - first))).
      destruct (map_get x (build_lineMap hs)) as [lineInfo|] eqn:Hg; [|done].
      intros [= <-]. simpl.
      assert (map_has x (build_lineMap hs) = true) as -> by (apply map_has_get; by eexists).
      by rewrite Hg.
Qed.

Lemma findBestLineForComment_idempotent_witness :
  findBestLineForComment (file_with [scenario_hunk]) 12 =
    Normal (mkLocated 12 None true (Some context) true None).
Proof.
  apply (findBestLineForComment_idempotent (file_with [scenario_hunk]) 500
           (mkLocated 12 (Some 500) true (Some context) true (Some true))).
  vm_compute. reflexivity.
Defined.

Section Commentable.

Lemma commentable_in_lines_none ls n :
  commentable_in_lines ls n = None ↔ n ∉ omap newLineNumber ls.
Proof.
  induction ls as [|l ls IH]; simpl.
  - split; [intros _ ?%elem_of_nil; done|done].
  - case_bool_decide as Hn.
    + split; [done|]. intros Hnot. exfalso. apply Hnot. rewrite Hn. by left.
    + rewrite IH. destruct (newLineNumber l) as [k|]; [|done].
      rewrite not_elem_of_cons. split; [|by intros [_ ?]]. intros ?. split; [congruence|done].
Qed.

Lemma commentable_in_lines_some ls n b :
  commentable_in_lines ls n = Some b →
  ∃ l, l ∈ ls ∧ newLineNumber l = Some n ∧
       b = bool_decide (lineType l = added) || bool_decide (lineType l = context).
Proof.
  induction ls as [|l ls IH]; simpl; [done|].
  case_bool_decide as Hn.
  - intros [= <-]. exists l. split; [by left|done].
  - intros Hb. destruct (IH Hb) as (l' & Hl' & Hn' & ->). exists l'. split; [by right|done].
Qed.

Lemma commentable_in_hunks_none hs n :
  commentable_in_hunks hs n = None ↔ n ∉ addressable hs.
Proof.
  unfold addressable. induction hs as [|h hs IH]; simpl.
  - split; [intros _ ?%elem_of_nil; done|done].
  - destruct (commentable_in_lines (lines h) n) as [b|] eqn:Hb.
    + split; [done|]. intros Hnot. exfalso.
      assert (commentable_in_lines (lines h) n = None) as Hnone.
      { apply commentable_in_lines_none. intros Hin. apply Hnot, elem_of_app. by left. }
      congruence.
    + apply commentable_in_lines_none in Hb. rewrite IH, elem_of_app. tauto.
Qed.

Lemma commentable_in_hunks_some hs n b :
  commentable_in_hunks hs n = Some b →
  ∃ h l, h ∈ hs ∧ l ∈ lines h ∧ newLineNumber l = Some n ∧
         b = bool_decide (lineType l = added) || bool_decide (lineType l = context).
Proof.
  induction hs as [|h hs IH]; simpl; [done|].
  destruct (commentable_in_lines (lines h) n) as [b'|] eqn:Hb.
  - intros [= <-]. destruct (commentable_in_lines_some _ _ _ Hb) as (l & Hl & Hn & ->).
    exists h, l. split; [by left|done].
  - intros Hs. destruct (IH Hs) as (h' & l & Hh' & Hrest). exists h', l. split; [by right|done].
Qed.

Lemma commentable_addressable hs n :
  isLineCommentable (file_with hs) n = true → n ∈ addressable hs.
Proof.
  unfold isLineCommentable, file_with. simpl.
  destruct (commentable_in_hunks hs n) as [b|] eqn:Hb; [|done].
  intros _. destruct (decide (n ∈ addressable hs)) as [|Hnot]; [done|].
  apply commentable_in_hunks_none in Hnot. congruence.
Qed.

Lemma addressable_commentable hs n :
  (∀ h, h ∈ hs → removed_unnumbered (lines h)) →
  n ∈ addressable hs → isLineCommentable (file_with hs) n = true.
Proof.
  intros Hr Hin. unfold isLineCommentable, file_with. simpl.
  destruct (commentable_in_hunks hs n) as [b|] eqn:Hb.
  - destruct (commentable_in_hunks_some _ _ _ Hb) as (h & l & Hh & Hl & Hn & ->). simpl.
    specialize (Hr h Hh l Hl). destruct (lineType l); try done.
    rewrite Hr in Hn; done.
  - apply commentable_in_hunks_none in Hb. done.
Qed.

Lemma parseDiff_hunks_removed diffText f :
  f ∈ parseDiff diffText → ∀ h, h ∈ hunks f → removed_unnumbered (lines h).
Proof. intros Hf h Hh. by eapply parseDiff_removed. Qed.

End Commentable.

(** X13: a line that [isLineCommentable] accepts is returned by the
    locator as it is: the result has that line, [exists] and [inDiff] true,
    and neither [adjusted] nor [originalLine]. *)
Theorem commentable_is_located (fileInfo : option FileInfo) (lineNumber : Z) :
  isLineCommentable fileInfo lineNumber = true →
  ∃ r, findBestLineForComment fileInfo lineNumber = Normal r ∧
       line r = lineNumber ∧ exists_ r = true ∧ inDiff r = true ∧
       adjusted r = None ∧ originalLine r = None.
Proof.
  intros Hc.
  assert (fileInfo = file_with (hunks_of fileInfo) ∨ hunks_of fileInfo = []) as [Heq|Hnil].
  { destruct fileInfo as [[[hs|]]|]; simpl; [by left|by right|by right]. }
  - rewrite Heq in Hc |- *. apply commentable_addressable in Hc.
    destruct (locate_cases (hunks_of fileInfo) lineNumber) as (r & Hr & Hcase).
    exists r. split; [done|].
    destruct Hcase as [[Hnone _]|(_ & Hd & He & _ & Hexact & _)].
    + rewrite Hnone in Hc. by apply elem_of_nil in Hc.
    + destruct (Hexact Hc) as (Hl & Ha & Ho). done.
  - exfalso. destruct fileInfo as [[[hs|]]|]; simpl in *; try done. by subst hs.
Qed.

Lemma commentable_is_located_witness :
  ∃ r, findBestLineForComment (file_with [scenario_hunk]) 11 = Normal r ∧
       line r = 11 ∧ exists_ r = true ∧ inDiff r = true ∧
       adjusted r = None ∧ originalLine r = None.
Proof.
  apply commentable_is_located. vm_compute. reflexivity.
Defined.

(** X14: for a parsed file, the commentable lines are the addressable
    lines: [isLineCommentable] accepts a number exactly when some line of
    the file carries it as [newLineNumber]. *)
Theorem parseDiff_commentable_iff_addressable (diffText : string) (f : FileChange)
    (lineNumber : Z) :
  f ∈ parseDiff diffText →
  (isLineCommentable (fileInfo_of f) lineNumber = true ↔ lineNumber ∈ addressable (hunks f)).
Proof.
  intros Hf. split.
  - apply commentable_addressable.
  - apply addressable_commentable. by eapply parseDiff_hunks_removed.
Qed.

Lemma parseDiff_commentable_iff_addressable_witness :
  isLineCommentable (fileInfo_of scenario_file) 11 = true ↔
  11 ∈ addressable (hunks scenario_file).
Proof.
  apply (parseDiff_commentable_iff_addressable scenario). vm_compute. constructor.
Defined.

(** X15: for a parsed file with an addressable line, the line that the
    locator returns for any target is commentable. *)
Theorem parseDiff_located_is_commentable (diffText : string) (f : FileChange)
    (targetLine : Z) :
  f ∈ parseDiff diffText → addressable (hunks f) ≠ [] →
  ∃ r, findBestLineForComment (fileInfo_of f) targetLine = Normal r ∧
       inDiff r = true ∧ isLineCommentable (fileInfo_of f) (line r) = true.
Proof.
  intros Hf Hne.
  destruct (locate_cases (hunks f) targetLine) as (r & Hr & Hcase).
  exists r. split; [exact Hr|].
  destruct Hcase as [[Hnone _]|(Hin & Hd & _)]; [done|]. split; [done|].
  apply addressable_commentable; [|done]. by eapply parseDiff_hunks_removed.
Qed.

Lemma parseDiff_located_is_commentable_witness :
  ∃ r, findBestLineForComment (fileInfo_of scenario_file) 500 = Normal r ∧
       inDiff r = true ∧ isLineCommentable (fileInfo_of scenario_file) (line r) = true.
Proof.
  apply (parseDiff_located_is_commentable scenario).
  - vm_compute. constructor.
  - vm_compute. discriminate.
Defined.

Section Modified.

Lemma fold_push_modified ls : ∀ acc,
  fold_left push_modified ls acc = acc ++ omap added_number ls.
Proof.
  induction ls as [|l ls IH]; intros acc; simpl; [by rewrite app_nil_r|].
  rewrite IH. unfold push_modified, added_number.
  case_bool_decide; [|done]. destruct (newLineNumber l); [|done].
  by rewrite <- app_assoc.
Qed.

Lemma fold_modified_hunks hs : ∀ acc,
  fold_left (λ modifiedLines hunk, fold_left push_modified (lines hunk) modifiedLines) hs acc =
  acc ++ added_numbers hs.
Proof.
  unfold added_numbers. induction hs as [|h hs IH]; intros acc; simpl; [by rewrite app_nil_r|].
  by rewrite IH, fold_push_modified, <- app_assoc.
Qed.

Lemma insert_sorted_perm x l : insert_sorted x l ≡ₚ x :: l.
Proof.
  induction l as [|y l IH]; simpl; [done|].
  destruct (x <=? y); [done|]. rewrite IH. apply Permutation_swap.
Qed.

Lemma sort_ascending_perm l : sort_ascending l ≡ₚ l.
Proof.
  induction l as [|x l IH]; simpl; [done|]. by rewrite insert_sorted_perm, IH.
Qed.

Lemma getModifiedLines_hunks fileInfo :
  getModifiedLines fileInfo = sort_ascending (added_numbers (hunks_of fileInfo)).
Proof.
  destruct fileInfo as [[[hs|]]|]; simpl; try done.
  by rewrite fold_modified_hunks.
Qed.

Lemma added_numbers_kind hs n : n ∈ added_numbers hs ↔ kind_at hs n added.
Proof.
  unfold added_numbers, kind_at. rewrite elem_of_concat_map. split.
  - intros (h & Hh & Hn). apply list_elem_of_omap in Hn as (l & Hl & Hn).
    unfold added_number in Hn. case_bool_decide; [|done]. by exists h, l.
  - intros (h & l & Hh & Hl & Hn & Ht). exists h. split; [done|].
    apply list_elem_of_omap. exists l. split; [done|].
    unfold added_number. by rewrite bool_decide_eq_true_2.
Qed.

Lemma kind_at_addressable hs n t : kind_at hs n t → n ∈ addressable hs.
Proof.
  intros (h & l & Hh & Hl & Hn & _). unfold addressable.
  apply elem_of_concat_map. exists h. split; [done|].
  apply list_elem_of_omap. by exists l.
Qed.

End Modified.

(** X16: [getModifiedLines] returns, in ascending order, the numbers of
    the added lines of the file, each as often as it occurs; a missing file
    or hunk list gives the empty list. *)
Theorem getModifiedLines_sorted_added (fileInfo : option FileInfo) :
  StronglySorted Z.le (getModifiedLines fileInfo) ∧
  getModifiedLines fileInfo ≡ₚ added_numbers (hunks_of fileInfo) ∧
  ∀ n, n ∈ getModifiedLines fileInfo ↔ kind_at (hunks_of fileInfo) n added.
Proof.
  rewrite getModifiedLines_hunks. split; [apply sort_ascending_sorted|].
  split; [apply sort_ascending_perm|].
  intros n. by rewrite sort_ascending_elem, added_numbers_kind.
Qed.

(** X17: every line that [getModifiedLines] reports for a parsed file is
    commentable. *)
Theorem parseDiff_modified_is_commentable (diffText : string) (f : FileChange) (n : Z) :
  f ∈ parseDiff diffText → n ∈ getModifiedLines (fileInfo_of f) →
  isLineCommentable (fileInfo_of f) n = true.
Proof.
  intros Hf Hn. rewrite getModifiedLines_hunks, sort_ascending_elem in Hn. simpl in Hn.
  apply added_numbers_kind, kind_at_addressable in Hn.
  apply addressable_commentable; [|done]. by eapply parseDiff_hunks_removed.
Qed.

Lemma parseDiff_modified_is_commentable_witness :
  isLineCommentable (fileInfo_of scenario_file) 11 = true.
Proof.
  apply (parseDiff_modified_is_commentable scenario).
  - vm_compute. constructor.
  - vm_compute. constructor.
Defined.

(** * Further properties of the context extractor *)

Section Eligible.

Variable contextLines : Z.

Lemma trim_block_fields c b :
  block_filePath (trim_block contextLines c b) = block_filePath b ∧
  hasChanges (trim_block contextLines c b) = hasChanges b ∧
  ∃ t, code (trim_block contextLines c b) = take t (code b).
Proof.
  unfold trim_block. destruct (_ <? _); simpl.
  - repeat split. by eexists.
  - repeat split. exists (length (code b)). by rewrite take_ge.
Qed.

Section OneFile.

Variable filePath : string.
Variable R : Block → Prop.
Hypothesis HR : ∀ b, block_filePath b = filePath → hasChanges b = true → code b ≠ [] → R b.

Lemma emit_eligible b out :
  block_filePath b = filePath → Forall R out →
  Forall R (if hasChanges b && bool_decide (0 < length (code b))%nat then out ++ [b] else out).
Proof.
  intros Hp Hout. destruct (hasChanges b) eqn:Hh; simpl; [|done].
  case_bool_decide as Hlen; [|done].
  apply Forall_app. split; [done|]. apply Forall_singleton. apply HR; [done|done|].
  intros Hnil. rewrite Hnil in Hlen. simpl in Hlen. lia.
Qed.

Lemma extract_line_path s l :
  Forall R (codeBlocks s) → block_filePath (currentBlock s) = filePath →
  Forall R (codeBlocks (extract_line filePath contextLines s l)) ∧
  block_filePath (currentBlock (extract_line filePath contextLines s l)) = filePath.
Proof.
  intros Hout Hp. unfold extract_line.
  destruct (newLineNumber l) as [n|]; [|done].
  destruct s as [inb b buffer out]. simpl in Hout, Hp.
  destruct (lineType l); destruct inb; simpl; try done.
  destruct (trailing_context contextLines _ 0) as [c|]; simpl; [|done].
  split; [|done].
  set (b2 := mkBlock (block_filePath b) (startLine b) (Some n)
                     (code b ++ [mkEntry (strip_final_lf (content l)) n false]) (hasChanges b)).
  destruct (trim_block_fields c b2) as (Hpath & _ & _).
  apply emit_eligible; [|done]. by rewrite Hpath.
Qed.

Lemma extract_lines_path ls : ∀ s,
  Forall R (codeBlocks s) → block_filePath (currentBlock s) = filePath →
  Forall R (codeBlocks (fold_left (extract_line filePath contextLines) ls s)) ∧
  block_filePath (currentBlock (fold_left (extract_line filePath contextLines) ls s)) = filePath.
Proof.
  induction ls as [|l ls IH]; intros s Hout Hp; simpl; [done|].
  destruct (extract_line_path s l Hout Hp) as [Hout' Hp']. by apply IH.
Qed.

Lemma extract_hunk_path emitted h :
  Forall R emitted → Forall R (extract_hunk filePath contextLines emitted h).
Proof.
  intros Hout. unfold extract_hunk. case_bool_decide; [done|].
  destruct (extract_lines_path (lines h) (mkLoop false (empty_block filePath) [] emitted))
    as [Hout' Hp]; [done|done|].
  destruct (fold_left _ _ _) as [inb b buffer out]. simpl in *.
  destruct inb; simpl; [|done]. by apply emit_eligible.
Qed.

End OneFile.

Lemma extract_eligible changes :
  Forall (eligible_block changes) (extractChangedCodeWithContext changes contextLines).
Proof.
  unfold extractChangedCodeWithContext. case_bool_decide; [done|].
  assert (∀ fs emitted, (∀ f, f ∈ fs → f ∈ changes) →
            Forall (eligible_block changes) emitted →
            Forall (eligible_block changes)
                   (fold_left (extract_change contextLines) fs emitted)) as Hfold.
  { induction fs as [|f fs IH]; intros emitted Hsub Hout; simpl; [done|].
    apply IH; [intros f' Hf'; apply Hsub; by right|].
    unfold extract_change.
    destruct (String.eqb_spec (filePath f) "") as [|Hpath]; [done|].
    destruct (isDeleted f) eqn:Hd; [done|]. destruct (isBinary f) eqn:Hb; [done|]. simpl.
    assert (∀ hs out, Forall (eligible_block changes) out →
              Forall (eligible_block changes)
                     (fold_left (extract_hunk (filePath f) contextLines) hs out)) as Hh.
    { induction hs as [|h hs IHh]; intros out Ho; simpl; [done|].
      apply IHh. apply extract_hunk_path; [|done].
      intros b Hbp Hbh Hbc. split; [done|]. split; [done|].
      exists f. split; [apply Hsub; by left|done]. }
    by apply Hh. }
  by apply Hfold.
Qed.

End Eligible.

(** X18: every emitted block belongs to a file that has a path and is
    neither deleted nor binary; it carries the path of that file, has at
    least one entry and is marked as holding changes. *)
Theorem extract_blocks_eligible (changes : list FileChange) (contextLines : Z) (b : Block) :
  b ∈ extractChangedCodeWithContext changes contextLines →
  hasChanges b = true ∧ code b ≠ [] ∧
  ∃ f, f ∈ changes ∧ block_filePath b = filePath f ∧
       filePath f ≠ "" ∧ isDeleted f = false ∧ isBinary f = false.
Proof.
  intros Hb. pose proof (extract_eligible contextLines changes) as Hall.
  rewrite Forall_forall in Hall. by apply Hall.
Qed.

Lemma extract_blocks_eligible_witness :
  hasChanges scenario_block = true ∧ code scenario_block ≠ [] ∧
  ∃ f, f ∈ parseDiff scenario ∧ block_filePath scenario_block = filePath f ∧
       filePath f ≠ "" ∧ isDeleted f = false ∧ isBinary f = false.
Proof.
  apply (extract_blocks_eligible (parseDiff scenario) 3). vm_compute. constructor.
Defined.

Section Contiguous.

Variable contextLines : Z.
Variable filePath : string.
Variable all : list Line.
Variable P : Block → Prop.

Lemma numbered_entries_snoc read l :
  numbered_entries (read ++ [l]) =
  numbered_entries read ++ match newLineNumber l with
                           | Some n => [entry_of l n]
                           | None => []
                           end.
Proof.
  unfold numbered_entries. rewrite omap_app. simpl. by destruct (newLineNumber l).
Qed.

Lemma suffix_tail {A} (l m : list A) : l `suffix_of` m → tail l `suffix_of` m.
Proof.
  intros [k ->]. destruct l as [|x l]; [by exists k|].
  exists (k ++ [x]). by rewrite <- app_assoc.
Qed.

Lemma suffix_prefix_run {A} (c es after : list A) t :
  c `suffix_of` es → run_of (take t c) (es ++ after).
Proof.
  intros [k ->]. exists k, (drop t c ++ after).
  rewrite <- (take_drop t c) at 1. by rewrite <- !app_assoc.
Qed.

Lemma emit_run b out read rest :
  all = read ++ rest → code b `suffix_of` numbered_entries read → Forall (earlier_or_run P all) out →
  ∀ c, Forall (earlier_or_run P all) (let b' := trim_block contextLines c b in
                  if hasChanges b' && bool_decide (0 < length (code b'))%nat
                  then out ++ [b'] else out).
Proof.
  intros Hall Hsuf Hout c. simpl. destruct (_ && _); [|done].
  apply Forall_app. split; [done|]. apply Forall_singleton. right.
  destruct (trim_block_fields contextLines c b) as (_ & _ & t & ->).
  rewrite Hall. unfold numbered_entries at 1. rewrite omap_app.
  by apply suffix_prefix_run.
Qed.

Lemma extract_line_run read l rest s :
  all = read ++ l :: rest → run_inv read s → Forall (earlier_or_run P all) (codeBlocks s) →
  run_inv (read ++ [l]) (extract_line filePath contextLines s l) ∧
  Forall (earlier_or_run P all) (codeBlocks (extract_line filePath contextLines s l)).
Proof.
  intros Hall Hinv Hout. unfold extract_line, run_inv in *.
  rewrite numbered_entries_snoc.
  destruct (newLineNumber l) as [n|] eqn:Hn; [|by rewrite app_nil_r].
  destruct s as [inb b buffer out]. simpl in Hinv, Hout.
  unfold entry_of.
  destruct (lineType l) eqn:Ht; destruct inb; simpl in *.
  - (* a context line inside a block *)
    assert ((code b ++ [mkEntry (strip_final_lf (content l)) n false])
              `suffix_of` (numbered_entries read ++ [mkEntry (strip_final_lf (content l)) n false]))
      as Hsuf by (by apply suffix_app).
    destruct (trailing_context contextLines _ 0) as [c|] eqn:Hc; simpl; [|done].
    split; [split; [done|apply suffix_nil]|].
    apply (emit_run (mkBlock (block_filePath b) (startLine b) (Some n)
                             (code b ++ [mkEntry (strip_final_lf (content l)) n false])
                             (hasChanges b)) out (read ++ [l]) rest).
    + by rewrite <- app_assoc.
    + rewrite numbered_entries_snoc, Hn. unfold entry_of. by rewrite Ht.
    + done.
  - (* a context line outside a block *)
    destruct Hinv as [Hcode Hsuf]. split; [|done]. split; [done|].
    assert (map buffered (buffer ++ [(strip_final_lf (content l), n)])
              `suffix_of` (numbered_entries read ++ [mkEntry (strip_final_lf (content l)) n false]))
      as Hpush by (rewrite map_app; by apply suffix_app).
    destruct (_ <? _); [|done].
    destruct (buffer ++ [(strip_final_lf (content l), n)]) as [|x xs]; [done|].
    simpl. by apply (suffix_tail (buffered x :: map buffered xs)).
  - split; [|done]. by apply suffix_app.
  - destruct Hinv as [Hcode Hsuf]. split; [|done]. rewrite Hcode. simpl.
    by apply suffix_app.
  - split; [|done]. by apply suffix_app.
  - destruct Hinv as [Hcode Hsuf]. split; [|done]. rewrite Hcode. simpl.
    by apply suffix_app.
Qed.

Lemma extract_lines_run rest : ∀ read s,
  all = read ++ rest → run_inv read s → Forall (earlier_or_run P all) (codeBlocks s) →
  run_inv all (fold_left (extract_line filePath contextLines) rest s) ∧
  Forall (earlier_or_run P all) (codeBlocks (fold_left (extract_line filePath contextLines) rest s)).
Proof.
  induction rest as [|l rest IH]; intros read s Hall Hinv Hout; simpl.
  - rewrite app_nil_r in Hall. by subst.
  - destruct (extract_line_run read l rest s Hall Hinv Hout) as [Hinv' Hout'].
    apply (IH (read ++ [l])); [by rewrite <- app_assoc|done|done].
Qed.

End Contiguous.

Section ContiguousBlocks.

Variable contextLines : Z.

Lemma extract_hunk_run filePath (P : Block → Prop) emitted h :
  Forall P emitted →
  Forall (earlier_or_run P (lines h))
         (extract_hunk filePath contextLines emitted h).
Proof.
  intros Hout.
  assert (Forall (earlier_or_run P (lines h)) emitted) as Hout'.
  { eapply Forall_impl; [exact Hout|]. intros b Hb. by left. }
  unfold extract_hunk. case_bool_decide; [done|].
  destruct (extract_lines_run contextLines filePath (lines h) P (lines h) []
              (mkLoop false (empty_block filePath) [] emitted)) as [Hinv Hout'']; try done.
  destruct (fold_left _ _ _) as [inb b buffer out]. unfold run_inv in Hinv. simpl in *.
  destruct inb; simpl; [|done]. destruct (_ && _); [|done].
  apply Forall_app. split; [done|]. apply Forall_singleton. right.
  destruct Hinv as [k Hk]. exists k, []. by rewrite app_nil_r.
Qed.

Lemma extract_in_a_hunk changes :
  Forall (in_a_hunk changes) (extractChangedCodeWithContext changes contextLines).
Proof.
  unfold extractChangedCodeWithContext. case_bool_decide; [done|].
  assert (∀ fs emitted, (∀ f, f ∈ fs → f ∈ changes) →
            Forall (in_a_hunk changes) emitted →
            Forall (in_a_hunk changes)
                   (fold_left (extract_change contextLines) fs emitted)) as Hfold.
  { induction fs as [|f fs IH]; intros emitted Hsub Hout; simpl; [done|].
    apply IH; [intros f' Hf'; apply Hsub; by right|].
    unfold extract_change.
    destruct (String.eqb (filePath f) ""); [done|]. destruct (_ || _); [done|].
    assert (∀ hs out, (∀ h, h ∈ hs → h ∈ hunks f) →
              Forall (in_a_hunk changes) out →
              Forall (in_a_hunk changes)
                     (fold_left (extract_hunk (filePath f) contextLines) hs out)) as Hh.
    { induction hs as [|h hs IHh]; intros out Hsubh Ho; simpl; [done|].
      apply IHh; [intros h' Hh'; apply Hsubh; by right|].
      eapply Forall_impl; [by apply (extract_hunk_run (filePath f) (in_a_hunk changes))|].
      intros b [Hb|Hb]; [done|]. exists f, h.
      split; [apply Hsub; by left|]. split; [apply Hsubh; by left|done]. }
    by apply Hh. }
  by apply Hfold.
Qed.

End ContiguousBlocks.

(** X19: the entries of every emitted block are consecutive entries of one
    hunk: they are, in the order of the hunk and without a gap, entries of
    lines of that hunk that carry a [newLineNumber]. *)
Theorem extract_blocks_contiguous (changes : list FileChange) (contextLines : Z) (b : Block) :
  b ∈ extractChangedCodeWithContext changes contextLines →
  ∃ f h, f ∈ changes ∧ h ∈ hunks f ∧
         ∃ before after, numbered_entries (lines h) = before ++ code b ++ after.
Proof.
  intros Hb. pose proof (extract_in_a_hunk contextLines changes) as Hall.
  rewrite Forall_forall in Hall. destruct (Hall b Hb) as (f & h & Hf & Hh & Hrun).
  by exists f, h.
Qed.

Lemma extract_blocks_contiguous_witness :
  ∃ f h, f ∈ parseDiff scenario ∧ h ∈ hunks f ∧
         ∃ before after, numbered_entries (lines h) = before ++ code scenario_block ++ after.
Proof.
  apply (extract_blocks_contiguous (parseDiff scenario) 3). vm_compute. constructor.
Defined.

Section Consecutive.

Lemma numbered_entries_numbers ls :
  map lineNumber (numbered_entries ls) = omap newLineNumber ls.
Proof.
  unfold numbered_entries. induction ls as [|l ls IH]; simpl; [done|].
  destruct (newLineNumber l); simpl; [f_equal|]; exact IH.
Qed.

Lemma numbered_prefix h : numbered h →
  ∀ i, omap newLineNumber (take i (lines h)) =
       js_add (newStart h) <$> seqZ 0 (count_new (take i (lines h))).
Proof.
  intros Hn. unfold count_new. induction i as [|i IH]; [by rewrite take_0|].
  destruct (lines h !! i) as [l|] eqn:Hl.
  - rewrite (take_S_r _ _ _ Hl), omap_app, filter_app, length_app, IH. simpl.
    destruct (Hn i l Hl) as [_ Hnew]. unfold count_new in Hnew. rewrite Hnew.
    rewrite filter_cons. destruct (decide (new_side l)); simpl.
    + rewrite Nat.add_1_r, seqZ_S, fmap_app. done.
    + by rewrite Nat.add_0_r, app_nil_r.
  - apply lookup_ge_None in Hl. rewrite !take_ge in IH |- * by lia. done.
Qed.

Lemma numbered_sums h : numbered h →
  map lineNumber (numbered_entries (lines h)) =
  js_add (newStart h) <$> seqZ 0 (count_new (lines h)).
Proof.
  intros Hn. rewrite numbered_entries_numbers.
  pose proof (numbered_prefix h Hn (length (lines h))) as Hp.
  by rewrite take_ge in Hp by lia.
Qed.

Lemma run_of_sums (g : Z → Z) (c l1 l2 : list Z) n k x :
  g <$> seqZ 0 n = l1 ++ c ++ l2 →
  c !! k = Some x → x = g (Z.of_nat (length l1 + k)).
Proof.
  intros Heq Hx.
  assert ((g <$> seqZ 0 n) !! (length l1 + k)%nat = Some x) as Hs.
  { rewrite Heq, lookup_app_r by lia. rewrite lookup_app_l.
    - by replace (length l1 + k - length l1)%nat with k by lia.
    - apply lookup_lt_Some in Hx. lia. }
  rewrite list_lookup_fmap in Hs.
  destruct (seqZ 0 n !! (length l1 + k)%nat) as [y|] eqn:Hy; [|done].
  apply lookup_seqZ in Hy as [-> _]. simpl in Hs. injection Hs as <-. by f_equal.
Qed.

(** Sums below [2 ^ 53] are those of the integers: a run of such sums is a
    run of consecutive integers. *)
Lemma run_of_exact_sums (c l1 l2 : list Z) a n :
  0 ≤ a → js_add a <$> seqZ 0 n = l1 ++ c ++ l2 →
  Forall (λ x, x < 2 ^ 53) c →
  c = seqZ (a + Z.of_nat (length l1)) (Z.of_nat (length c)).
Proof.
  intros Ha Heq Hsafe. apply list_eq. intros k.
  destruct (c !! k) as [x|] eqn:Hx.
  - pose proof (run_of_sums _ _ _ _ _ _ _ Heq Hx) as Hsum.
    rewrite Forall_forall in Hsafe.
    assert (x < 2 ^ 53) as Hlt by (apply Hsafe; by eapply list_elem_of_lookup_2).
    rewrite Hsum in Hlt. unfold js_add in *.
    rewrite to_double_below in Hsum by (done || lia).
    symmetry. apply lookup_seqZ. apply lookup_lt_Some in Hx. lia.
  - symmetry. apply lookup_seqZ_ge. apply lookup_ge_None in Hx. lia.
Qed.

End Consecutive.

(** X20: in every block emitted for a parsed text whose entries have line
    numbers below [2 ^ 53], these numbers are consecutive: the entries
    number [first], [first + 1], and so on, and [endLine] is the last of
    these numbers. *)
Theorem parseDiff_blocks_consecutive (diffText : string) (contextLines : Z) (b : Block) :
  b ∈ extractChangedCodeWithContext (parseDiff diffText) contextLines →
  Forall (λ e, lineNumber e < 2 ^ 53) (code b) →
  ∃ first, map lineNumber (code b) = seqZ first (Z.of_nat (length (code b))) ∧
           endLine b = Some (first + Z.of_nat (length (code b)) - 1).
Proof.
  intros Hb Hsafe.
  pose proof (extract_in_a_hunk contextLines (parseDiff diffText)) as Hall.
  rewrite Forall_forall in Hall.
  destruct (Hall b Hb) as (f & h & Hf & Hh & l1 & l2 & Hrun).
  assert (numbered h) as Hn.
  { pose proof (parseDiff_numbered diffText) as HP.
    rewrite Forall_forall in HP. specialize (HP f Hf).
    rewrite Forall_forall in HP. by apply HP. }
  assert (0 ≤ newStart h) as Hstart.
  { pose proof (parseDiff_headers diffText) as HP.
    rewrite Forall_forall in HP. specialize (HP f Hf).
    rewrite Forall_forall in HP. by destruct (HP h Hh) as (_ & _ & ? & _). }
  pose proof (numbered_sums h Hn) as Hseq.
  rewrite Hrun, !map_app in Hseq. symmetry in Hseq.
  apply run_of_exact_sums in Hseq; [|done|by apply Forall_fmap].
  rewrite !length_map in Hseq.
  exists (newStart h + Z.of_nat (length l1)). split; [done|].
  pose proof (extract_ok contextLines (λ _, True) (parseDiff diffText)) as Hok.
  rewrite Forall_forall in Hok.
  destruct (Hok (λ _ _ _ _ _ _ _ _, I) b Hb) as (_ & (e & Hlast & ->) & _).
  f_equal. rewrite last_lookup in Hlast.
  assert (map lineNumber (code b) !! pred (length (code b)) = Some (lineNumber e)) as Hl.
  { by rewrite list_lookup_fmap, Hlast. }
  rewrite Hseq in Hl. apply lookup_seqZ in Hl as [-> Hlt].
  destruct (code b); simpl in *; lia.
Qed.

Lemma parseDiff_blocks_consecutive_witness :
  ∃ first, map lineNumber (code scenario_block) =
             seqZ first (Z.of_nat (length (code scenario_block))) ∧
           endLine scenario_block = Some (first + Z.of_nat (length (code scenario_block)) - 1).
Proof.
  apply (parseDiff_blocks_consecutive scenario 3).
  - vm_compute. constructor.
  - repeat constructor.
Defined.

Section BoundedContext.

Variable contextLines : Z.
Hypothesis Hk : 0 ≤ contextLines.

Lemma scan_snoc l e : scan_runs (l ++ [e]) = scan_step (scan_runs l) e.
Proof. unfold scan_runs. by rewrite fold_left_app. Qed.

Lemma scan_unchanged r : ∀ c b,
  Forall (λ e, isChange e = false) r →
  fold_left scan_step r (c, b) =
    ((c + length r)%nat, match r with [] => b | _ => Nat.max b (c + length r) end).
Proof.
  induction r as [|e r IH]; intros c b Hr; simpl.
  - f_equal. lia.
  - apply Forall_cons in Hr as [He Hr]. unfold scan_step at 2. rewrite He. simpl.
    rewrite (IH _ _ Hr). destruct r; simpl; f_equal; lia.
Qed.

Lemma scan_mono l : ∀ acc, (acc.2 ≤ (fold_left scan_step l acc).2)%nat.
Proof.
  induction l as [|e l IH]; intros acc; simpl; [done|].
  etrans; [|apply IH]. unfold scan_step. destruct (isChange e); simpl; lia.
Qed.

Lemma run_le_longest (l1 r l2 : list CodeEntry) :
  Forall (λ e, isChange e = false) r →
  (length r ≤ (scan_runs (l1 ++ r ++ l2)).2)%nat.
Proof.
  intros Hr. unfold scan_runs. rewrite !fold_left_app.
  destruct (fold_left scan_step l1 (0%nat, 0%nat)) as [c1 b1].
  rewrite (scan_unchanged r c1 b1 Hr).
  etrans; [|apply scan_mono]. simpl. destruct r; simpl; lia.
Qed.

Lemma scan_buffer (buffer : list (string * Z)) :
  scan_runs (map (λ c, mkEntry c.1 c.2 false) buffer) = (length buffer, length buffer).
Proof.
  unfold scan_runs. rewrite scan_unchanged.
  - rewrite length_map. destruct buffer; simpl; f_equal; lia.
  - apply Forall_fmap, Forall_true. done.
Qed.

Lemma trailing_rev l : (scan_runs l).1 = leading_unchanged (rev l).
Proof.
  induction l as [|e l IH] using rev_ind; [done|].
  rewrite scan_snoc, rev_unit. simpl. unfold scan_step.
  destruct (isChange e); simpl; [done|]. by rewrite IH.
Qed.

Lemma trailing_context_none backwards : ∀ n,
  trailing_context contextLines backwards n = None →
  leading_unchanged backwards = 0%nat ∨
  n + Z.of_nat (leading_unchanged backwards) < contextLines.
Proof.
  induction backwards as [|e r IH]; intros n; simpl; [by left|].
  destruct (isChange e); simpl; [by left|].
  destruct (Z.leb_spec contextLines (n + 1)); [done|].
  intros Hnone. right. destruct (IH _ Hnone) as [Hz|Hlt]; lia.
Qed.

Lemma close_bounded b e c :
  Z.of_nat (scan_runs (code b)).2 ≤ contextLines →
  (scan_runs (code b)).1 = 0%nat ∨ Z.of_nat (scan_runs (code b)).1 < contextLines →
  isChange e = false →
  trailing_context contextLines (rev (code b ++ [e])) 0 = Some c →
  ∀ p s n h,
    Z.of_nat (scan_runs (code (trim_block contextLines c
                                 (mkBlock p s n (code b ++ [e]) h)))).2 ≤ contextLines.
Proof.
  intros Hbest Hcur He Hc p s n h. apply trailing_context_count in Hc.
  unfold trim_block. simpl. rewrite length_app. simpl.
  destruct (Z.ltb_spec (Z.max 0 (Z.of_nat (length (code b) + 1) - c + contextLines))
                       (Z.of_nat (length (code b) + 1))) as [Hlt|Hge]; simpl.
  - assert (contextLines = 0) as Hz by lia.
    replace (Z.to_nat _) with (length (code b)) by lia.
    by rewrite take_app_length.
  - rewrite scan_snoc. unfold scan_step. rewrite He. simpl. lia.
Qed.

Lemma extract_line_bounded filePath s l :
  bounded_inv contextLines s →
  bounded_inv contextLines (extract_line filePath contextLines s l).
Proof.
  intros (Hout & Hbuf & Hcur). unfold extract_line.
  destruct (newLineNumber l) as [n|]; [|done].
  destruct s as [inb b buffer out]. simpl in Hout, Hbuf, Hcur.
  unfold bounded_inv.
  destruct (lineType l); destruct inb; simpl in *.
  - (* a context line inside a block *)
    destruct Hcur as [Hbest Htrail].
    destruct (trailing_context contextLines _ 0) as [c|] eqn:Hc; simpl.
    + split; [|split; [lia|done]].
      destruct (_ && _); [|done]. apply Forall_app. split; [done|].
      apply Forall_singleton. by apply close_bounded.
    + split; [done|]. split; [done|].
      rewrite scan_snoc. unfold scan_step. simpl.
      apply trailing_context_none in Hc. rewrite <- trailing_rev, scan_snoc in Hc.
      unfold scan_step in Hc. simpl in Hc. split; [lia|]. right. lia.
  - (* a context line outside a block *)
    split; [done|]. split; [|done].
    destruct (Z.ltb_spec contextLines (Z.of_nat (length (buffer ++ [(strip_final_lf (content l), n)]))))
      as [Hlt|Hge]; [|done].
    rewrite length_app in Hlt. simpl in Hlt.
    destruct (buffer ++ [(strip_final_lf (content l), n)]) as [|x xs] eqn:E; simpl; [lia|].
    assert (length (x :: xs) = (length buffer + 1)%nat) as Hlen.
    { rewrite <- E, length_app. done. }
    simpl in Hlen. lia.
  - (* an added line inside a block *)
    destruct Hcur as [Hbest Htrail]. split; [done|]. split; [done|].
    rewrite scan_snoc. unfold scan_step. simpl. split; [done|by left].
  - (* an added line starts a block *)
    split; [done|]. split; [lia|]. rewrite Hcur. simpl.
    rewrite scan_snoc, scan_buffer. unfold scan_step. simpl. split; [done|by left].
  - destruct Hcur as [Hbest Htrail]. split; [done|]. split; [done|].
    rewrite scan_snoc. unfold scan_step. simpl. split; [done|by left].
  - split; [done|]. split; [lia|]. rewrite Hcur. simpl.
    rewrite scan_snoc, scan_buffer. unfold scan_step. simpl. split; [done|by left].
Qed.

Lemma extract_lines_bounded filePath ls : ∀ s,
  bounded_inv contextLines s →
  bounded_inv contextLines (fold_left (extract_line filePath contextLines) ls s).
Proof.
  induction ls as [|l ls IH]; intros s Hinv; simpl; [done|].
  by apply IH, extract_line_bounded.
Qed.

Lemma extract_hunk_bounded filePath emitted h :
  Forall (λ b, Z.of_nat (scan_runs (code b)).2 ≤ contextLines) emitted →
  Forall (λ b, Z.of_nat (scan_runs (code b)).2 ≤ contextLines)
         (extract_hunk filePath contextLines emitted h).
Proof.
  intros Hout. unfold extract_hunk. case_bool_decide; [done|].
  destruct (extract_lines_bounded filePath (lines h)
              (mkLoop false (empty_block filePath) [] emitted)) as (Hout' & _ & Hcur).
  { unfold bounded_inv. simpl. done. }
  destruct (fold_left _ _ _) as [inb b buffer out]. simpl in *.
  destruct inb; simpl; [|done]. destruct (_ && _); [|done].
  apply Forall_app. split; [done|]. apply Forall_singleton. by destruct Hcur.
Qed.

Lemma extract_bounded changes :
  Forall (λ b, Z.of_nat (scan_runs (code b)).2 ≤ contextLines)
         (extractChangedCodeWithContext changes contextLines).
Proof.
  unfold extractChangedCodeWithContext. case_bool_decide; [done|].
  assert (∀ fs emitted,
            Forall (λ b, Z.of_nat (scan_runs (code b)).2 ≤ contextLines) emitted →
            Forall (λ b, Z.of_nat (scan_runs (code b)).2 ≤ contextLines)
                   (fold_left (extract_change contextLines) fs emitted)) as Hfold.
  { induction fs as [|f fs IH]; intros emitted Hout; simpl; [done|].
    apply IH. unfold extract_change.
    destruct (String.eqb (filePath f) ""); [done|]. destruct (_ || _); [done|].
    revert emitted Hout. induction (hunks f) as [|h hs IHh]; intros emitted Hout; simpl; [done|].
    by apply IHh, extract_hunk_bounded. }
  by apply Hfold.
Qed.

End BoundedContext.

(** X21: with a number of context lines that is not negative, no emitted
    block holds more than [contextLines] unchanged entries in a row, be it
    before its first change, between two changes or after its last
    change. *)
Theorem extract_context_bounded (changes : list FileChange) (contextLines : Z) (b : Block)
    (before unchanged after : list CodeEntry) :
  0 ≤ contextLines →
  b ∈ extractChangedCodeWithContext changes contextLines →
  code b = before ++ unchanged ++ after →
  Forall (λ e, isChange e = false) unchanged →
  Z.of_nat (length unchanged) ≤ contextLines.
Proof.
  intros Hk Hb Hcode Hrun.
  pose proof (extract_bounded contextLines Hk changes) as Hall.
  rewrite Forall_forall in Hall. specialize (Hall b Hb). rewrite Hcode in Hall.
  pose proof (run_le_longest before unchanged after Hrun). lia.
Qed.

Lemma extract_context_bounded_witness :
  Z.of_nat (length [mkEntry "unchanged9" 9 false; mkEntry "unchanged10" 10 false]) ≤ 3.
Proof.
  apply (extract_context_bounded (parseDiff scenario) 3 scenario_block []
           [mkEntry "unchanged9" 9 false; mkEntry "unchanged10" 10 false]
           [mkEntry "newline" 11 true; mkEntry "unchanged11" 12 false]).
  - lia.
  - vm_compute. constructor.
  - reflexivity.
  - repeat constructor.
Defined.

(** * The file lookup of the comment poster *)

Section FileLookup.

Lemma build_fileMap_last fs : ∀ m,
  (m = [] ∨ ∃ f, m = [(None, f)]) →
  fold_left add_file fs m =
    match last fs with
    | Some f => [(None, f)]
    | None => m
    end.
Proof.
  induction fs as [|f fs IH]; intros m Hm; [done|].
  simpl fold_left. rewrite IH.
  - destruct fs as [|f' fs].
    + simpl. unfold add_file. simpl. destruct Hm as [->|[f0 ->]]; done.
    + change (last (f :: f' :: fs)) with (last (f' :: fs)).
      destruct (last (f' :: fs)) eqn:E; [done|]. by apply last_None in E.
  - right. exists f. unfold add_file. simpl. destruct Hm as [->|[f0 ->]]; done.
Qed.

End FileLookup.

(** X22: the map of files that [postReviewComments] builds from a parse
    result is keyed by a property that [parseDiff] never sets: it holds at
    most one entry, under the key [undefined], for the last file. A comment
    that names its file therefore finds no file, and its line is posted as
    it is, without [lineMetadata]. *)
Theorem postReviewComments_lookup (parsedFiles : list FileChange) :
  build_fileMap parsedFiles =
    match last parsedFiles with
    | Some f => [(None, f)]
    | None => []
    end ∧
  ∀ (name : string) (targetLine : Z),
    fileMap_get (Some name) (build_fileMap parsedFiles) = None ∧
    resolve_line (build_fileMap parsedFiles) (Some name) targetLine = Normal (targetLine, None).
Proof.
  assert (build_fileMap parsedFiles =
          match last parsedFiles with Some f => [(None, f)] | None => [] end) as Hmap.
  { unfold build_fileMap. apply build_fileMap_last. by left. }
  split; [exact Hmap|]. intros name targetLine. unfold resolve_line. rewrite Hmap.
  destruct (last parsedFiles); done.
Qed.

(** * The path of a file header *)

Section HeaderPath.

Lemma segment_all_dots s : all_dots s = true → segment s = s.
Proof.
  induction s as [|c r IH]; simpl; [done|]. intros H.
  apply andb_prop in H as [Hc Hr]. destruct (is_line_terminator c); [done|].
  by rewrite IH.
Qed.

Lemma split_last_cons pat c r :
  split_last pat (String c r) =
    match split_last pat r with
    | Some (before, after) => Some (String c before, after)
    | None =>
        if startsWith pat (String c r)
        then Some (EmptyString, substring_from (String.length pat) (String c r))
        else None
    end.
Proof. done. Qed.

Lemma split_last_absent s : absent " b/" s = true → split_last " b/" s = None.
Proof.
  induction s as [|c r IH]; [done|]. intros H.
  change (absent " b/" (String c r))
    with (negb (startsWith " b/" (String c r)) && absent " b/" r) in H.
  apply andb_prop in H as [Hs Hr]. rewrite split_last_cons, (IH Hr).
  apply negb_true_iff in Hs. by rewrite Hs.
Qed.

Lemma split_first_last s : ∀ a b,
  split_first " b/" s = Some (a, b) → absent " b/" b = true →
  split_last " b/" s = Some (a, b).
Proof.
  induction s as [|c r IH]; intros a b.
  - simpl. done.
  - unfold split_first. fold split_first.
    destruct (startsWith " b/" (String c r)) eqn:Hs.
    + intros [= <- <-] Hb.
      apply startsWith_cons in Hs as (r1 & [= -> ->] & Hs).
      apply startsWith_cons in Hs as (r2 & -> & Hs).
      apply startsWith_cons in Hs as (r3 & -> & _).
      simpl substring_from in *. rewrite !split_last_cons.
      rewrite (split_last_absent r3 Hb). clear. by destruct r3.
    + destruct (split_first " b/" r) as [[a' b']|] eqn:Hr; [|done].
      intros [= <- <-] Hb. rewrite split_last_cons. by rewrite (IH a' b' eq_refl Hb).
Qed.

End HeaderPath.

(** X23: on a file header that [parseDiff] reads, [extractFilePath]
    returns the target path that [parseDiff] finds before trimming,
    provided that path is not empty, is not [/dev/null] and holds no
    [" b/"] of its own. *)
Theorem extractFilePath_agrees (line m1 m2 : string) :
  match_diff_header line = Some (m1, m2) →
  absent " b/" m2 = true → m2 ≠ "" → m2 ≠ "/dev/null" →
  extractFilePath line = Some m2.
Proof.
  unfold match_diff_header. intros Hm Habs Hne Hnull.
  destruct (startsWith "diff --git a/" line) eqn:Hs; [|done].
  destruct (all_dots (substring_from 13 line)) eqn:Hd; [|done].
  unfold extractFilePath.
  assert (search git_header_at line = Some m2) as ->.
  { destruct line as [|c r]; [done|]. unfold search, git_header_at. rewrite Hs.
    rewrite (segment_all_dots _ Hd), (split_first_last _ _ _ Hm Habs). done. }
  unfold usable.
  destruct (String.eqb_spec m2 ""); [done|]. destruct (String.eqb_spec m2 "/dev/null"); done.
Qed.

Lemma extractFilePath_agrees_witness :
  extractFilePath "diff --git a/old.js b/src/new.js" = Some "src/new.js".
Proof.
  apply (extractFilePath_agrees "diff --git a/old.js b/src/new.js" "old.js" "src/new.js").
  - vm_compute. reflexivity.
  - vm_compute. reflexivity.
  - discriminate.
  - discriminate.
Defined.
